(** * Planeverb: the FDTD grid engine of [FDTD.cpp]

    A shallow embedding of [src/ProjectPlaneverb/src/FDTD/FDTD.cpp]: the
    client interface ([GetOutput], [GetImpulseResponse]), the response query
    ([Grid::GetResponse]) and the time-stepped solver
    ([Grid::GenerateResponseCPU], [Grid::GenerateResponseGPU],
    [Grid::GenerateResponse]).

    Conventions of the embedding.
    - [Real] (declared in a header that is not part of the sources at hand) is
      a parameter: a type with the arithmetic the solver uses, the class
      [RealArith].  Whatever a proof needs of that arithmetic is a named
      hypothesis of the theorem, so every result holds for each arithmetic
      that meets them.  Two instances are given and the closed examples run
      on them: [Qc], the exact rationals, and IEEE binary64 (the primitive
      floats), the arithmetic of [Real] when it is [double].
    - a C++ [int] is a [Z]; the grids considered are far below the size where
      an index computation could overflow.
    - an access outside an allocated array is undefined behaviour in the
      source; the embedding makes it the explicit outcome [Fault OutOfBounds],
      and a dereferenced null pointer the outcome [Fault NullDeref].
    - the loops of the solver run sequentially and in place, as in the source
      (no [omp] pragma is attached to any of them). *)

From Stdlib Require Import ZArith QArith Qcanon Lia.
From Stdlib Require PrimFloat FloatOps SpecFloat FloatAxioms.
From stdpp Require Import base list.

Local Open Scope Z_scope.

(** ** Outcomes of array accesses and of calls *)

(** The two ways the source can leave defined behaviour. *)
Inductive undefined : Type := OutOfBounds | NullDeref.

(** What an access to memory evaluates to. *)
Inductive access (A : Type) : Type :=
| Ok (a : A)
| Fault (u : undefined).
Arguments Ok {A} a.
Arguments Fault {A} u.

Definition bind {A B : Type} (m : access A) (k : A → access B) : access B :=
  match m with
  | Ok a => k a
  | Fault u => Fault u
  end.

Declare Scope access_scope.
Delimit Scope access_scope with access.
Notation "'let*' x ':=' m 'in' k" := (bind m (fun x => k))
  (at level 10, x name, m at level 100, k at level 200) : access_scope.
Local Open Scope access_scope.

(** [a[k]] read on an array of [length l] elements. *)
Definition at_ {A : Type} (l : list A) (k : Z) : access A :=
  if k <? 0 then Fault OutOfBounds
  else match l !! Z.to_nat k with
       | Some a => Ok a
       | None => Fault OutOfBounds
       end.

(** [a[k] = v] on an array of [length l] elements. *)
Definition store {A : Type} (l : list A) (k : Z) (v : A) : access (list A) :=
  if (0 <=? k) && (k <? Z.of_nat (length l))
  then Ok (<[Z.to_nat k := v]> l)
  else Fault OutOfBounds.

(** [for (int i = lo; i < hi; ++i) body], threading the state [St]. *)
Fixpoint for_loop {St : Type} (n : nat) (i : Z) (body : Z → St → access St)
    (s : St) : access St :=
  match n with
  | O => Ok s
  | S n' => let* s' := body i s in for_loop n' (i + 1) body s'
  end.

Definition for_range {St : Type} (lo hi : Z) (body : Z → St → access St)
    (s : St) : access St :=
  for_loop (Z.to_nat (hi - lo)) lo body s.

(** A loop body that computes a new value for element [i] from the current
    array and stores it there. *)
Definition pointwise_body {A : Type} (upd : Z → list A → access A) (i : Z)
    (s : list A) : access (list A) :=
  let* a := upd i s in store s i a.

(** The invariant of such a loop when it reaches index [i], having started
    at [lo] on the array [s0]: the elements are [R]-related to those of
    [s0], the visited ones are [upd] of [s0], the others those of [s0]. *)
Definition visited {A : Type} (upd : Z → list A → access A) (R : A → A → Prop)
    (lo i : Z) (s0 s : list A) : Prop :=
  Forall2 R s s0
  ∧ (∀ k : nat, lo ≤ Z.of_nat k < i → ∃ a', upd (Z.of_nat k) s0 = Ok a' ∧ s !! k = Some a')
  ∧ (∀ k : nat, ¬ (lo ≤ Z.of_nat k < i) → s !! k = s0 !! k).

(** The node-wise reading of such a loop over [lo <= i < hi]: every visited
    element of [s'] is [upd] of the array [s0] the loop started on, every
    other element is the one of [s0]. *)
Definition loop_result {A : Type} (upd : Z → list A → access A)
    (lo hi : Z) (s0 s' : list A) : Prop :=
  length s' = length s0
  ∧ (∀ k : nat, lo ≤ Z.of_nat k < hi →
       ∃ a', upd (Z.of_nat k) s0 = Ok a' ∧ s' !! k = Some a')
  ∧ (∀ k : nat, ¬ (lo ≤ Z.of_nat k < hi) → s' !! k = s0 !! k).

(** The exception values of the library and the execution modes. *)
Inductive PvError : Type := pv_InvalidConfig.

Inductive PlaneverbExecutionType : Type := pv_CPU | pv_GPU.

Definition is_CPU (e : PlaneverbExecutionType) : bool :=
  match e with pv_CPU => true | pv_GPU => false end.

(** ** The arithmetic of [Real] *)

Class RealArith (Real : Type) : Type := {
  r0 : Real;                       (* the literal 0.f *)
  r1 : Real;                       (* the literal 1.f *)
  radd : Real → Real → Real;
  rsub : Real → Real → Real;
  rmul : Real → Real → Real;
  rdiv : Real → Real → Real;
  rneg : Real → Real;
  of_int : Z → Real;               (* the conversion (Real)n *)
  to_int : Real → Z                (* the truncating cast (int)x *)
}.

(** Physical constants of [PvDefinitions.h]: speed of sound and air density. *)
Class PvDefinitions (Real : Type) : Type := {
  PV_C : Real;
  PV_RHO : Real
}.

(** The single-precision type of the client record, the cast [(float)x] to
    it, its all-zero-bytes value and the reserved gain of
    [PvDefinitions.h]. *)
Class ClientFloat (Real : Type) : Type := {
  float : Type;
  to_float : Real → float;
  float_zero : float;
  PV_INVALID_DRY_GAIN : float
}.

Section Engine.

Context {Real : Type} `{RealArith Real} `{PvDefinitions Real} `{ClientFloat Real}.

(** ** Data model *)

Record vec2 : Type := Vec2 { x2 : Real; y2 : Real }.
Record vec3 : Type := Vec3 { x3 : Real; y3 : Real; z3 : Real }.

(** One grid node: pressure, the two velocity components and the boundary
    flags of the two axes ([by_] is the field [by]). *)
Record Cell : Type := MkCell {
  pr : Real;
  vx : Real;
  vy : Real;
  b : Z;
  by_ : Z
}.

Record BoundaryInfo : Type := MkBoundary {
  normal : vec2;
  absorption : Real
}.

Record Grid : Type := MkGrid {
  m_grid : list Cell;
  m_boundaries : list BoundaryInfo;
  m_pulseResponse : list (list Cell);
  m_pulse : list Real;
  m_gridSize : vec2;
  m_gridOffset : vec2;
  m_dx : Real;
  m_dt : Real;
  m_z_inv : Real;
  m_responseLength : Z;
  m_maxThreads : Z;
  m_executionType : PlaneverbExecutionType
}.

Definition set_pr (c : Cell) (v : Real) : Cell :=
  MkCell v (vx c) (vy c) (b c) (by_ c).
Definition set_vx (c : Cell) (v : Real) : Cell :=
  MkCell (pr c) v (vy c) (b c) (by_ c).
Definition set_vy (c : Cell) (v : Real) : Cell :=
  MkCell (pr c) (vx c) v (b c) (by_ c).

Definition with_cells (g : Grid) (cells : list Cell) : Grid :=
  MkGrid cells (m_boundaries g) (m_pulseResponse g) (m_pulse g)
    (m_gridSize g) (m_gridOffset g) (m_dx g) (m_dt g) (m_z_inv g)
    (m_responseLength g) (m_maxThreads g) (m_executionType g).

Definition with_response (g : Grid) (cube : list (list Cell)) : Grid :=
  MkGrid (m_grid g) (m_boundaries g) cube (m_pulse g)
    (m_gridSize g) (m_gridOffset g) (m_dx g) (m_dt g) (m_z_inv g)
    (m_responseLength g) (m_maxThreads g) (m_executionType g).

(** ** Constants of [Grid::GenerateResponseCPU] (lines 89-103) *)

Definition Courant (g : Grid) : Real := rdiv (m_dt g) (m_dx g).
Definition Cv (g : Grid) : Real := rmul (rmul PV_C (Courant g)) (m_z_inv g).
Definition Cprv (g : Grid) : Real :=
  rmul (rmul (rmul (Courant g) PV_RHO) PV_C) PV_C.

Definition gridx (g : Grid) : Z := to_int (x2 (m_gridSize g)).
Definition gridy (g : Grid) : Z := to_int (y2 (m_gridSize g)).
Definition incdim (g : Grid) : vec2 :=
  Vec2 (radd (x2 (m_gridSize g)) (of_int 1)) (radd (y2 (m_gridSize g)) (of_int 1)).
Definition loopSize (g : Grid) : Z :=
  to_int (x2 (incdim g)) * to_int (y2 (incdim g)).

Definition listenerPosX (g : Grid) (listener : vec3) : Z :=
  to_int (rdiv (radd (x3 listener) (x2 (m_gridOffset g))) (m_dx g)).
Definition listenerPosY (g : Grid) (listener : vec3) : Z :=
  to_int (rdiv (radd (z3 listener) (y2 (m_gridOffset g))) (m_dx g)).
Definition listenerPos (g : Grid) (listener : vec3) : Z :=
  listenerPosX g listener * (gridy g + 1) + listenerPosY g listener.

(** The relative admittance [(1.f - R) / (1.f + R)]. *)
Definition admittance (R : Real) : Real := rdiv (rsub r1 R) (radd r1 R).

(** ** The phases of one time step

    Every phase works in place on the cell array [m_grid]; the boundary
    descriptors and the scalars of the grid are only read.  [g] below is the
    grid the call started on and supplies exactly those read-only parts. *)

Section Phases.

Variable g : Grid.

(** Lines 115-120: the reset of one node. *)
Definition reset_body (i : Z) (cells : list Cell) : access (list Cell) :=
  let* c := at_ cells i in
  store cells i (MkCell r0 r0 r0 (b c) (by_ c)).

Definition reset_phase (cells : list Cell) : access (list Cell) :=
  for_range 0 (loopSize g) reset_body cells.

(** Lines 131-148: the pressure of node [i].  Both statements that assign
    [thisCell.pr] are folded into the one store; the neighbours are read
    before it, as in the source. *)
Definition pressure_value (thisCell nextCellX nextCellY : Cell) : Real :=
  let beta := of_int (b thisCell) in
  let divergence :=
    radd (rsub (vx nextCellX) (vx thisCell)) (rsub (vy nextCellY) (vy thisCell)) in
  rdiv (rsub (pr thisCell) (rmul (Cprv g) divergence))
       (radd r1 (rmul (rsub r1 beta) (m_dt g))).

Definition pressure_body (i : Z) (cells : list Cell) : access (list Cell) :=
  let* thisCell := at_ cells i in
  let B := b thisCell in
  let* bd := at_ (m_boundaries g) i in
  let* nextCellX := at_ cells ((i + gridy g + 1) * B) in
  let* nextCellY := at_ cells ((i + 1) * B) in
  store cells i (set_pr thisCell (pressure_value thisCell nextCellX nextCellY)).

Definition pressure_phase (cells : list Cell) : access (list Cell) :=
  for_range 0 (loopSize g) pressure_body cells.

(** [i + (int)normal.y * (gridy + 1) + (int)normal.x] *)
Definition normalInd (i : Z) (bd : BoundaryInfo) : Z :=
  i + to_int (y2 (normal bd)) * (gridy g + 1) + to_int (x2 (normal bd)).

(** The two candidate updates of a velocity component and their blend
    (lines 173-176 and 201-204): [v] is the component's old value, [B] the
    flag of the axis, [R] the absorption coefficient. *)
Definition airCellUpdate (v this_pr prev_pr : Real) : Real :=
  rsub v (rmul (Cv g) (rsub this_pr prev_pr)).
Definition wallCellUpdate (R neighbor_pr : Real) : Real :=
  rmul (rmul (admittance R) (m_z_inv g)) neighbor_pr.
Definition velocity_value (B : Z) (R v this_pr prev_pr neighbor_pr : Real) : Real :=
  let beta := of_int B in
  radd (rmul beta (airCellUpdate v this_pr prev_pr))
       (rmul (rsub r1 beta) (wallCellUpdate R neighbor_pr)).

(** Lines 157-176: the x velocity of node [i]. *)
Definition velocity_x_body (i : Z) (cells : list Cell) : access (list Cell) :=
  let* bd := at_ (m_boundaries g) i in
  let* neighborAirCell := at_ cells (normalInd i bd) in
  let* thisCell := at_ cells i in
  let B := b thisCell in
  let* prevCell := at_ cells ((i - gridy g - 1) * B) in
  store cells i
    (set_vx thisCell
       (velocity_value B (absorption bd) (vx thisCell) (pr thisCell)
          (pr prevCell) (pr neighborAirCell))).

Definition velocity_x_phase (cells : list Cell) : access (list Cell) :=
  for_range (gridy g + 1) (loopSize g) velocity_x_body cells.

(** Lines 185-204: the y velocity of node [i]. *)
Definition velocity_y_body (i : Z) (cells : list Cell) : access (list Cell) :=
  let* bd := at_ (m_boundaries g) i in
  let* neighborAirCell := at_ cells (normalInd i bd) in
  let* thisCell := at_ cells i in
  let B := by_ thisCell in
  let* prevCell := at_ cells ((i - 1) * B) in
  store cells i
    (set_vy thisCell
       (velocity_value B (absorption bd) (vy thisCell) (pr thisCell)
          (pr prevCell) (pr neighborAirCell))).

Definition velocity_y_phase (cells : list Cell) : access (list Cell) :=
  for_range 1 (loopSize g) velocity_y_body cells.

(** Lines 210-217: absorbing top and bottom edges. *)
Definition absorb_tb_body (i : Z) (cells : list Cell) : access (list Cell) :=
  let index1 := i in
  let index2 := gridx g * (gridy g + 1) + i in
  let* c1 := at_ cells index1 in
  let* cells1 := store cells index1 (set_vx c1 (rmul (rneg (pr c1)) (m_z_inv g))) in
  let* p2 := at_ cells1 (index2 - gridy g - 1) in
  let* c2 := at_ cells1 index2 in
  store cells1 index2 (set_vx c2 (rmul (pr p2) (m_z_inv g))).

Definition absorb_tb_phase (cells : list Cell) : access (list Cell) :=
  for_range 0 (gridy g) absorb_tb_body cells.

(** Lines 222-229: absorbing left and right edges. *)
Definition absorb_lr_body (i : Z) (cells : list Cell) : access (list Cell) :=
  let index1 := i * (gridy g + 1) in
  let index2 := i * (gridy g + 1) + gridy g in
  let* c1 := at_ cells index1 in
  let* cells1 := store cells index1 (set_vy c1 (rmul (rneg (pr c1)) (m_z_inv g))) in
  let* p2 := at_ cells1 (index2 - 1) in
  let* c2 := at_ cells1 index2 in
  store cells1 index2 (set_vy c2 (rmul (pr p2) (m_z_inv g))).

Definition absorb_lr_phase (cells : list Cell) : access (list Cell) :=
  for_range 0 (gridx g) absorb_lr_body cells.

(** The cell each of the four node-wise loops stores at node [i], as a
    function of the array the iteration starts on. *)
Definition reset_cell (i : Z) (cells : list Cell) : access Cell :=
  let* c := at_ cells i in
  Ok (MkCell r0 r0 r0 (b c) (by_ c)).

Definition pressure_cell (i : Z) (cells : list Cell) : access Cell :=
  let* thisCell := at_ cells i in
  let B := b thisCell in
  let* bd := at_ (m_boundaries g) i in
  let* nextCellX := at_ cells ((i + gridy g + 1) * B) in
  let* nextCellY := at_ cells ((i + 1) * B) in
  Ok (set_pr thisCell (pressure_value thisCell nextCellX nextCellY)).

Definition velocity_x_cell (i : Z) (cells : list Cell) : access Cell :=
  let* bd := at_ (m_boundaries g) i in
  let* neighborAirCell := at_ cells (normalInd i bd) in
  let* thisCell := at_ cells i in
  let B := b thisCell in
  let* prevCell := at_ cells ((i - gridy g - 1) * B) in
  Ok (set_vx thisCell
        (velocity_value B (absorption bd) (vx thisCell) (pr thisCell)
           (pr prevCell) (pr neighborAirCell))).

Definition velocity_y_cell (i : Z) (cells : list Cell) : access Cell :=
  let* bd := at_ (m_boundaries g) i in
  let* neighborAirCell := at_ cells (normalInd i bd) in
  let* thisCell := at_ cells i in
  let B := by_ thisCell in
  let* prevCell := at_ cells ((i - 1) * B) in
  Ok (set_vy thisCell
        (velocity_value B (absorption bd) (vy thisCell) (pr thisCell)
           (pr prevCell) (pr neighborAirCell))).

(** The series the recording loop stores for node [i]. *)
Definition record_series (cells : list Cell) (t : Z) (i : Z)
    (cube : list (list Cell)) : access (list Cell) :=
  let* c := at_ cells i in
  let* series := at_ cube i in
  store series t c.

(** The four update phases of a step, in the order of the source. *)
Definition update_phases (cells : list Cell) : access (list Cell) :=
  let* c1 := pressure_phase cells in
  let* c2 := velocity_x_phase c1 in
  let* c3 := velocity_y_phase c2 in
  let* c4 := absorb_tb_phase c3 in
  absorb_lr_phase c4.

(** Lines 234-237: [m_pulseResponse[i][t] = m_grid[i]]. *)
Definition record_body (cells : list Cell) (t : Z) (i : Z)
    (cube : list (list Cell)) : access (list (list Cell)) :=
  let* c := at_ cells i in
  let* series := at_ cube i in
  let* series' := store series t c in
  store cube i series'.

Definition record_phase (cells : list Cell) (t : Z)
    (cube : list (list Cell)) : access (list (list Cell)) :=
  for_range 0 (loopSize g) (record_body cells t) cube.

(** Line 241: [m_grid[listenerPos].pr += m_pulse[t]]. *)
Definition excite (listener : vec3) (t : Z) (cells : list Cell)
    : access (list Cell) :=
  let* c := at_ cells (listenerPos g listener) in
  let* p := at_ (m_pulse g) t in
  store cells (listenerPos g listener) (set_pr c (radd (pr c) p)).

(** Lines 124-242: the body of the time loop, on the pair of the cell array
    and the response cube. *)
Definition time_step (listener : vec3) (t : Z)
    (s : list Cell * list (list Cell)) : access (list Cell * list (list Cell)) :=
  let* cells' := update_phases (fst s) in
  let* cube' := record_phase cells' t (snd s) in
  let* cells'' := excite listener t cells' in
  Ok (cells'', cube').

End Phases.

(** ** The calls of [Grid] *)

(** How a call of a method of [Grid] ends: it returns, leaving the grid in
    state [g]; it throws, the grid being in state [g] at that point; or it
    runs into undefined behaviour. *)
Inductive call : Type :=
| Returns (g : Grid)
| Throws (e : PvError) (g : Grid)
| Undefined (u : undefined).

(** [Grid::GenerateResponseCPU].  The thread-count selection of lines
    106-109 only configures the worker pool and is left out. *)
Definition simulate (g : Grid) (listener : vec3)
    : access (list Cell * list (list Cell)) :=
  let* cells0 := reset_phase g (m_grid g) in
  for_range 0 (m_responseLength g) (time_step g listener)
    (cells0, m_pulseResponse g).

Definition GenerateResponseCPU (g : Grid) (listener : vec3) : call :=
  match simulate g listener with
  | Ok (cells, cube) => Returns (with_response (with_cells g cells) cube)
  | Fault u => Undefined u
  end.

(** [Grid::GenerateResponseGPU]: not supported. *)
Definition GenerateResponseGPU (g : Grid) (listener : vec3) : call :=
  Throws pv_InvalidConfig g.

(** [Grid::GenerateResponse] *)
Definition GenerateResponse (g : Grid) (listener : vec3) : call :=
  if is_CPU (m_executionType g)
  then GenerateResponseCPU g listener
  else GenerateResponseGPU g listener.

(** ** The response query *)

(** Modelled from the spec: the macro [INDEX] of [PvDefinitions.h], which
    flattens node coordinates row-major, the row stride being the second
    component of the dimension it is given. *)
Definition INDEX (row col : Z) (dim : vec2) : Z := row * to_int (y2 dim) + col.

(** [Grid::GetResponse]: the series of a node, [data()] of the vector
    [m_pulseResponse[index]]. *)
Definition GetResponse (g : Grid) (gridPosition : vec2) : access (list Cell) :=
  let incDim :=
    Vec2 (radd (x2 (m_gridSize g)) (of_int 1)) (radd (y2 (m_gridSize g)) (of_int 1)) in
  let index := INDEX (to_int (x2 gridPosition)) (to_int (y2 gridPosition)) incDim in
  at_ (m_pulseResponse g) index.

Definition GetResponseSize (g : Grid) : Z := m_responseLength g.
Definition GetDX (g : Grid) : Real := m_dx g.

(** ** The client interface *)

Record PlaneverbOutput : Type := MkOutput {
  occlusion : float;
  wetGain : float;
  lowpass : float;
  rt60 : float;
  direction : vec2;
  sourceDirectivity : vec2
}.

(** The record the analyzer keeps per node ([DSP/Analyzer.h]). *)
Record AnalyzerResult : Type := MkResult {
  a_occlusion : Real;
  a_wetGain : Real;
  a_lowpassIntensity : Real;
  a_rt60 : Real;
  a_direction : vec2;
  a_sourceDirectivity : vec2
}.

Definition EmissionID : Type := Z.

(** The collaborators, each by the one method [FDTD.cpp] calls; a null
    pointer result is [None]. *)
Record Analyzer : Type := { GetResponseResult : vec3 → option AnalyzerResult }.
Record EmissionManager : Type := { GetEmitter : EmissionID → option vec3 }.
Record Context : Type := {
  GetAnalyzer : Analyzer;
  GetEmissionManager : EmissionManager;
  GetGrid : Grid
}.

(** [std::memset(&out, 0, sizeof(out))] *)
Definition zero_output : PlaneverbOutput :=
  MkOutput float_zero float_zero float_zero float_zero (Vec2 r0 r0) (Vec2 r0 r0).

Definition set_occlusion (out : PlaneverbOutput) (v : float) : PlaneverbOutput :=
  MkOutput v (wetGain out) (lowpass out) (rt60 out) (direction out)
    (sourceDirectivity out).

(** [GetOutput]; [context] is what [GetContext()] returns. *)
Definition GetOutput (context : option Context) (emitter : EmissionID)
    : PlaneverbOutput :=
  let out := zero_output in
  match context with
  | None => set_occlusion out PV_INVALID_DRY_GAIN
  | Some ctx =>
    let analyzer := GetAnalyzer ctx in
    let emissions := GetEmissionManager ctx in
    match GetEmitter emissions emitter with
    | None => set_occlusion out PV_INVALID_DRY_GAIN
    | Some emitterPos =>
      match GetResponseResult analyzer emitterPos with
      | None => set_occlusion out PV_INVALID_DRY_GAIN
      | Some result =>
        MkOutput (to_float (a_occlusion result)) (to_float (a_wetGain result))
          (to_float (a_lowpassIntensity result)) (to_float (a_rt60 result))
          (a_direction result) (a_sourceDirectivity result)
      end
    end
  end.

(** [GetImpulseResponse]: the context is dereferenced unchecked. *)
Definition GetImpulseResponse (context : option Context) (position : vec3)
    : access (list Cell * Z) :=
  match context with
  | None => Fault NullDeref
  | Some ctx =>
    let grid := GetGrid ctx in
    let dx := GetDX grid in
    let gridPosition := Vec2 (rdiv (x3 position) dx) (rdiv (z3 position) dx) in
    let* series := GetResponse grid gridPosition in
    Ok (series, GetResponseSize grid)
  end.

End Engine.

(** ** A well-formedness check

    What the solver needs of a grid to stay inside its arrays, as a decidable
    check.  It only looks at what a call never changes: the dimensions, the
    boundary flags of the nodes and the boundary descriptors. *)

Section Checks.

Context {Real : Type} `{RealArith Real}.

Definition in_range (n k : Z) : bool := (0 <=? k) && (k <? n).

Definition flags (c : @Cell Real) : Z * Z := (b c, by_ c).

(** Every index node [i] computes in the three update phases is inside the
    array of [loopSize g] cells. *)
Definition node_ok (g : Grid) (i : Z) (f : Z * Z) (bd : BoundaryInfo) : bool :=
  let N := loopSize g in
  in_range N ((i + gridy g + 1) * fst f) && in_range N ((i + 1) * fst f)
  && ((i <? gridy g + 1)
      || (in_range N (normalInd g i bd) && in_range N ((i - gridy g - 1) * fst f)))
  && ((i <? 1)
      || (in_range N (normalInd g i bd) && in_range N ((i - 1) * snd f))).

Fixpoint nodes_ok (g : Grid) (i : Z) (fs : list (Z * Z)) (bds : list BoundaryInfo)
    : bool :=
  match fs, bds with
  | [], _ => true
  | f :: fs', bd :: bds' => node_ok g i f bd && nodes_ok g (i + 1) fs' bds'
  | _ :: _, [] => false
  end.

Definition wf_grid (g : Grid) : bool :=
  (1 <=? gridx g) && (1 <=? gridy g)
  && (loopSize g =? (gridx g + 1) * (gridy g + 1))
  && (Z.of_nat (length (m_grid g)) =? loopSize g)
  && nodes_ok g 0 ((flags <$> m_grid g)) (m_boundaries g).

(** The response cube has one series per node, each of the response length,
    and the excitation has a sample for every step. *)
Definition wf_response (g : Grid) : bool :=
  (Z.of_nat (length (m_pulseResponse g)) =? loopSize g)
  && forallb (λ series, Z.of_nat (length series) =? m_responseLength g)
       (m_pulseResponse g)
  && (m_responseLength g <=? Z.of_nat (length (m_pulse g))).

Definition wf_listener (g : Grid) (listener : vec3) : bool :=
  in_range (loopSize g) (listenerPos g listener).

(** The relations under which the updates are insensitive to the stores of
    earlier iterations: the pressure loop only reads velocities of other
    nodes, the velocity loops only their pressures. *)
Definition same_velocity (c c0 : @Cell Real) : Prop := vx c = vx c0 ∧ vy c = vy c0.
Definition same_pressure (c c0 : @Cell Real) : Prop := pr c = pr c0.

(** The cell array [s] has the boundary flags of the grid [g], node by node. *)
Definition fits (g : Grid) (s : list (@Cell Real)) : Prop :=
  flags <$> s = flags <$> m_grid g.

(** The shape of a response cube: one series per node, each of the response
    length. *)
Definition cube_ok (g : Grid) (cube : list (list (@Cell Real))) : Prop :=
  Z.of_nat (length cube) = loopSize g
  ∧ Forall (λ series, Z.of_nat (length series) = m_responseLength g) cube.

(** The samples all nodes hold at time index [j]. *)
Definition column (j : nat) (cube : list (list (@Cell Real))) : list (option Cell) :=
  (λ series, series !! j) <$> cube.

(** Two series of the same length. *)
Definition same_length (series1 series2 : list (@Cell Real)) : Prop :=
  length series1 = length series2.

(** The two states of the time loop that two runs have reached before
    time index [t]: the same cells, and cubes of the right shape that agree
    on all samples of the indices below [t]. *)
Definition runs_agree (g : Grid) (t : Z)
    (st1 st2 : list (@Cell Real) * list (list (@Cell Real))) : Prop :=
  fst st1 = fst st2
  ∧ cube_ok g (snd st1) ∧ cube_ok g (snd st2)
  ∧ ∀ j : nat, Z.of_nat j < t → column j (snd st1) = column j (snd st2).

(** The state of the time loop fits the grid. *)
Definition step_ok (g : @Grid Real) (s : list (@Cell Real) * list (list (@Cell Real))) : Prop :=
  fits g (fst s) ∧ cube_ok g (snd s).

(** The parts of a grid that a call of the solver only reads. *)
Definition same_static (g1 g2 : Grid) : Prop :=
  flags <$> m_grid g1 = flags <$> m_grid g2
  ∧ m_boundaries g1 = m_boundaries g2
  ∧ m_pulse g1 = m_pulse g2
  ∧ m_gridSize g1 = m_gridSize g2
  ∧ m_gridOffset g1 = m_gridOffset g2
  ∧ m_dx g1 = m_dx g2 ∧ m_dt g1 = m_dt g2 ∧ m_z_inv g1 = m_z_inv g2
  ∧ m_responseLength g1 = m_responseLength g2
  ∧ m_maxThreads g1 = m_maxThreads g2
  ∧ m_executionType g1 = m_executionType g2.

End Checks.

(** ** Exact rational arithmetic as an instance of [Real] *)

#[export] Instance Qc_arith : RealArith Qc := {|
  r0 := 0%Qc;
  r1 := 1%Qc;
  radd := Qcplus;
  rsub := Qcminus;
  rmul := Qcmult;
  rdiv := Qcdiv;
  rneg := Qcopp;
  of_int := λ n, Q2Qc (inject_Z n);
  to_int := λ q, Z.quot (Qnum (this q)) (Zpos (Qden (this q)))
|}.

(** Speed of sound 343.21 m/s and air density 1.2041 kg/m^3. *)
#[export] Instance Qc_defs : PvDefinitions Qc := {|
  PV_C := Q2Qc (34321 # 100);
  PV_RHO := Q2Qc (12041 # 10000)
|}.

#[export] Instance Qc_float : ClientFloat Qc := {|
  float := Qc;
  to_float := λ q, q;
  float_zero := 0%Qc;
  PV_INVALID_DRY_GAIN := Q2Qc (-1 # 1)
|}.

(** ** Example grids over [Qc] *)

Definition qc (n : Z) (d : positive) : Qc := Q2Qc (n # d).

(** A node with the given pressure and flags; the velocities are stale
    values of an earlier run. *)
Definition node (p : Qc) (fx fy : Z) : @Cell Qc :=
  MkCell p (qc 1 3) (qc (-2) 5) fx fy.

Definition wall : @BoundaryInfo Qc := MkBoundary (Vec2 0%Qc 0%Qc) (qc 1 2).

(** Three rows of three nodes ([m_gridSize] = (2, 2)).  The nodes of the
    last row carry the x flag 0, so that no forward read leaves the array;
    the listener position (0, 0, 0) maps to the centre node 4. *)
Definition demo_cells : list (@Cell Qc) :=
  [ node (qc 1 1) 1 1; node (qc 2 1) 1 1; node (qc 3 1) 1 1;
    node (qc 4 1) 1 1; node (qc 5 1) 1 1; node (qc 6 1) 1 1;
    node (qc 7 1) 0 1; node (qc 8 1) 0 1; node (qc 9 1) 0 1 ].

Definition demo_grid : @Grid Qc := {|
  m_grid := demo_cells;
  m_boundaries := replicate 9 wall;
  m_pulseResponse := replicate 9 [node (qc 7 2) 1 1; node (qc 7 2) 1 1];
  m_pulse := [1%Qc; 0%Qc];
  m_gridSize := Vec2 (qc 2 1) (qc 2 1);
  m_gridOffset := Vec2 (qc 1 2) (qc 1 2);
  m_dx := qc 1 2;
  m_dt := qc 1 1000;
  m_z_inv := qc 1 400;
  m_responseLength := 2;
  m_maxThreads := 0;
  m_executionType := pv_CPU
|}.

Definition demo_listener : @vec3 Qc := Vec3 0%Qc 0%Qc 0%Qc.

(** The same grid after some other run: other dynamic fields, other
    contents of the response cube. *)
Definition demo_grid_used : @Grid Qc :=
  with_response
    (with_cells demo_grid
       (map (λ c, MkCell (qc 5 7) (qc (-1) 9) (qc 2 3) (b c) (by_ c)) demo_cells))
    (replicate 9 [node (qc 1 8) 0 0; node (qc 3 8) 1 0]).

(** The same grid with the GPU mode selected. *)
Definition demo_grid_gpu : @Grid Qc :=
  MkGrid (m_grid demo_grid) (m_boundaries demo_grid) (m_pulseResponse demo_grid)
    (m_pulse demo_grid) (m_gridSize demo_grid) (m_gridOffset demo_grid)
    (m_dx demo_grid) (m_dt demo_grid) (m_z_inv demo_grid)
    (m_responseLength demo_grid) (m_maxThreads demo_grid) pv_GPU.

(** Two rows of two nodes ([m_gridSize] = (1, 1)), every node a medium
    node. *)
Definition open_grid : @Grid Qc := {|
  m_grid := [ node (qc 1 1) 1 1; node (qc 2 1) 1 1;
              node (qc 3 1) 1 1; node (qc 4 1) 1 1 ];
  m_boundaries := replicate 4 wall;
  m_pulseResponse := [ [node (qc 10 1) 1 1]; [node (qc 11 1) 1 1];
                       [node (qc 12 1) 1 1]; [node (qc 13 1) 1 1] ];
  m_pulse := [1%Qc];
  m_gridSize := Vec2 (qc 1 1) (qc 1 1);
  m_gridOffset := Vec2 (qc 1 1) (qc 1 1);
  m_dx := qc 1 1;
  m_dt := qc 1 1000;
  m_z_inv := qc 1 400;
  m_responseLength := 1;
  m_maxThreads := 0;
  m_executionType := pv_CPU
|}.

(** A context around a grid: an analyzer with a result for the one position
    (1, 0, 1), and an emission manager that knows emitter 7 at that position
    and emitter 8 at (9, 0, 9). *)
Definition demo_result : @AnalyzerResult Qc :=
  MkResult (qc 1 2) (qc 1 4) (qc 3 4) (qc 6 5) (Vec2 1%Qc 0%Qc) (Vec2 0%Qc 1%Qc).

Definition demo_context (g : @Grid Qc) : @Context Qc := {|
  GetAnalyzer := {| GetResponseResult := λ p,
     if Qc_eq_dec (x3 p) 1%Qc then
       if Qc_eq_dec (z3 p) 1%Qc then Some demo_result else None
     else None |};
  GetEmissionManager := {| GetEmitter := λ e,
     if e =? 7 then Some (Vec3 1%Qc 0%Qc 1%Qc)
     else if e =? 8 then Some (Vec3 (qc 9 1) 0%Qc (qc 9 1))
     else None |};
  GetGrid := g
|}.

(** ** IEEE binary64 arithmetic as an instance of [Real]

    The arithmetic of [Real] when it is [double].  The cast to [int]
    truncates toward zero; on a value that is not finite, where the source
    has no defined result, it is given the value 0. *)

Definition b64_to_int (f : PrimFloat.float) : Z :=
  match FloatOps.Prim2SF f with
  | SpecFloat.S754_finite s m e =>
      let magnitude :=
        if 0 <=? e then Z.shiftl (Zpos m) e else Z.shiftr (Zpos m) (- e) in
      if s then - magnitude else magnitude
  | _ => 0
  end.

Definition b64_of_int (n : Z) : PrimFloat.float :=
  FloatOps.SF2Prim (SpecFloat.binary_normalize FloatOps.prec FloatOps.emax n 0 false).

#[export] Instance binary64_arith : RealArith PrimFloat.float := {|
  r0 := b64_of_int 0;
  r1 := b64_of_int 1;
  radd := PrimFloat.add;
  rsub := PrimFloat.sub;
  rmul := PrimFloat.mul;
  rdiv := PrimFloat.div;
  rneg := PrimFloat.opp;
  of_int := b64_of_int;
  to_int := b64_to_int
|}.

Definition b64 (n d : Z) : PrimFloat.float :=
  PrimFloat.div (b64_of_int n) (b64_of_int d).

#[export] Instance binary64_defs : PvDefinitions PrimFloat.float := {|
  PV_C := b64 34321 100;
  PV_RHO := b64 12041 10000
|}.

(** The example grid of three rows of three nodes, in binary64. *)
Definition b64_node (p : PrimFloat.float) (fx fy : Z) : @Cell PrimFloat.float :=
  MkCell p (b64 1 3) (b64 (-2) 5) fx fy.

Definition b64_grid : @Grid PrimFloat.float := {|
  m_grid :=
    [ b64_node (b64 1 1) 1 1; b64_node (b64 2 1) 1 1; b64_node (b64 3 1) 1 1;
      b64_node (b64 4 1) 1 1; b64_node (b64 5 1) 1 1; b64_node (b64 6 1) 1 1;
      b64_node (b64 7 1) 0 1; b64_node (b64 8 1) 0 1; b64_node (b64 9 1) 0 1 ];
  m_boundaries := replicate 9 (MkBoundary (Vec2 (b64 0 1) (b64 0 1)) (b64 1 2));
  m_pulseResponse := replicate 9 [b64_node (b64 7 2) 1 1; b64_node (b64 7 2) 1 1];
  m_pulse := [b64 1 1; b64 0 1];
  m_gridSize := Vec2 (b64 2 1) (b64 2 1);
  m_gridOffset := Vec2 (b64 1 2) (b64 1 2);
  m_dx := b64 1 2;
  m_dt := b64 1 1000;
  m_z_inv := b64 1 400;
  m_responseLength := 2;
  m_maxThreads := 0;
  m_executionType := pv_CPU
|}.

Definition b64_listener : @vec3 PrimFloat.float := Vec3 (b64 0 1) (b64 0 1) (b64 0 1).

(** ** Zero and finite values

    The tests the properties of a field at rest and of the walls are stated
    with: [is_zero v] is the comparison [v == 0] of the arithmetic, which in
    IEEE arithmetic holds of both zeros, and [is_finite v] says that [v] is a
    number, in IEEE arithmetic neither an infinity nor a NaN. *)
Class RealTests (Real : Type) : Type := {
  is_zero : Real → bool;
  is_finite : Real → bool
}.

#[export] Instance Qc_tests : RealTests Qc := {|
  is_zero := λ q, Qeq_bool (this q) 0;
  is_finite := λ _, true
|}.

#[export] Instance binary64_tests : RealTests PrimFloat.float := {|
  is_zero := λ f, PrimFloat.eqb f (b64_of_int 0);
  is_finite := λ f,
    match FloatOps.Prim2SF f with
    | SpecFloat.S754_zero _ | SpecFloat.S754_finite _ _ _ => true
    | _ => false
    end
|}.

(** ** The run as a history of the cell store

    Definitions for stating how the response cube relates to the cells, built
    from the phases above. *)

Section History.

Context {Real : Type} `{RealArith Real} `{PvDefinitions Real} `{RealTests Real}.

(** The cell store after the first [n] time steps, the response cube left
    aside: each step runs the update phases and then adds the excitation
    sample of its time index. *)
Fixpoint evolve (g : Grid) (listener : vec3) (n : nat) (cells0 : list Cell)
    : access (list Cell) :=
  match n with
  | O => Ok cells0
  | S n' =>
    let* c := evolve g listener n' cells0 in
    let* c' := update_phases g c in
    excite g listener (Z.of_nat n') c'
  end.

(** The cells at the moment step [n] records them. *)
Definition observed (g : Grid) (listener : vec3) (n : nat) (cells0 : list Cell)
    : access (list Cell) :=
  let* c := evolve g listener n cells0 in
  update_phases g c.

(** A cell at rest: its pressure and both velocities compare equal to
    zero. *)
Definition quiet (c : @Cell Real) : Prop :=
  is_zero (pr c) = true ∧ is_zero (vx c) = true ∧ is_zero (vy c) = true.


(** The laws of zero and one that a field and IEEE arithmetic share.  Sums,
    differences and negations of zeros are zeros; the product of a zero and
    a finite value, and the quotient of a zero by a finite value other than
    zero, are zeros; a zero added to a value that is not a zero gives that
    value; one is neutral for products, and products commute.  The last
    lines are facts on the literals 0 and 1. *)
Record arith_laws : Prop := {
  law_zero : is_zero r0 = true;
  law_zero_finite : ∀ v, is_zero v = true → is_finite v = true;
  law_add : ∀ u v, is_zero u = true → is_zero v = true → is_zero (radd u v) = true;
  law_sub : ∀ u v, is_zero u = true → is_zero v = true → is_zero (rsub u v) = true;
  law_neg : ∀ u, is_zero u = true → is_zero (rneg u) = true;
  law_mul_l : ∀ u v, is_zero u = true → is_finite v = true → is_zero (rmul u v) = true;
  law_mul_r : ∀ u v, is_zero u = true → is_finite v = true → is_zero (rmul v u) = true;
  law_div : ∀ u v, is_zero u = true → is_finite v = true → is_zero v = false →
            is_zero (rdiv u v) = true;
  law_add_l : ∀ u v, is_zero u = true → is_zero v = false → radd u v = v;
  law_one_mul : ∀ v, rmul r1 v = v;
  law_mul_comm : ∀ u v, rmul u v = rmul v u;
  law_int_zero : of_int 0 = r0;
  law_one_sub_zero : rsub r1 r0 = r1;
  law_one_add_zero : radd r1 r0 = r1;
  law_one_div_one : rdiv r1 r1 = r1;
  law_one_sub_one : is_zero (rsub r1 r1) = true;
  law_two_finite : is_finite (radd r1 r1) = true;
  law_two_nonzero : is_zero (radd r1 r1) = false
}.



(** The values a zero is multiplied with or divided by in a time step are
    numbers: the blend weights [beta] and [1.f - beta] of both flags of a
    cell and the divisor [1.f + (1.f - beta) * m_dt] of its pressure, which
    is not zero; the product [Y * m_z_inv] of a boundary descriptor; and the
    constants [Cv], [Cprv] and [m_z_inv]. *)
Definition finite_flag (B : Z) : bool :=
  is_finite (of_int B) && is_finite (rsub r1 (of_int B)).

Definition finite_cell (g : @Grid Real) (c : @Cell Real) : bool :=
  let divisor := radd r1 (rmul (rsub r1 (of_int (b c))) (m_dt g)) in
  finite_flag (b c) && finite_flag (by_ c)
  && is_finite divisor && negb (is_zero divisor).

Definition finite_boundary (g : @Grid Real) (bd : @BoundaryInfo Real) : bool :=
  is_finite (rmul (admittance (absorption bd)) (m_z_inv g)).

Definition finite_setup (g : @Grid Real) : bool :=
  is_finite (Cv g) && is_finite (Cprv g) && is_finite (m_z_inv g)
  && forallb (finite_cell g) (m_grid g)
  && forallb (finite_boundary g) (m_boundaries g).

(** A cell at rest whose weights and divisor are finite. *)
Definition calm (g : @Grid Real) (c : @Cell Real) : Prop :=
  quiet c ∧ finite_cell g c = true.

(** The common form of the two edge loops (lines 210-217 and 222-229): the
    component written by [set] is assigned at [idx1 i] from the pressure of
    that node, negated, and at [idx2 i] from the pressure of node [src i],
    both times the inverse impedance [z]. *)
Definition edge_body (set : Cell → Real → Cell) (z : Real) (idx1 idx2 src : Z → Z)
    (i : Z) (cells : list Cell) : access (list Cell) :=
  let* c1 := at_ cells (idx1 i) in
  let* cells1 := store cells (idx1 i) (set c1 (rmul (rneg (pr c1)) z)) in
  let* p2 := at_ cells1 (src i) in
  let* c2 := at_ cells1 (idx2 i) in
  store cells1 (idx2 i) (set c2 (rmul (pr p2) z)).

(** What an edge loop started at [lo] on the cells [s0] has done when it
    reaches index [i]: no pressure has changed, the nodes [idx1 j] and
    [idx2 j] of the earlier iterations hold their new component, computed
    from the pressures of [s0], and every other node holds its cell of
    [s0]. *)
Definition edge_done (set : Cell → Real → Cell) (z : Real) (idx1 idx2 src : Z → Z)
    (lo : Z) (s0 : list Cell) (i : Z) (s : list Cell) : Prop :=
  length s = length s0
  ∧ pr <$> s = pr <$> s0
  ∧ (∀ j, lo ≤ j < i →
       ∃ c0, 0 ≤ idx1 j ∧ s0 !! Z.to_nat (idx1 j) = Some c0
             ∧ s !! Z.to_nat (idx1 j) = Some (set c0 (rmul (rneg (pr c0)) z)))
  ∧ (∀ j, lo ≤ j < i →
       ∃ c0 p, 0 ≤ idx2 j ∧ 0 ≤ src j
               ∧ s0 !! Z.to_nat (idx2 j) = Some c0 ∧ s0 !! Z.to_nat (src j) = Some p
               ∧ s !! Z.to_nat (idx2 j) = Some (set c0 (rmul (pr p) z)))
  ∧ (∀ k : nat,
       (∀ j, lo ≤ j < i → Z.of_nat k ≠ idx1 j ∧ Z.of_nat k ≠ idx2 j) →
       s !! k = s0 !! k).

End History.

(** Variants of the example grid: with a silent excitation, with no time
    step to run, and with a zero offset. *)
Definition silent_grid : @Grid Qc :=
  MkGrid (m_grid demo_grid) (m_boundaries demo_grid) (m_pulseResponse demo_grid)
    [0%Qc; 0%Qc] (m_gridSize demo_grid) (m_gridOffset demo_grid)
    (m_dx demo_grid) (m_dt demo_grid) (m_z_inv demo_grid)
    (m_responseLength demo_grid) (m_maxThreads demo_grid) pv_CPU.

Definition idle_grid : @Grid Qc :=
  MkGrid (m_grid demo_grid) (m_boundaries demo_grid) (m_pulseResponse demo_grid)
    [] (m_gridSize demo_grid) (m_gridOffset demo_grid)
    (m_dx demo_grid) (m_dt demo_grid) (m_z_inv demo_grid)
    0 (m_maxThreads demo_grid) pv_CPU.

Definition centred_grid : @Grid Qc :=
  MkGrid (m_grid demo_grid) (m_boundaries demo_grid) (m_pulseResponse demo_grid)
    (m_pulse demo_grid) (m_gridSize demo_grid) (Vec2 0%Qc 0%Qc)
    (m_dx demo_grid) (m_dt demo_grid) (m_z_inv demo_grid)
    (m_responseLength demo_grid) (m_maxThreads demo_grid) pv_CPU.

(** A listener far outside the grid, and one at the centre node of
    [centred_grid]. *)
Definition far_listener : @vec3 Qc := Vec3 (qc 50 1) 0%Qc (qc 50 1).
Definition centre_listener : @vec3 Qc := Vec3 (qc 1 2) 0%Qc (qc 1 2).

(** The binary64 example grid with a silent excitation, of a zero of each
    sign. *)
Definition b64_silent_grid : @Grid PrimFloat.float :=
  MkGrid (m_grid b64_grid) (m_boundaries b64_grid) (m_pulseResponse b64_grid)
    [r0; rneg r0] (m_gridSize b64_grid) (m_gridOffset b64_grid)
    (m_dx b64_grid) (m_dt b64_grid) (m_z_inv b64_grid)
    (m_responseLength b64_grid) (m_maxThreads b64_grid) pv_CPU.

(** ** A grid with walls

    Three rows of three nodes in either arithmetic.  The nodes 6, 7 and 8
    of the last row are walls along x (x flag 0) whose normal points to the
    node one row above; the nodes 2 and 5 of the last column are walls along
    y (y flag 0) whose normal points to the node before them.  The
    coefficient [absorption] is 1 at the nodes 6 and 2 and 0 at the nodes 8
    and 5.  The pressures of the nodes the normals of 6 and 2 point to are
    negative. *)
Section WallGrid.

Context {Real : Type} `{RealArith Real} `{PvDefinitions Real} `{RealTests Real}.








End WallGrid.

(** * Properties *)

(** ** Array accesses and loops *)

Lemma at_Ok {A : Type} (l : list A) (k : Z) (a : A) :
  at_ l k = Ok a ↔ 0 ≤ k ∧ l !! Z.to_nat k = Some a.
Proof.
  unfold at_. destruct (Z.ltb_spec k 0).
  - split; [discriminate | lia].
  - destruct (l !! Z.to_nat k) as [a'|]; split.
    + intros [= ->]. auto.
    + intros [_ [= ->]]. reflexivity.
    + discriminate.
    + intros [_ [=]].
Qed.

Lemma at_in_range {A : Type} (l : list A) (k : Z) :
  0 ≤ k < Z.of_nat (length l) → ∃ a, at_ l k = Ok a.
Proof.
  intros Hk. destruct (lookup_lt_is_Some_2 l (Z.to_nat k)) as [a Ha]; [lia|].
  exists a. apply at_Ok. split; [lia | exact Ha].
Qed.

Lemma at_Ok_range {A : Type} (l : list A) (k : Z) (a : A) :
  at_ l k = Ok a → 0 ≤ k < Z.of_nat (length l).
Proof.
  intros [Hk Hl]%at_Ok. apply lookup_lt_Some in Hl. lia.
Qed.

Lemma store_Ok {A : Type} (l l' : list A) (k : Z) (v : A) :
  store l k v = Ok l' ↔ 0 ≤ k < Z.of_nat (length l) ∧ l' = <[Z.to_nat k := v]> l.
Proof.
  unfold store.
  destruct (Z.leb_spec 0 k), (Z.ltb_spec k (Z.of_nat (length l))); simpl;
    split; try discriminate; try (intros [? _]; lia).
  - intros [= <-]. auto.
  - intros [_ ->]. reflexivity.
Qed.

Lemma store_in_range {A : Type} (l : list A) (k : Z) (v : A) :
  0 ≤ k < Z.of_nat (length l) → store l k v = Ok (<[Z.to_nat k := v]> l).
Proof. intros Hk. apply store_Ok. auto. Qed.

Lemma bind_Ok {A B : Type} (m : access A) (k : A → access B) (r : B) :
  bind m k = Ok r ↔ ∃ a, m = Ok a ∧ k a = Ok r.
Proof.
  destruct m as [a|u]; simpl; split.
  - eauto.
  - intros (a' & [= ->] & Hk). exact Hk.
  - discriminate.
  - intros (a' & [=] & _).
Qed.

(** Invariant rule for a loop that ends normally. *)
Lemma for_loop_inv {St : Type} (I : Z → St → Prop) (body : Z → St → access St) :
  ∀ (n : nat) (lo : Z) (s s' : St),
    (∀ i t t', lo ≤ i < lo + Z.of_nat n → I i t → body i t = Ok t' → I (i + 1) t') →
    I lo s →
    for_loop n lo body s = Ok s' →
    I (lo + Z.of_nat n) s'.
Proof.
  induction n as [|n IH]; intros lo s s' Hstep Hlo Hrun; simpl in Hrun.
  - injection Hrun as <-. replace (lo + Z.of_nat 0) with lo by lia. exact Hlo.
  - apply bind_Ok in Hrun as (t & Hbody & Hrest).
    replace (lo + Z.of_nat (S n)) with ((lo + 1) + Z.of_nat n) by lia.
    apply (IH (lo + 1) t s'); [| | exact Hrest].
    + intros i u u' Hi. apply Hstep. lia.
    + apply (Hstep lo s t); [lia | exact Hlo | exact Hbody].
Qed.

(** Invariant rule that also yields that the loop ends normally. *)
Lemma for_loop_total {St : Type} (I : Z → St → Prop) (body : Z → St → access St) :
  ∀ (n : nat) (lo : Z) (s : St),
    (∀ i t, lo ≤ i < lo + Z.of_nat n → I i t → ∃ t', body i t = Ok t' ∧ I (i + 1) t') →
    I lo s →
    ∃ s', for_loop n lo body s = Ok s' ∧ I (lo + Z.of_nat n) s'.
Proof.
  induction n as [|n IH]; intros lo s Hstep Hlo; simpl.
  - exists s. replace (lo + Z.of_nat 0) with lo by lia. auto.
  - destruct (Hstep lo s) as (t & Hbody & Ht); [lia | exact Hlo |].
    rewrite Hbody. simpl.
    replace (lo + Z.of_nat (S n)) with ((lo + 1) + Z.of_nat n) by lia.
    apply IH; [| exact Ht].
    intros i u Hi. apply Hstep. lia.
Qed.

(** A state-independent property kept by every iteration is kept by the loop. *)
Lemma for_loop_keeps {St : Type} (P : St → Prop) (body : Z → St → access St) :
  ∀ (n : nat) (lo : Z) (s s' : St),
    (∀ i t t', P t → body i t = Ok t' → P t') →
    P s → for_loop n lo body s = Ok s' → P s'.
Proof.
  intros n lo s s' Hstep Hs Hrun.
  apply (for_loop_inv (λ _, P) body n lo s s'); auto.
  intros i t t' _. apply Hstep.
Qed.

(** Two runs of a loop whose bodies agree on related states stay related. *)
Lemma for_loop_rel {St : Type} (Q : Z → St → St → Prop) (body1 body2 : Z → St → access St) :
  ∀ (n : nat) (lo : Z) (s1 s2 : St),
    (∀ i t1 t2, lo ≤ i < lo + Z.of_nat n → Q i t1 t2 →
       match body1 i t1, body2 i t2 with
       | Ok u1, Ok u2 => Q (i + 1) u1 u2
       | Fault f1, Fault f2 => f1 = f2
       | _, _ => False
       end) →
    Q lo s1 s2 →
    match for_loop n lo body1 s1, for_loop n lo body2 s2 with
    | Ok u1, Ok u2 => Q (lo + Z.of_nat n) u1 u2
    | Fault f1, Fault f2 => f1 = f2
    | _, _ => False
    end.
Proof.
  induction n as [|n IH]; intros lo s1 s2 Hstep Hlo; simpl.
  - replace (lo + Z.of_nat 0) with lo by lia. exact Hlo.
  - pose proof (Hstep lo s1 s2 ltac:(lia) Hlo) as Hb.
    destruct (body1 lo s1) as [u1|f1], (body2 lo s2) as [u2|f2]; simpl;
      try contradiction; [| exact Hb].
    replace (lo + Z.of_nat (S n)) with ((lo + 1) + Z.of_nat n) by lia.
    apply IH; [| exact Hb].
    intros i t1 t2 Hi. apply Hstep. lia.
Qed.

(** ** Loops that update one element per iteration

    [upd i] may read the whole array; [R] relates what an element may become
    to what it was.  When [upd i] gives the same result on arrays that are
    [R]-related and agree at [i], the sequential in-place loop computes, at
    every index it visits, [upd] of the array it started on. *)

Section Pointwise.

Context {A : Type}.
Variable upd : Z → list A → access A.
Variable R : A → A → Prop.
Hypothesis R_refl : ∀ a, R a a.
Hypothesis upd_stable : ∀ i s s0,
  Forall2 R s s0 → s !! Z.to_nat i = s0 !! Z.to_nat i → upd i s = upd i s0.
Hypothesis upd_R : ∀ i s0 a a',
  upd i s0 = Ok a' → s0 !! Z.to_nat i = Some a → R a' a.

Lemma visited_start lo s0 : visited upd R lo lo s0 s0.
Proof.
  split; [| split].
  - apply Forall_Forall2_diag, Forall_forall. intros a _. apply R_refl.
  - intros k Hk. lia.
  - reflexivity.
Qed.

Lemma visited_step lo i s0 s a' :
  lo ≤ i → visited upd R lo i s0 s → upd i s0 = Ok a' → 0 ≤ i < Z.of_nat (length s0) →
  pointwise_body upd i s = Ok (<[Z.to_nat i := a']> s)
  ∧ visited upd R lo (i + 1) s0 (<[Z.to_nat i := a']> s).
Proof.
  intros Hlo (HR & Hdone & Hrest) Hupd Hi.
  pose proof (Forall2_length _ _ _ HR) as Hlen.
  assert (Hsame : s !! Z.to_nat i = s0 !! Z.to_nat i).
  { replace i with (Z.of_nat (Z.to_nat i)) in Hlo |- * at 1 by lia.
    rewrite Nat2Z.id. apply Hrest. lia. }
  split.
  - unfold pointwise_body. rewrite (upd_stable i s s0 HR Hsame), Hupd. simpl.
    apply store_in_range. lia.
  - destruct (lookup_lt_is_Some_2 s0 (Z.to_nat i)) as [a0 Ha0]; [lia|].
    split; [| split].
    + rewrite <- (list_insert_id s0 (Z.to_nat i) a0 Ha0).
      apply Forall2_insert; [exact HR |]. exact (upd_R i s0 a0 a' Hupd Ha0).
    + intros k Hk. destruct (decide (k = Z.to_nat i)) as [-> | Hne].
      * exists a'. rewrite Z2Nat.id by lia. split; [exact Hupd |].
        apply list_lookup_insert_eq. lia.
      * destruct (Hdone k) as (a'' & Hu & Hl); [lia |].
        exists a''. split; [exact Hu |].
        rewrite list_lookup_insert_ne by congruence. exact Hl.
    + intros k Hk. rewrite list_lookup_insert_ne by lia. apply Hrest. lia.
Qed.

(** What the loop has computed when it ends normally. *)
Lemma pointwise_loop (n : nat) (lo : Z) (s0 s' : list A) :
  0 ≤ lo →
  for_loop n lo (pointwise_body upd) s0 = Ok s' →
  length s' = length s0
  ∧ (∀ k : nat, lo ≤ Z.of_nat k < lo + Z.of_nat n →
       ∃ a', upd (Z.of_nat k) s0 = Ok a' ∧ s' !! k = Some a')
  ∧ (∀ k : nat, ¬ (lo ≤ Z.of_nat k < lo + Z.of_nat n) → s' !! k = s0 !! k).
Proof.
  intros Hlo Hrun.
  assert (Hv : visited upd R lo (lo + Z.of_nat n) s0 s').
  { apply (for_loop_inv (λ i s, visited upd R lo i s0 s) (pointwise_body upd) n lo s0 s');
      [| apply visited_start | exact Hrun].
    intros i t t' Hi Hvis Hbody.
    pose proof Hvis as (HR & _ & Hrest).
    pose proof (Forall2_length _ _ _ HR) as Hlen.
    unfold pointwise_body in Hbody.
    apply bind_Ok in Hbody as (a' & Hupd & Hst).
    apply store_Ok in Hst as [Hrange ->].
    assert (Hsame : t !! Z.to_nat i = s0 !! Z.to_nat i).
    { apply Hrest. lia. }
    rewrite (upd_stable i t s0 HR Hsame) in Hupd.
    apply (visited_step lo i s0 t a'); [lia | exact Hvis | exact Hupd | lia]. }
  destruct Hv as (HR & Hdone & Hrest).
  split; [exact (Forall2_length _ _ _ HR) | split; assumption].
Qed.

(** The loop ends normally when [upd] does at every index it visits. *)
Lemma pointwise_loop_total (n : nat) (lo : Z) (s0 : list A) :
  0 ≤ lo →
  (∀ i, lo ≤ i < lo + Z.of_nat n →
     i < Z.of_nat (length s0) ∧ ∃ a', upd i s0 = Ok a') →
  ∃ s', for_loop n lo (pointwise_body upd) s0 = Ok s'.
Proof.
  intros Hlo Hupd.
  destruct (for_loop_total (λ i s, visited upd R lo i s0 s) (pointwise_body upd) n lo s0)
    as (s' & Hrun & _); [| apply visited_start | exists s'; exact Hrun].
  intros i t Hi Hvis. destruct (Hupd i Hi) as [Hlt [a' Ha']].
  exists (<[Z.to_nat i := a']> t).
  apply (visited_step lo i s0 t a'); [lia | exact Hvis | exact Ha' | lia].
Qed.

End Pointwise.

Lemma for_range_pointwise {A : Type} (upd : Z → list A → access A)
    (R : A → A → Prop) (lo hi : Z) (s0 s' : list A) :
  (∀ a, R a a) →
  (∀ i s t, Forall2 R s t → s !! Z.to_nat i = t !! Z.to_nat i → upd i s = upd i t) →
  (∀ i t a a', upd i t = Ok a' → t !! Z.to_nat i = Some a → R a' a) →
  0 ≤ lo →
  for_range lo hi (pointwise_body upd) s0 = Ok s' →
  length s' = length s0
  ∧ (∀ k : nat, lo ≤ Z.of_nat k < hi →
       ∃ a', upd (Z.of_nat k) s0 = Ok a' ∧ s' !! k = Some a')
  ∧ (∀ k : nat, ¬ (lo ≤ Z.of_nat k < hi) → s' !! k = s0 !! k).
Proof.
  intros HR Hst HuR Hlo Hrun.
  destruct (pointwise_loop upd R HR Hst HuR _ lo s0 s' Hlo Hrun) as (Hlen & Hin & Hout).
  split; [exact Hlen | split].
  - intros k Hk. apply Hin. lia.
  - intros k Hk. apply Hout. lia.
Qed.

Lemma for_range_pointwise_total {A : Type} (upd : Z → list A → access A)
    (R : A → A → Prop) (lo hi : Z) (s0 : list A) :
  (∀ a, R a a) →
  (∀ i s t, Forall2 R s t → s !! Z.to_nat i = t !! Z.to_nat i → upd i s = upd i t) →
  (∀ i t a a', upd i t = Ok a' → t !! Z.to_nat i = Some a → R a' a) →
  0 ≤ lo →
  (∀ i, lo ≤ i < hi → i < Z.of_nat (length s0) ∧ ∃ a', upd i s0 = Ok a') →
  ∃ s', for_range lo hi (pointwise_body upd) s0 = Ok s'.
Proof.
  intros HR Hst HuR Hlo Hupd.
  apply (pointwise_loop_total upd R HR Hst HuR); [exact Hlo |].
  intros i Hi. apply Hupd. lia.
Qed.

Lemma for_loop_ext {St : Type} (body1 body2 : Z → St → access St) :
  (∀ i s, body1 i s = body2 i s) →
  ∀ n lo s, for_loop n lo body1 s = for_loop n lo body2 s.
Proof.
  intros Hext. induction n as [|n IH]; intros lo s; simpl; [reflexivity|].
  rewrite Hext. destruct (body2 lo s); simpl; [apply IH | reflexivity].
Qed.

(** Reads of related arrays. *)
Lemma at_same {A : Type} (l l' : list A) (k : Z) :
  l !! Z.to_nat k = l' !! Z.to_nat k → at_ l k = at_ l' k.
Proof. intros Hl. unfold at_. rewrite Hl. reflexivity. Qed.

Lemma at_Forall2 {A : Type} (R : A → A → Prop) (l l' : list A) (k : Z) :
  Forall2 R l l' →
  match at_ l k, at_ l' k with
  | Ok a, Ok a' => R a a'
  | Fault u, Fault u' => u = u'
  | _, _ => False
  end.
Proof.
  intros HR. unfold at_. destruct (k <? 0); [reflexivity|].
  destruct (l !! Z.to_nat k) as [a|] eqn:Ha.
  - destruct (Forall2_lookup_l _ _ _ _ _ HR Ha) as (a' & -> & Haa'). exact Haa'.
  - apply lookup_ge_None in Ha. rewrite (Forall2_length _ _ _ HR) in Ha.
    apply lookup_ge_None in Ha. rewrite Ha. reflexivity.
Qed.

Ltac bind_inv H :=
  repeat match type of H with
  | bind _ _ = Ok _ =>
    let a := fresh "a" in
    let Ha := fresh "Ha" in
    apply bind_Ok in H as (a & Ha & H)
  end.

(** What such loops leave alone. *)
Lemma store_keeps {A X : Type} (f : A → X) (s s' : list A) i c c' :
  at_ s i = Ok c → f c' = f c → store s i c' = Ok s' → f <$> s' = f <$> s.
Proof.
  intros [_ Hat]%at_Ok Hf [_ ->]%store_Ok.
  rewrite list_fmap_insert, Hf. apply list_insert_id.
  rewrite list_lookup_fmap, Hat. reflexivity.
Qed.

Lemma pointwise_body_keeps {A X : Type} (f : A → X)
    (upd : Z → list A → access A) i (s s' : list A) :
  (∀ i s c', upd i s = Ok c' → ∃ c, at_ s i = Ok c ∧ f c' = f c) →
  pointwise_body upd i s = Ok s' → f <$> s' = f <$> s.
Proof.
  intros Hupd Hb. unfold pointwise_body in Hb. bind_inv Hb.
  destruct (Hupd _ _ _ Ha) as (c & Hc & Hf).
  exact (store_keeps f _ _ _ _ _ Hc Hf Hb).
Qed.

Lemma pointwise_loop_keeps {A X : Type} (f : A → X) body
    (upd : Z → list A → access A) lo hi (s s' : list A) :
  (∀ i s, body i s = pointwise_body upd i s) →
  (∀ i s c', upd i s = Ok c' → ∃ c, at_ s i = Ok c ∧ f c' = f c) →
  for_range lo hi body s = Ok s' → f <$> s' = f <$> s.
Proof.
  intros Hbody Hupd Hrun.
  apply (for_loop_keeps (λ t, f <$> t = f <$> s) _ _ _ _ _) in Hrun;
    [exact Hrun | | reflexivity].
  intros i t t' Ht Hb. rewrite <- Ht. rewrite Hbody in Hb.
  exact (pointwise_body_keeps f upd i t t' Hupd Hb).
Qed.

(** ** The loops of the solver, node by node *)


Section Facts.

Context {Real : Type} `{RealArith Real} `{PvDefinitions Real}.
Implicit Types (g : @Grid Real) (cells s : list (@Cell Real)) (c : @Cell Real).

(** The four node-wise loop bodies have the pointwise form. *)
Lemma reset_body_pointwise i s : reset_body i s = pointwise_body reset_cell i s.
Proof.
  unfold reset_body, pointwise_body, reset_cell.
  destruct (at_ s i); reflexivity.
Qed.

Lemma pressure_body_pointwise g i s :
  pressure_body g i s = pointwise_body (pressure_cell g) i s.
Proof.
  unfold pressure_body, pointwise_body, pressure_cell.
  destruct (at_ s i) as [c|]; simpl; [| reflexivity].
  destruct (at_ (m_boundaries g) i); simpl; [| reflexivity].
  destruct (at_ s ((i + gridy g + 1) * b c)); simpl; [| reflexivity].
  destruct (at_ s ((i + 1) * b c)); reflexivity.
Qed.

Lemma velocity_x_body_pointwise g i s :
  velocity_x_body g i s = pointwise_body (velocity_x_cell g) i s.
Proof.
  unfold velocity_x_body, pointwise_body, velocity_x_cell.
  destruct (at_ (m_boundaries g) i) as [bd|]; simpl; [| reflexivity].
  destruct (at_ s (normalInd g i bd)); simpl; [| reflexivity].
  destruct (at_ s i) as [c|]; simpl; [| reflexivity].
  destruct (at_ s ((i - gridy g - 1) * b c)); reflexivity.
Qed.

Lemma velocity_y_body_pointwise g i s :
  velocity_y_body g i s = pointwise_body (velocity_y_cell g) i s.
Proof.
  unfold velocity_y_body, pointwise_body, velocity_y_cell.
  destruct (at_ (m_boundaries g) i) as [bd|]; simpl; [| reflexivity].
  destruct (at_ s (normalInd g i bd)); simpl; [| reflexivity].
  destruct (at_ s i) as [c|]; simpl; [| reflexivity].
  destruct (at_ s ((i - 1) * by_ c)); reflexivity.
Qed.

Lemma record_body_pointwise cells t i (cube : list (list (@Cell Real))) :
  record_body cells t i cube = pointwise_body (record_series cells t) i cube.
Proof.
  unfold record_body, pointwise_body, record_series.
  destruct (at_ cells i); simpl; [| reflexivity].
  destruct (at_ cube i); reflexivity.
Qed.

(** What each node-wise update reads and what it stores. *)
Lemma reset_cell_inv i s c' :
  reset_cell i s = Ok c' →
  ∃ c, at_ s i = Ok c ∧ c' = MkCell r0 r0 r0 (b c) (by_ c).
Proof.
  unfold reset_cell. intros Hu. bind_inv Hu. injection Hu as <-. eauto.
Qed.

Lemma pressure_cell_inv g i s c' :
  pressure_cell g i s = Ok c' →
  ∃ c bd nx ny,
    at_ s i = Ok c ∧ at_ (m_boundaries g) i = Ok bd
    ∧ at_ s ((i + gridy g + 1) * b c) = Ok nx
    ∧ at_ s ((i + 1) * b c) = Ok ny
    ∧ c' = set_pr c (pressure_value g c nx ny).
Proof.
  unfold pressure_cell. intros Hu. bind_inv Hu. injection Hu as <-.
  eauto 10.
Qed.

Lemma velocity_x_cell_inv g i s c' :
  velocity_x_cell g i s = Ok c' →
  ∃ c bd prev nb,
    at_ s i = Ok c ∧ at_ (m_boundaries g) i = Ok bd
    ∧ at_ s (normalInd g i bd) = Ok nb
    ∧ at_ s ((i - gridy g - 1) * b c) = Ok prev
    ∧ c' = set_vx c (velocity_value g (b c) (absorption bd) (vx c) (pr c)
                       (pr prev) (pr nb)).
Proof.
  unfold velocity_x_cell. intros Hu. bind_inv Hu. injection Hu as <-.
  eauto 10.
Qed.

Lemma velocity_y_cell_inv g i s c' :
  velocity_y_cell g i s = Ok c' →
  ∃ c bd prev nb,
    at_ s i = Ok c ∧ at_ (m_boundaries g) i = Ok bd
    ∧ at_ s (normalInd g i bd) = Ok nb
    ∧ at_ s ((i - 1) * by_ c) = Ok prev
    ∧ c' = set_vy c (velocity_value g (by_ c) (absorption bd) (vy c) (pr c)
                       (pr prev) (pr nb)).
Proof.
  unfold velocity_y_cell. intros Hu. bind_inv Hu. injection Hu as <-.
  eauto 10.
Qed.


Ltac related_read HR k :=
  let Hrel := fresh "Hrel" in
  pose proof (at_Forall2 _ _ _ k HR) as Hrel;
  destruct (at_ _ k), (at_ _ k); simpl; try contradiction;
  [| subst; try reflexivity].

Lemma reset_cell_stable i s t :
  Forall2 (λ _ _ : @Cell Real, True) s t → s !! Z.to_nat i = t !! Z.to_nat i →
  reset_cell i s = reset_cell i t.
Proof. intros _ Hi. unfold reset_cell. rewrite (at_same s t i Hi). reflexivity. Qed.

Lemma pressure_cell_stable g i s t :
  Forall2 same_velocity s t → s !! Z.to_nat i = t !! Z.to_nat i →
  pressure_cell g i s = pressure_cell g i t.
Proof.
  intros HR Hi. unfold pressure_cell. rewrite (at_same s t i Hi).
  destruct (at_ t i) as [c|]; simpl; [| reflexivity].
  destruct (at_ (m_boundaries g) i); simpl; [| reflexivity].
  related_read HR ((i + gridy g + 1) * b c).
  related_read HR ((i + 1) * b c).
  unfold pressure_value. destruct Hrel as [-> _], Hrel0 as [_ ->]. reflexivity.
Qed.

Lemma velocity_x_cell_stable g i s t :
  Forall2 same_pressure s t → s !! Z.to_nat i = t !! Z.to_nat i →
  velocity_x_cell g i s = velocity_x_cell g i t.
Proof.
  intros HR Hi. unfold velocity_x_cell.
  destruct (at_ (m_boundaries g) i) as [bd|]; simpl; [| reflexivity].
  related_read HR (normalInd g i bd).
  rewrite (at_same s t i Hi).
  destruct (at_ t i) as [c|]; simpl; [| reflexivity].
  related_read HR ((i - gridy g - 1) * b c).
  unfold same_pressure in *. congruence.
Qed.

Lemma velocity_y_cell_stable g i s t :
  Forall2 same_pressure s t → s !! Z.to_nat i = t !! Z.to_nat i →
  velocity_y_cell g i s = velocity_y_cell g i t.
Proof.
  intros HR Hi. unfold velocity_y_cell.
  destruct (at_ (m_boundaries g) i) as [bd|]; simpl; [| reflexivity].
  related_read HR (normalInd g i bd).
  rewrite (at_same s t i Hi).
  destruct (at_ t i) as [c|]; simpl; [| reflexivity].
  related_read HR ((i - 1) * by_ c).
  unfold same_pressure in *. congruence.
Qed.

Lemma pressure_cell_related g i t c c' :
  pressure_cell g i t = Ok c' → t !! Z.to_nat i = Some c → same_velocity c' c.
Proof.
  intros (c0 & bd & nx & ny & [_ Hc]%at_Ok & _ & _ & _ & ->)%pressure_cell_inv Ht.
  assert (c0 = c) as -> by congruence. split; reflexivity.
Qed.

Lemma velocity_x_cell_related g i t c c' :
  velocity_x_cell g i t = Ok c' → t !! Z.to_nat i = Some c → same_pressure c' c.
Proof.
  intros (c0 & bd & nx & ny & [_ Hc]%at_Ok & _ & _ & _ & ->)%velocity_x_cell_inv Ht.
  assert (c0 = c) as -> by congruence. reflexivity.
Qed.

Lemma velocity_y_cell_related g i t c c' :
  velocity_y_cell g i t = Ok c' → t !! Z.to_nat i = Some c → same_pressure c' c.
Proof.
  intros (c0 & bd & nx & ny & [_ Hc]%at_Ok & _ & _ & _ & ->)%velocity_y_cell_inv Ht.
  assert (c0 = c) as -> by congruence. reflexivity.
Qed.

(** *** What each loop has computed when it ends

    The sequential, in-place loops agree with the node-wise reading: every
    visited node holds its update computed from the array the loop started
    on, every other node is untouched. *)


Lemma reset_phase_result g s0 s' :
  reset_phase g s0 = Ok s' → loop_result reset_cell 0 (loopSize g) s0 s'.
Proof.
  unfold reset_phase, for_range. rewrite (for_loop_ext _ _ reset_body_pointwise).
  apply (for_range_pointwise reset_cell (λ _ _, True)); auto using reset_cell_stable.
  lia.
Qed.

Lemma pressure_phase_result g s0 s' :
  pressure_phase g s0 = Ok s' →
  loop_result (pressure_cell g) 0 (loopSize g) s0 s'.
Proof.
  unfold pressure_phase, for_range.
  rewrite (for_loop_ext _ _ (pressure_body_pointwise g)).
  apply (for_range_pointwise (pressure_cell g) same_velocity);
    eauto using pressure_cell_stable, pressure_cell_related; [| lia].
  intros a. split; reflexivity.
Qed.

Lemma velocity_x_phase_result g s0 s' :
  0 ≤ gridy g →
  velocity_x_phase g s0 = Ok s' →
  loop_result (velocity_x_cell g) (gridy g + 1) (loopSize g) s0 s'.
Proof.
  intros Hgy. unfold velocity_x_phase, for_range.
  rewrite (for_loop_ext _ _ (velocity_x_body_pointwise g)).
  apply (for_range_pointwise (velocity_x_cell g) same_pressure);
    eauto using velocity_x_cell_stable, velocity_x_cell_related; [| lia].
  intros a. reflexivity.
Qed.

Lemma velocity_y_phase_result g s0 s' :
  velocity_y_phase g s0 = Ok s' →
  loop_result (velocity_y_cell g) 1 (loopSize g) s0 s'.
Proof.
  unfold velocity_y_phase, for_range.
  rewrite (for_loop_ext _ _ (velocity_y_body_pointwise g)).
  apply (for_range_pointwise (velocity_y_cell g) same_pressure);
    eauto using velocity_y_cell_stable, velocity_y_cell_related; [| lia].
  intros a. reflexivity.
Qed.

(** *** What the loops leave alone *)

Lemma absorb_tb_body_keeps {X : Type} (f : @Cell Real → X) g i s s' :
  (∀ c v, f (set_vx c v) = f c) →
  absorb_tb_body g i s = Ok s' → f <$> s' = f <$> s.
Proof.
  intros Hf Hb. unfold absorb_tb_body in Hb. bind_inv Hb.
  rewrite (store_keeps f _ _ _ _ _ Ha2 (Hf _ _) Hb).
  exact (store_keeps f _ _ _ _ _ Ha (Hf _ _) Ha0).
Qed.

Lemma absorb_lr_body_keeps {X : Type} (f : @Cell Real → X) g i s s' :
  (∀ c v, f (set_vy c v) = f c) →
  absorb_lr_body g i s = Ok s' → f <$> s' = f <$> s.
Proof.
  intros Hf Hb. unfold absorb_lr_body in Hb. bind_inv Hb.
  rewrite (store_keeps f _ _ _ _ _ Ha2 (Hf _ _) Hb).
  exact (store_keeps f _ _ _ _ _ Ha (Hf _ _) Ha0).
Qed.

Lemma absorb_tb_phase_keeps {X : Type} (f : @Cell Real → X) g s s' :
  (∀ c v, f (set_vx c v) = f c) →
  absorb_tb_phase g s = Ok s' → f <$> s' = f <$> s.
Proof.
  intros Hf Hrun.
  apply (for_loop_keeps (λ t, f <$> t = f <$> s) _ _ _ _ _) in Hrun;
    [exact Hrun | | reflexivity].
  intros i t t' Ht Hb. rewrite <- Ht. exact (absorb_tb_body_keeps f g i t t' Hf Hb).
Qed.

Lemma absorb_lr_phase_keeps {X : Type} (f : @Cell Real → X) g s s' :
  (∀ c v, f (set_vy c v) = f c) →
  absorb_lr_phase g s = Ok s' → f <$> s' = f <$> s.
Proof.
  intros Hf Hrun.
  apply (for_loop_keeps (λ t, f <$> t = f <$> s) _ _ _ _ _) in Hrun;
    [exact Hrun | | reflexivity].
  intros i t t' Ht Hb. rewrite <- Ht. exact (absorb_lr_body_keeps f g i t t' Hf Hb).
Qed.

Lemma reset_phase_keeps_flags g s s' :
  reset_phase g s = Ok s' → flags <$> s' = flags <$> s.
Proof.
  apply (pointwise_loop_keeps flags _ reset_cell); [apply reset_body_pointwise |].
  intros i t c' (c & Hc & ->)%reset_cell_inv. eauto.
Qed.

Lemma pressure_phase_keeps {X : Type} (f : @Cell Real → X) g s s' :
  (∀ c v, f (set_pr c v) = f c) →
  pressure_phase g s = Ok s' → f <$> s' = f <$> s.
Proof.
  intros Hf.
  apply (pointwise_loop_keeps f _ (pressure_cell g)); [apply pressure_body_pointwise |].
  intros i t c' (c & bd & nx & ny & Hc & _ & _ & _ & ->)%pressure_cell_inv. eauto.
Qed.

Lemma velocity_x_phase_keeps {X : Type} (f : @Cell Real → X) g s s' :
  (∀ c v, f (set_vx c v) = f c) →
  velocity_x_phase g s = Ok s' → f <$> s' = f <$> s.
Proof.
  intros Hf.
  apply (pointwise_loop_keeps f _ (velocity_x_cell g)); [apply velocity_x_body_pointwise |].
  intros i t c' (c & bd & nx & ny & Hc & _ & _ & _ & ->)%velocity_x_cell_inv. eauto.
Qed.

Lemma velocity_y_phase_keeps {X : Type} (f : @Cell Real → X) g s s' :
  (∀ c v, f (set_vy c v) = f c) →
  velocity_y_phase g s = Ok s' → f <$> s' = f <$> s.
Proof.
  intros Hf.
  apply (pointwise_loop_keeps f _ (velocity_y_cell g)); [apply velocity_y_body_pointwise |].
  intros i t c' (c & bd & nx & ny & Hc & _ & _ & _ & ->)%velocity_y_cell_inv. eauto.
Qed.

(** The four update phases keep the boundary flags of every node. *)
Lemma update_phases_keeps_flags g s s' :
  update_phases g s = Ok s' → flags <$> s' = flags <$> s.
Proof.
  intros Hu. unfold update_phases in Hu. bind_inv Hu.
  rewrite (absorb_lr_phase_keeps flags g _ _ ltac:(reflexivity) Hu).
  rewrite (absorb_tb_phase_keeps flags g _ _ ltac:(reflexivity) Ha2).
  rewrite (velocity_y_phase_keeps flags g _ _ ltac:(reflexivity) Ha1).
  rewrite (velocity_x_phase_keeps flags g _ _ ltac:(reflexivity) Ha0).
  exact (pressure_phase_keeps flags g _ _ ltac:(reflexivity) Ha).
Qed.


Lemma excite_keeps_flags g listener t s s' :
  excite g listener t s = Ok s' → flags <$> s' = flags <$> s.
Proof.
  intros He. unfold excite in He. bind_inv He.
  exact (store_keeps flags s s' _ a (set_pr a _) Ha eq_refl He).
Qed.

(** *** The loops stay inside the arrays of a well-formed grid *)

Lemma nodes_ok_lookup g (fs : list (Z * Z)) :
  ∀ (i : Z) (bds : list BoundaryInfo),
    nodes_ok g i fs bds = true →
    ∀ (k : nat) (f : Z * Z), fs !! k = Some f →
      ∃ bd, bds !! k = Some bd ∧ node_ok g (i + Z.of_nat k) f bd = true.
Proof.
  induction fs as [|f0 fs IH]; intros i bds Hok k f Hk; [discriminate|].
  destruct bds as [|bd0 bds]; simpl in Hok; [discriminate|].
  apply andb_true_iff in Hok as [Hhd Htl].
  destruct k as [|k]; simpl in Hk.
  - injection Hk as <-. exists bd0. split; [reflexivity|].
    replace (i + Z.of_nat 0) with i by lia. exact Hhd.
  - destruct (IH (i + 1) bds Htl k f Hk) as (bd & Hbd & Hnode).
    exists bd. split; [exact Hbd|].
    replace (i + Z.of_nat (S k)) with (i + 1 + Z.of_nat k) by lia. exact Hnode.
Qed.

Lemma wf_grid_dims g :
  wf_grid g = true →
  1 ≤ gridx g ∧ 1 ≤ gridy g ∧ loopSize g = (gridx g + 1) * (gridy g + 1)
  ∧ Z.of_nat (length (m_grid g)) = loopSize g.
Proof.
  unfold wf_grid. rewrite !andb_true_iff.
  intros ((((Hx & Hy) & HN) & Hlen) & _). lia.
Qed.

Lemma fits_length g s :
  wf_grid g = true → fits g s → Z.of_nat (length s) = loopSize g.
Proof.
  intros (_ & _ & _ & Hlen)%wf_grid_dims Hfit.
  rewrite <- Hlen, <- (length_fmap flags s), Hfit, length_fmap. reflexivity.
Qed.

Lemma fits_node g s i :
  wf_grid g = true → fits g s → 0 ≤ i < loopSize g →
  ∃ c bd, at_ s i = Ok c ∧ at_ (m_boundaries g) i = Ok bd
          ∧ node_ok g i (flags c) bd = true.
Proof.
  intros Hwf Hfit Hi. pose proof (fits_length g s Hwf Hfit) as Hlen.
  destruct (lookup_lt_is_Some_2 s (Z.to_nat i)) as [c Hc]; [lia|].
  unfold wf_grid in Hwf. apply andb_true_iff in Hwf as [_ Hnodes].
  destruct (nodes_ok_lookup g _ _ _ Hnodes (Z.to_nat i) (flags c)) as (bd & Hbd & Hok).
  { rewrite <- Hfit, list_lookup_fmap, Hc. reflexivity. }
  rewrite Z.add_0_l, Z2Nat.id in Hok by lia.
  exists c, bd. split; [| split; [| exact Hok]]; apply at_Ok; (split; [lia | assumption]).
Qed.

Lemma at_in_range_b {A : Type} (l : list A) (N k : Z) :
  Z.of_nat (length l) = N → in_range N k = true → ∃ a, at_ l k = Ok a.
Proof.
  intros Hlen Hk. apply at_in_range. unfold in_range in Hk.
  apply andb_true_iff in Hk as [H1%Z.leb_le H2%Z.ltb_lt]. lia.
Qed.

Ltac read_ok Hlen Hk :=
  let a := fresh "a" in
  let Ha := fresh "Ha" in
  destruct (at_in_range_b _ _ _ Hlen Hk) as [a Ha]; rewrite Ha; simpl.

Lemma reset_cell_total g s i :
  wf_grid g = true → fits g s → 0 ≤ i < loopSize g → ∃ c', reset_cell i s = Ok c'.
Proof.
  intros Hwf Hfit Hi. destruct (fits_node g s i Hwf Hfit Hi) as (c & bd & Hc & _ & _).
  unfold reset_cell. rewrite Hc. simpl. eauto.
Qed.

Lemma pressure_cell_total g s i :
  wf_grid g = true → fits g s → 0 ≤ i < loopSize g →
  ∃ c', pressure_cell g i s = Ok c'.
Proof.
  intros Hwf Hfit Hi. pose proof (fits_length g s Hwf Hfit) as Hlen.
  destruct (fits_node g s i Hwf Hfit Hi) as (c & bd & Hc & Hbd & Hok).
  unfold node_ok in Hok. rewrite !andb_true_iff in Hok. simpl in Hok.
  destruct Hok as (((Hx & Hy) & _) & _).
  unfold pressure_cell. rewrite Hc. simpl. rewrite Hbd. simpl.
  read_ok Hlen Hx. read_ok Hlen Hy. eauto.
Qed.

Lemma velocity_x_cell_total g s i :
  wf_grid g = true → fits g s → gridy g + 1 ≤ i < loopSize g →
  ∃ c', velocity_x_cell g i s = Ok c'.
Proof.
  intros Hwf Hfit Hi. pose proof (fits_length g s Hwf Hfit) as Hlen.
  pose proof (wf_grid_dims g Hwf) as (_ & Hgy & _).
  destruct (fits_node g s i Hwf Hfit ltac:(lia)) as (c & bd & Hc & Hbd & Hok).
  unfold node_ok in Hok. rewrite !andb_true_iff in Hok. simpl in Hok.
  destruct Hok as ((_ & Hvx) & _).
  apply orb_true_iff in Hvx as [Hlt%Z.ltb_lt | [Hn Hp]%andb_true_iff]; [lia|].
  unfold velocity_x_cell. rewrite Hbd. simpl.
  read_ok Hlen Hn. rewrite Hc. simpl. read_ok Hlen Hp. eauto.
Qed.

Lemma velocity_y_cell_total g s i :
  wf_grid g = true → fits g s → 1 ≤ i < loopSize g →
  ∃ c', velocity_y_cell g i s = Ok c'.
Proof.
  intros Hwf Hfit Hi. pose proof (fits_length g s Hwf Hfit) as Hlen.
  destruct (fits_node g s i Hwf Hfit ltac:(lia)) as (c & bd & Hc & Hbd & Hok).
  unfold node_ok in Hok. rewrite !andb_true_iff in Hok. simpl in Hok.
  destruct Hok as (_ & Hvy).
  apply orb_true_iff in Hvy as [Hlt%Z.ltb_lt | [Hn Hp]%andb_true_iff]; [lia|].
  unfold velocity_y_cell. rewrite Hbd. simpl.
  read_ok Hlen Hn. rewrite Hc. simpl. read_ok Hlen Hp. eauto.
Qed.

Lemma reset_phase_total g s :
  wf_grid g = true → fits g s → ∃ s', reset_phase g s = Ok s'.
Proof.
  intros Hwf Hfit. unfold reset_phase, for_range.
  rewrite (for_loop_ext _ _ reset_body_pointwise).
  apply (for_range_pointwise_total reset_cell (λ _ _, True));
    auto using reset_cell_stable; [lia|].
  intros i Hi. split; [rewrite (fits_length g s Hwf Hfit); lia |].
  apply (reset_cell_total g); auto.
Qed.

Lemma pressure_phase_total g s :
  wf_grid g = true → fits g s → ∃ s', pressure_phase g s = Ok s'.
Proof.
  intros Hwf Hfit. unfold pressure_phase, for_range.
  rewrite (for_loop_ext _ _ (pressure_body_pointwise g)).
  apply (for_range_pointwise_total (pressure_cell g) same_velocity);
    eauto using pressure_cell_stable, pressure_cell_related; [split; reflexivity | lia |].
  intros i Hi. split; [rewrite (fits_length g s Hwf Hfit); lia |].
  apply pressure_cell_total; auto.
Qed.

Lemma velocity_x_phase_total g s :
  wf_grid g = true → fits g s → ∃ s', velocity_x_phase g s = Ok s'.
Proof.
  intros Hwf Hfit. pose proof (wf_grid_dims g Hwf) as (_ & Hgy & _).
  unfold velocity_x_phase, for_range.
  rewrite (for_loop_ext _ _ (velocity_x_body_pointwise g)).
  apply (for_range_pointwise_total (velocity_x_cell g) same_pressure);
    eauto using velocity_x_cell_stable, velocity_x_cell_related; [reflexivity | lia |].
  intros i Hi. split; [rewrite (fits_length g s Hwf Hfit); lia |].
  apply velocity_x_cell_total; auto.
Qed.

Lemma velocity_y_phase_total g s :
  wf_grid g = true → fits g s → ∃ s', velocity_y_phase g s = Ok s'.
Proof.
  intros Hwf Hfit. unfold velocity_y_phase, for_range.
  rewrite (for_loop_ext _ _ (velocity_y_body_pointwise g)).
  apply (for_range_pointwise_total (velocity_y_cell g) same_pressure);
    eauto using velocity_y_cell_stable, velocity_y_cell_related; [reflexivity | lia |].
  intros i Hi. split; [rewrite (fits_length g s Hwf Hfit); lia |].
  apply velocity_y_cell_total; auto.
Qed.

Ltac read_in_range :=
  match goal with
  | |- context [at_ ?l ?k] =>
    let a := fresh "a" in
    let Ha := fresh "Ha" in
    destruct (at_in_range l k) as [a Ha];
    [rewrite ?length_insert; nia | rewrite Ha; simpl]
  end.

Ltac store_in_range :=
  match goal with
  | |- context [store ?l ?k ?v] =>
    rewrite (store_in_range l k v) by (rewrite ?length_insert; nia); simpl
  end.

Lemma absorb_tb_body_total g s i :
  wf_grid g = true → fits g s → 0 ≤ i < gridy g →
  ∃ s', absorb_tb_body g i s = Ok s'.
Proof.
  intros Hwf Hfit Hi. pose proof (fits_length g s Hwf Hfit) as Hlen.
  pose proof (wf_grid_dims g Hwf) as (Hgx & Hgy & HN & _).
  unfold absorb_tb_body.
  read_in_range. store_in_range. read_in_range. read_in_range. store_in_range.
  eauto.
Qed.

Lemma absorb_lr_body_total g s i :
  wf_grid g = true → fits g s → 0 ≤ i < gridx g →
  ∃ s', absorb_lr_body g i s = Ok s'.
Proof.
  intros Hwf Hfit Hi. pose proof (fits_length g s Hwf Hfit) as Hlen.
  pose proof (wf_grid_dims g Hwf) as (Hgx & Hgy & HN & _).
  unfold absorb_lr_body.
  read_in_range. store_in_range. read_in_range. read_in_range. store_in_range.
  eauto.
Qed.

Lemma absorb_tb_phase_total g s :
  wf_grid g = true → fits g s → ∃ s', absorb_tb_phase g s = Ok s'.
Proof.
  intros Hwf Hfit. unfold absorb_tb_phase, for_range.
  destruct (for_loop_total (λ _ t, fits g t) (absorb_tb_body g)
              (Z.to_nat (gridy g - 0)) 0 s) as (s' & Hrun & _); [| exact Hfit | eauto].
  intros i t Hi Ht.
  destruct (absorb_tb_body_total g t i Hwf Ht ltac:(lia)) as [t' Ht'].
  exists t'. split; [exact Ht'|]. unfold fits.
  rewrite (absorb_tb_body_keeps flags g i t t' ltac:(reflexivity) Ht'). exact Ht.
Qed.

Lemma absorb_lr_phase_total g s :
  wf_grid g = true → fits g s → ∃ s', absorb_lr_phase g s = Ok s'.
Proof.
  intros Hwf Hfit. unfold absorb_lr_phase, for_range.
  destruct (for_loop_total (λ _ t, fits g t) (absorb_lr_body g)
              (Z.to_nat (gridx g - 0)) 0 s) as (s' & Hrun & _); [| exact Hfit | eauto].
  intros i t Hi Ht.
  destruct (absorb_lr_body_total g t i Hwf Ht ltac:(lia)) as [t' Ht'].
  exists t'. split; [exact Ht'|]. unfold fits.
  rewrite (absorb_lr_body_keeps flags g i t t' ltac:(reflexivity) Ht'). exact Ht.
Qed.

(** The four update phases end normally and keep the flags. *)
Lemma update_phases_total g s :
  wf_grid g = true → fits g s →
  ∃ s', update_phases g s = Ok s' ∧ fits g s'.
Proof.
  intros Hwf Hfit. unfold update_phases.
  destruct (pressure_phase_total g s Hwf Hfit) as [s1 H1].
  assert (F1 : fits g s1).
  { unfold fits. rewrite (pressure_phase_keeps flags g _ _ ltac:(reflexivity) H1). exact Hfit. }
  destruct (velocity_x_phase_total g s1 Hwf F1) as [s2 H2].
  assert (F2 : fits g s2).
  { unfold fits. rewrite (velocity_x_phase_keeps flags g _ _ ltac:(reflexivity) H2). exact F1. }
  destruct (velocity_y_phase_total g s2 Hwf F2) as [s3 H3].
  assert (F3 : fits g s3).
  { unfold fits. rewrite (velocity_y_phase_keeps flags g _ _ ltac:(reflexivity) H3). exact F2. }
  destruct (absorb_tb_phase_total g s3 Hwf F3) as [s4 H4].
  assert (F4 : fits g s4).
  { unfold fits. rewrite (absorb_tb_phase_keeps flags g _ _ ltac:(reflexivity) H4). exact F3. }
  destruct (absorb_lr_phase_total g s4 Hwf F4) as [s5 H5].
  exists s5. rewrite H1. simpl. rewrite H2. simpl. rewrite H3. simpl. rewrite H4. simpl.
  split; [exact H5|].
  unfold fits. rewrite (absorb_lr_phase_keeps flags g _ _ ltac:(reflexivity) H5). exact F4.
Qed.

(** *** Recording and excitation *)

Lemma record_series_inv cells t i (cube : list (list (@Cell Real))) series' :
  record_series cells t i cube = Ok series' →
  ∃ c series, at_ cells i = Ok c ∧ at_ cube i = Ok series
              ∧ 0 ≤ t < Z.of_nat (length series)
              ∧ series' = <[Z.to_nat t := c]> series.
Proof.
  unfold record_series. intros Hr. bind_inv Hr.
  apply store_Ok in Hr as [Ht ->]. eauto 10.
Qed.

Lemma record_series_stable cells t i (cube cube0 : list (list (@Cell Real))) :
  Forall2 (λ _ _, True) cube cube0 → cube !! Z.to_nat i = cube0 !! Z.to_nat i →
  record_series cells t i cube = record_series cells t i cube0.
Proof.
  intros _ Hi. unfold record_series. rewrite (at_same cube cube0 i Hi). reflexivity.
Qed.

Lemma record_phase_result g cells t (cube cube' : list (list (@Cell Real))) :
  record_phase g cells t cube = Ok cube' →
  loop_result (record_series cells t) 0 (loopSize g) cube cube'.
Proof.
  unfold record_phase, for_range.
  rewrite (for_loop_ext _ _ (record_body_pointwise cells t)).
  apply (for_range_pointwise (record_series cells t) (λ _ _, True));
    auto using record_series_stable.
  lia.
Qed.

(** After the recording loop, the sample of every node at time index [t] is
    the cell the node holds. *)
Lemma record_phase_sample g cells t (cube cube' : list (list (@Cell Real))) (k : nat) c :
  record_phase g cells t cube = Ok cube' →
  Z.of_nat k < loopSize g → cells !! k = Some c →
  ∃ series, cube' !! k = Some series ∧ series !! Z.to_nat t = Some c.
Proof.
  intros (_ & Hin & _)%record_phase_result Hk Hc.
  destruct (Hin k ltac:(lia)) as (series' & Hu & Hl).
  apply record_series_inv in Hu as (c0 & series & [_ Hc0]%at_Ok & _ & Ht & ->).
  rewrite Nat2Z.id in Hc0. assert (c0 = c) as -> by congruence.
  exists (<[Z.to_nat t := c]> series). split; [exact Hl|].
  apply list_lookup_insert_eq. lia.
Qed.

(** The recording loop of time index [t] leaves every other index alone. *)
Lemma record_phase_keeps_column g cells t (cube cube' : list (list (@Cell Real))) (j : nat) :
  Z.of_nat j ≠ t →
  record_phase g cells t cube = Ok cube' → column j cube' = column j cube.
Proof.
  intros Hj. unfold column.
  apply (pointwise_loop_keeps (λ series : list Cell, series !! j) _ (record_series cells t));
    [apply record_body_pointwise |].
  intros i u series' (c & series & _ & Hs & Ht & ->)%record_series_inv.
  exists series. split; [exact Hs|].
  apply list_lookup_insert_ne. lia.
Qed.

Lemma record_phase_keeps_shape g cells t (cube cube' : list (list (@Cell Real))) :
  record_phase g cells t cube = Ok cube' → length <$> cube' = length <$> cube.
Proof.
  apply (pointwise_loop_keeps length _ (record_series cells t));
    [apply record_body_pointwise |].
  intros i u series' (c & series & _ & Hs & Ht & ->)%record_series_inv.
  exists series. split; [exact Hs | apply length_insert].
Qed.

Lemma cube_ok_shape g (cube cube' : list (list (@Cell Real))) :
  length <$> cube' = length <$> cube → cube_ok g cube → cube_ok g cube'.
Proof.
  intros Hsh [Hlen Hall]. split.
  - rewrite <- Hlen, <- (length_fmap length cube'), Hsh, length_fmap. reflexivity.
  - apply Forall_lookup. intros k series' Hk.
    assert (Hl : (length <$> cube) !! k = Some (length series')).
    { rewrite <- Hsh, list_lookup_fmap, Hk. reflexivity. }
    rewrite list_lookup_fmap in Hl.
    destruct (cube !! k) as [series|] eqn:Hs; [| discriminate].
    injection Hl as Hl. rewrite <- Hl.
    exact (proj1 (Forall_lookup _ _) Hall k series Hs).
Qed.

Lemma record_phase_total g cells t (cube : list (list (@Cell Real))) :
  Z.of_nat (length cells) = loopSize g → cube_ok g cube →
  0 ≤ t < m_responseLength g →
  ∃ cube', record_phase g cells t cube = Ok cube'.
Proof.
  intros Hcells [Hlen Hall] Ht. unfold record_phase, for_range.
  rewrite (for_loop_ext _ _ (record_body_pointwise cells t)).
  apply (for_range_pointwise_total (record_series cells t) (λ _ _, True));
    auto using record_series_stable; [lia|].
  intros i Hi. split; [lia|]. unfold record_series.
  destruct (at_in_range cells i) as [c Hc]; [lia|]. rewrite Hc. simpl.
  destruct (at_in_range cube i) as [series Hs]; [lia|]. rewrite Hs. simpl.
  apply at_Ok in Hs as [_ Hs].
  pose proof (proj1 (Forall_lookup _ _) Hall _ _ Hs) as Hl. simpl in Hl.
  rewrite store_in_range by lia. eauto.
Qed.

Lemma excite_total g listener t s :
  wf_grid g = true → fits g s → wf_listener g listener = true →
  0 ≤ t < Z.of_nat (length (m_pulse g)) →
  ∃ s', excite g listener t s = Ok s'.
Proof.
  intros Hwf Hfit Hl Ht. pose proof (fits_length g s Hwf Hfit) as Hlen.
  unfold excite. unfold wf_listener in Hl.
  destruct (at_in_range_b _ _ _ Hlen Hl) as [c Hc]. rewrite Hc. simpl.
  destruct (at_in_range (m_pulse g) t Ht) as [p Hp]. rewrite Hp. simpl.
  rewrite store_in_range; [eauto |].
  apply at_Ok_range in Hc. exact Hc.
Qed.

Lemma wf_response_facts g :
  wf_response g = true →
  cube_ok g (m_pulseResponse g)
  ∧ m_responseLength g ≤ Z.of_nat (length (m_pulse g)).
Proof.
  unfold wf_response. rewrite !andb_true_iff.
  intros [[Hlen%Z.eqb_eq Hall] Hp%Z.leb_le]. split; [split|]; [exact Hlen | | exact Hp].
  apply Forall_forall. intros series Hin%list_elem_of_In.
  rewrite forallb_forall in Hall. apply Z.eqb_eq. exact (Hall series Hin).
Qed.

(** *** One time step and the whole run on a well-formed grid *)

Lemma time_step_keeps g listener t st st' :
  time_step g listener t st = Ok st' →
  flags <$> fst st' = flags <$> fst st ∧ length <$> snd st' = length <$> snd st.
Proof.
  intros Hs. unfold time_step in Hs. bind_inv Hs. injection Hs as <-. simpl. split.
  - rewrite (excite_keeps_flags g listener t _ _ Ha1).
    exact (update_phases_keeps_flags g _ _ Ha).
  - exact (record_phase_keeps_shape g _ _ _ _ Ha0).
Qed.

Lemma time_step_total g listener t st :
  wf_grid g = true → wf_listener g listener = true →
  m_responseLength g ≤ Z.of_nat (length (m_pulse g)) →
  0 ≤ t < m_responseLength g → step_ok g st →
  ∃ st', time_step g listener t st = Ok st' ∧ step_ok g st'.
Proof.
  intros Hwf Hl Hp Ht [Hfit Hcube].
  destruct (update_phases_total g (fst st) Hwf Hfit) as (c1 & Hu & F1).
  destruct (record_phase_total g c1 t (snd st) (fits_length g c1 Hwf F1) Hcube Ht)
    as [cube' Hr].
  destruct (excite_total g listener t c1 Hwf F1 Hl ltac:(lia)) as [c2 He].
  exists (c2, cube').
  assert (Hrun : time_step g listener t st = Ok (c2, cube')).
  { unfold time_step. rewrite Hu. simpl. rewrite Hr. simpl. rewrite He. reflexivity. }
  split; [exact Hrun|].
  destruct (time_step_keeps g listener t st _ Hrun) as [Hf Hsh]. simpl in *. split; simpl.
  - unfold fits. rewrite Hf. exact Hfit.
  - exact (cube_ok_shape g _ _ Hsh Hcube).
Qed.

(** The solver ends normally on a well-formed grid. *)
Lemma simulate_total g listener :
  wf_grid g = true → wf_response g = true → wf_listener g listener = true →
  ∃ st', simulate g listener = Ok st' ∧ step_ok g st'.
Proof.
  intros Hwf [Hcube Hp]%wf_response_facts Hl. unfold simulate.
  destruct (reset_phase_total g (m_grid g) Hwf eq_refl) as [s0 Hreset].
  rewrite Hreset. simpl.
  assert (F0 : fits g s0) by exact (reset_phase_keeps_flags g _ _ Hreset).
  unfold for_range.
  destruct (for_loop_total (λ _ st, step_ok g st) (time_step g listener)
              (Z.to_nat (m_responseLength g - 0)) 0 (s0, m_pulseResponse g))
    as (st' & Hrun & Hok); [| split; assumption | eauto].
  intros t st Ht Hs. apply time_step_total; auto. lia.
Qed.

(** *** The reset *)

Lemma reset_phase_zero g s s0 (k : nat) c :
  reset_phase g s = Ok s0 → Z.of_nat k < loopSize g → s0 !! k = Some c →
  pr c = r0 ∧ vx c = r0 ∧ vy c = r0.
Proof.
  intros (_ & Hin & _)%reset_phase_result Hk Hc.
  destruct (Hin k ltac:(lia)) as (c' & (c0 & _ & ->)%reset_cell_inv & Hl).
  assert (c = MkCell r0 r0 r0 (b c0) (by_ c0)) as -> by congruence.
  auto.
Qed.


(** *** The first recorded sample *)

Lemma time_step_inv g listener t cells (cube : list (list (@Cell Real))) cells'' cube' :
  time_step g listener t (cells, cube) = Ok (cells'', cube') →
  ∃ cells', update_phases g cells = Ok cells'
            ∧ record_phase g cells' t cube = Ok cube'
            ∧ excite g listener t cells' = Ok cells''.
Proof.
  intros Hs. unfold time_step in Hs. simpl in Hs. bind_inv Hs.
  injection Hs as <- <-. eauto.
Qed.


(** Steps of a later time index leave the samples of index 0 alone. *)
Lemma later_steps_keep_first g listener (n : nat) (lo : Z) st st' :
  1 ≤ lo → for_loop n lo (time_step g listener) st = Ok st' →
  column 0 (snd st') = column 0 (snd st).
Proof.
  intros Hlo Hrun.
  apply (for_loop_inv (λ _ u, column 0 (snd u) = column 0 (snd st))
           (time_step g listener) n lo st st'); [| reflexivity | exact Hrun].
  intros i [c r] [c'' r'] Hi Hu Hstep. simpl in *.
  apply time_step_inv in Hstep as (c' & _ & Hrec & _).
  rewrite <- Hu. apply (record_phase_keeps_column g c' i); [lia | exact Hrec].
Qed.


(** *** The execution mode *)

(** C3.  With the GPU mode selected, [GenerateResponse] throws the
    configuration error for every listener position, with the grid as it
    was on entry (no part of the simulation has run); it does not return,
    and in particular it is not the outcome of the CPU path. *)
Theorem gpu_mode_is_rejected g listener :
  m_executionType g = pv_GPU →
  GenerateResponse g listener = Throws pv_InvalidConfig g
  ∧ (∀ g', GenerateResponse g listener ≠ Returns g')
  ∧ GenerateResponse g listener ≠ GenerateResponseCPU g listener.
Proof.
  intros Hmode. unfold GenerateResponse. rewrite Hmode. simpl.
  unfold GenerateResponseGPU. split; [reflexivity | split].
  - intros g'. discriminate.
  - unfold GenerateResponseCPU.
    destruct (simulate g listener) as [[cells cube] | u]; discriminate.
Qed.

(** *** The frame of a call *)

Lemma time_loop_keeps g listener (n : nat) (lo : Z) st st' :
  for_loop n lo (time_step g listener) st = Ok st' →
  flags <$> fst st' = flags <$> fst st.
Proof.
  intros Hrun.
  apply (for_loop_keeps (λ u, flags <$> fst u = flags <$> fst st)
           (time_step g listener) n lo st st'); [| reflexivity | exact Hrun].
  intros i u u' Hu Hstep. rewrite <- Hu.
  exact (proj1 (time_step_keeps g listener i u u' Hstep)).
Qed.

(** C4.  A call of [GenerateResponseCPU] that returns began with the reset
    loop, which left the pressure and both velocity components of every node
    of the grid zero, and ran the time loop from those cells; the boundary
    flags of every node and the boundary descriptor array are, after the
    whole call, what they were before it.  On a well-formed grid the call
    does return. *)
Theorem reset_then_frame g listener :
  (∀ g', GenerateResponseCPU g listener = Returns g' →
     ∃ cells0,
       reset_phase g (m_grid g) = Ok cells0
       ∧ (∀ (k : nat) c, Z.of_nat k < loopSize g → cells0 !! k = Some c →
            pr c = r0 ∧ vx c = r0 ∧ vy c = r0)
       ∧ for_range 0 (m_responseLength g) (time_step g listener)
           (cells0, m_pulseResponse g) = Ok (m_grid g', m_pulseResponse g')
       ∧ flags <$> m_grid g' = flags <$> m_grid g
       ∧ m_boundaries g' = m_boundaries g)
  ∧ (wf_grid g = true → wf_response g = true → wf_listener g listener = true →
     ∃ g', GenerateResponseCPU g listener = Returns g').
Proof.
  split.
  - intros g' Hcall. unfold GenerateResponseCPU in Hcall.
    destruct (simulate g listener) as [[cells cube] | u] eqn:Hsim; [| discriminate].
    injection Hcall as <-. unfold simulate in Hsim.
    apply bind_Ok in Hsim as (cells0 & Hreset & Hloop).
    exists cells0. split; [exact Hreset | split; [| split; [exact Hloop | split]]].
    + intros k c Hk Hc. exact (reset_phase_zero g _ _ k c Hreset Hk Hc).
    + pose proof (time_loop_keeps g listener _ _ _ _ Hloop) as Hf. simpl in Hf.
      simpl. rewrite Hf. exact (reset_phase_keeps_flags g _ _ Hreset).
    + reflexivity.
  - intros Hwf Hresp Hl.
    destruct (simulate_total g listener Hwf Hresp Hl) as ([cells cube] & Hsim & _).
    unfold GenerateResponseCPU. rewrite Hsim. eauto.
Qed.

(** *** The velocity phases *)

Section Walls.

Context `{RealTests Real}.




End Walls.

(** The nodes each velocity phase assigns: the x phase those from index
    [gridy + 1] on, the y phase those from index 1 on; all others keep their
    cell. *)
Lemma velocity_phases_visit g s0 :
  0 ≤ gridy g →
  (∀ s', velocity_x_phase g s0 = Ok s' →
     ∀ k : nat, Z.of_nat k < gridy g + 1 → s' !! k = s0 !! k)
  ∧ (∀ s', velocity_y_phase g s0 = Ok s' →
       (s' !! 0%nat = s0 !! 0%nat)
       ∧ ∀ k : nat, 1 ≤ Z.of_nat k < loopSize g →
           ∃ c', velocity_y_cell g (Z.of_nat k) s0 = Ok c' ∧ s' !! k = Some c').
Proof.
  intros Hgy. split.
  - intros s' (_ & _ & Hout)%velocity_x_phase_result k Hk; [| exact Hgy].
    apply Hout. lia.
  - intros s' (_ & Hin & Hout)%velocity_y_phase_result. split.
    + apply Hout. lia.
    + exact Hin.
Qed.

(** *** The flag-multiplied reads *)

(** C10, as amended.  At a node [i] whose x flag is 0 both forward reads of
    the pressure phase and the previous-cell read of the velocity-x phase
    read node 0, and at a node whose y flag is 0 the previous-cell read of
    the velocity-y phase reads node 0.  At a node whose flag is 1 the
    previous-cell reads of the velocity phases read the nodes [i - gridy - 1]
    (for [i >= gridy + 1]) and [i - 1] (for [i >= 1]), which are inside the
    array; and the forward reads of the pressure phase read the nodes
    [i + gridy + 1] and [i + 1], which are inside the array whenever
    [i + gridy + 1] is. *)
Theorem flagged_reads g s (i : Z) c bd :
  0 ≤ gridy g →
  at_ s i = Ok c → at_ (m_boundaries g) i = Ok bd →
  (b c = 0 → ∃ c0, at_ s 0 = Ok c0
     ∧ pressure_cell g i s = Ok (set_pr c (pressure_value g c c0 c0))
     ∧ ∀ nb, at_ s (normalInd g i bd) = Ok nb →
         velocity_x_cell g i s =
           Ok (set_vx c (velocity_value g 0 (absorption bd) (vx c) (pr c) (pr c0) (pr nb))))
  ∧ (by_ c = 0 → ∃ c0, at_ s 0 = Ok c0
       ∧ ∀ nb, at_ s (normalInd g i bd) = Ok nb →
           velocity_y_cell g i s =
             Ok (set_vy c (velocity_value g 0 (absorption bd) (vy c) (pr c) (pr c0) (pr nb))))
  ∧ (b c = 1 → gridy g + 1 ≤ i → ∃ prev, at_ s (i - gridy g - 1) = Ok prev
       ∧ ∀ nb, at_ s (normalInd g i bd) = Ok nb →
           velocity_x_cell g i s =
             Ok (set_vx c (velocity_value g 1 (absorption bd) (vx c) (pr c) (pr prev) (pr nb))))
  ∧ (by_ c = 1 → 1 ≤ i → ∃ prev, at_ s (i - 1) = Ok prev
       ∧ ∀ nb, at_ s (normalInd g i bd) = Ok nb →
           velocity_y_cell g i s =
             Ok (set_vy c (velocity_value g 1 (absorption bd) (vy c) (pr c) (pr prev) (pr nb))))
  ∧ (b c = 1 → i + gridy g + 1 < Z.of_nat (length s) →
       ∃ nx ny, at_ s (i + gridy g + 1) = Ok nx ∧ at_ s (i + 1) = Ok ny
         ∧ pressure_cell g i s = Ok (set_pr c (pressure_value g c nx ny))).
Proof.
  intros Hgy Hc Hbd. pose proof (at_Ok_range _ _ _ Hc) as Hi.
  split; [| split; [| split; [| split]]].
  - intros Hb. destruct (at_in_range s 0 ltac:(lia)) as [c0 Hc0].
    exists c0. split; [exact Hc0 | split].
    + unfold pressure_cell. rewrite Hc. simpl. rewrite Hbd. simpl.
      rewrite Hb, !Z.mul_0_r, Hc0. reflexivity.
    + intros nb Hnb. unfold velocity_x_cell. rewrite Hbd. simpl. rewrite Hnb. simpl.
      rewrite Hc. simpl. rewrite Hb, Z.mul_0_r, Hc0. reflexivity.
  - intros Hb. destruct (at_in_range s 0 ltac:(lia)) as [c0 Hc0].
    exists c0. split; [exact Hc0 |].
    intros nb Hnb. unfold velocity_y_cell. rewrite Hbd. simpl. rewrite Hnb. simpl.
    rewrite Hc. simpl. rewrite Hb, Z.mul_0_r, Hc0. reflexivity.
  - intros Hb Hlo.
    assert (Hr : 0 ≤ i - gridy g - 1 < Z.of_nat (length s)) by lia.
    destruct (at_in_range s _ Hr) as [prev Hprev].
    exists prev. split; [exact Hprev |].
    intros nb Hnb. unfold velocity_x_cell. rewrite Hbd. simpl. rewrite Hnb. simpl.
    rewrite Hc. simpl. rewrite Hb, Z.mul_1_r, Hprev. reflexivity.
  - intros Hb Hlo.
    assert (Hr : 0 ≤ i - 1 < Z.of_nat (length s)) by lia.
    destruct (at_in_range s _ Hr) as [prev Hprev].
    exists prev. split; [exact Hprev |].
    intros nb Hnb. unfold velocity_y_cell. rewrite Hbd. simpl. rewrite Hnb. simpl.
    rewrite Hc. simpl. rewrite Hb, Z.mul_1_r, Hprev. reflexivity.
  - intros Hb Hhi.
    assert (Hx : 0 ≤ i + gridy g + 1 < Z.of_nat (length s)) by lia.
    assert (Hy : 0 ≤ i + 1 < Z.of_nat (length s)) by lia.
    destruct (at_in_range s _ Hx) as [nx Hnx].
    destruct (at_in_range s _ Hy) as [ny Hny].
    exists nx, ny. split; [exact Hnx | split; [exact Hny |]].
    unfold pressure_cell. rewrite Hc. simpl. rewrite Hbd. simpl.
    rewrite Hb, !Z.mul_1_r, Hnx. simpl. rewrite Hny. reflexivity.
Qed.

(** *** Determinism *)

Lemma reset_phase_exact g s :
  Z.of_nat (length s) = loopSize g →
  reset_phase g s = Ok ((λ c, MkCell r0 r0 r0 (b c) (by_ c)) <$> s).
Proof.
  intros Hlen.
  assert (∃ s', reset_phase g s = Ok s') as [s' Hs'].
  { unfold reset_phase, for_range. rewrite (for_loop_ext _ _ reset_body_pointwise).
    apply (for_range_pointwise_total reset_cell (λ _ _, True));
      auto using reset_cell_stable; [lia|].
    intros i Hi. split; [lia|]. unfold reset_cell.
    assert (Hr : 0 ≤ i < Z.of_nat (length s)) by lia.
    destruct (at_in_range s i Hr) as [c Hc]. rewrite Hc. simpl. eauto. }
  rewrite Hs'. f_equal. apply list_eq. intros k.
  destruct (reset_phase_result g s s' Hs') as (Hl & Hin & Hout).
  rewrite list_lookup_fmap.
  destruct (decide (Z.of_nat k < loopSize g)) as [Hk | Hk].
  - destruct (Hin k ltac:(lia)) as (c' & (c & [_ Hc]%at_Ok & ->)%reset_cell_inv & ->).
    rewrite Nat2Z.id in Hc. rewrite Hc. reflexivity.
  - rewrite Hout by lia. rewrite (lookup_ge_None_2 s k) by lia. reflexivity.
Qed.

Lemma zeroed_same_flags s1 s2 :
  flags <$> s1 = flags <$> s2 →
  (λ c, MkCell r0 r0 r0 (b c) (by_ c)) <$> s1
  = (λ c, MkCell r0 r0 r0 (b c) (by_ c)) <$> s2.
Proof.
  intros Hf.
  transitivity ((λ f : Z * Z, @MkCell Real r0 r0 r0 (fst f) (snd f)) <$> (flags <$> s1)).
  - rewrite <- list_fmap_compose. reflexivity.
  - rewrite Hf, <- list_fmap_compose. reflexivity.
Qed.

Lemma cube_ok_same_length g (r1 r2 : list (list (@Cell Real))) :
  cube_ok g r1 → cube_ok g r2 → Forall2 same_length r1 r2.
Proof.
  intros [L1 A1] [L2 A2]. apply Forall2_same_length_lookup_2; [lia|].
  intros k x y Hx Hy. unfold same_length.
  pose proof (proj1 (Forall_lookup _ _) A1 k x Hx) as H1. simpl in H1.
  pose proof (proj1 (Forall_lookup _ _) A2 k y Hy) as H2. simpl in H2. lia.
Qed.

Lemma store_rel {A B : Type} (x : list A) (y : list B) t a b' :
  length x = length y →
  match store x t a, store y t b' with
  | Ok x', Ok y' => length x' = length y'
  | Fault u, Fault u' => u = u'
  | _, _ => False
  end.
Proof.
  intros Hlen. unfold store. rewrite Hlen.
  destruct ((0 <=? t) && (t <? Z.of_nat (length y))); [| reflexivity].
  rewrite !length_insert. exact Hlen.
Qed.

Lemma store_Forall2 {A : Type} (R : A → A → Prop) (a b' : list A) i x y :
  Forall2 R a b' → R x y →
  match store a i x, store b' i y with
  | Ok a', Ok b'' => Forall2 R a' b''
  | Fault u, Fault u' => u = u'
  | _, _ => False
  end.
Proof.
  intros HR Hxy. unfold store. rewrite (Forall2_length _ _ _ HR).
  destruct ((0 <=? i) && (i <? Z.of_nat (length b'))); [| reflexivity].
  apply Forall2_insert; assumption.
Qed.

Lemma record_body_rel cells t i (r1 r2 : list (list (@Cell Real))) :
  Forall2 same_length r1 r2 →
  match record_body cells t i r1, record_body cells t i r2 with
  | Ok a, Ok a' => Forall2 same_length a a'
  | Fault u, Fault u' => u = u'
  | _, _ => False
  end.
Proof.
  intros HR. unfold record_body.
  destruct (at_ cells i) as [c|u]; simpl; [| reflexivity].
  pose proof (at_Forall2 same_length r1 r2 i HR) as Hrow.
  destruct (at_ r1 i) as [x|u1], (at_ r2 i) as [y|u2]; simpl;
    try contradiction; [| exact Hrow].
  pose proof (store_rel x y t c c Hrow) as Hst.
  destruct (store x t c) as [x'|u1], (store y t c) as [y'|u2]; simpl;
    try contradiction; [| exact Hst].
  apply store_Forall2; assumption.
Qed.

(** Recording the same cells into two cubes of the right shape ends the
    same way, and then both cubes hold the same samples at that index. *)
Lemma record_phase_rel g cells t (r1 r2 : list (list (@Cell Real))) :
  cube_ok g r1 → cube_ok g r2 →
  match record_phase g cells t r1, record_phase g cells t r2 with
  | Ok a, Ok a' => column (Z.to_nat t) a = column (Z.to_nat t) a'
  | Fault u, Fault u' => u = u'
  | _, _ => False
  end.
Proof.
  intros Hok1 Hok2.
  pose proof (for_loop_rel (λ _ a a', Forall2 same_length a a')
                (record_body cells t) (record_body cells t)
                (Z.to_nat (loopSize g - 0)) 0 r1 r2
                (λ i a a' _ HR, record_body_rel cells t i a a' HR)
                (cube_ok_same_length g r1 r2 Hok1 Hok2)) as Hrel.
  fold (for_range 0 (loopSize g) (record_body cells t) r1) in Hrel.
  fold (for_range 0 (loopSize g) (record_body cells t) r2) in Hrel.
  fold (record_phase g cells t r1) in Hrel. fold (record_phase g cells t r2) in Hrel.
  destruct (record_phase g cells t r1) as [a|u1] eqn:E1,
           (record_phase g cells t r2) as [a'|u2] eqn:E2; try contradiction; [| exact Hrel].
  destruct (record_phase_result g cells t r1 a E1) as (L1 & In1 & _).
  destruct (record_phase_result g cells t r2 a' E2) as (L2 & In2 & _).
  destruct Hok1 as [N1 _], Hok2 as [N2 _].
  unfold column. apply list_eq. intros k. rewrite !list_lookup_fmap.
  destruct (decide (Z.of_nat k < loopSize g)) as [Hk | Hk].
  - destruct (In1 k ltac:(lia)) as (x' & Hx & ->).
    destruct (In2 k ltac:(lia)) as (y' & Hy & ->).
    apply record_series_inv in Hx as (c & x & Hc & _ & Hxt & ->).
    apply record_series_inv in Hy as (c' & y & Hc' & _ & Hyt & ->).
    assert (c' = c) as -> by congruence. simpl.
    rewrite !list_lookup_insert_eq by lia. reflexivity.
  - rewrite (lookup_ge_None_2 a k), (lookup_ge_None_2 a' k) by lia. reflexivity.
Qed.

Lemma time_step_rel g listener t st1 st2 :
  0 ≤ t → runs_agree g t st1 st2 →
  match time_step g listener t st1, time_step g listener t st2 with
  | Ok u1, Ok u2 => runs_agree g (t + 1) u1 u2
  | Fault f1, Fault f2 => f1 = f2
  | _, _ => False
  end.
Proof.
  intros Ht (Hcells & Hok1 & Hok2 & Hcols). unfold time_step. rewrite Hcells.
  destruct (update_phases g (fst st2)) as [c'|u]; simpl; [| reflexivity].
  pose proof (record_phase_rel g c' t (snd st1) (snd st2) Hok1 Hok2) as Hrec.
  destruct (record_phase g c' t (snd st1)) as [a|u1] eqn:E1,
           (record_phase g c' t (snd st2)) as [a'|u2] eqn:E2; simpl;
    try contradiction; [| exact Hrec].
  destruct (excite g listener t c') as [c''|u]; simpl; [| reflexivity].
  split; [reflexivity | split; [| split]]; simpl.
  - exact (cube_ok_shape g _ _ (record_phase_keeps_shape g _ _ _ _ E1) Hok1).
  - exact (cube_ok_shape g _ _ (record_phase_keeps_shape g _ _ _ _ E2) Hok2).
  - intros j Hj. destruct (decide (Z.of_nat j = t)) as [Hjt | Hjt].
    + rewrite <- Hjt, Nat2Z.id in Hrec. exact Hrec.
    + rewrite (record_phase_keeps_column g c' t _ _ j Hjt E1).
      rewrite (record_phase_keeps_column g c' t _ _ j Hjt E2).
      apply Hcols. lia.
Qed.

(** Cubes of the right shape that agree on every time index are equal. *)
Lemma cubes_agree_eq g (T : Z) (r1 r2 : list (list (@Cell Real))) :
  cube_ok g r1 → cube_ok g r2 → m_responseLength g ≤ T →
  (∀ j : nat, Z.of_nat j < T → column j r1 = column j r2) →
  r1 = r2.
Proof.
  intros [N1 A1] [N2 A2] HT Hcols. apply list_eq. intros k.
  destruct (r1 !! k) as [x|] eqn:Hx.
  - destruct (lookup_lt_is_Some_2 r2 k) as [y Hy].
    { apply lookup_lt_Some in Hx. lia. }
    rewrite Hy. f_equal.
    pose proof (proj1 (Forall_lookup _ _) A1 k x Hx) as Lx. simpl in Lx.
    pose proof (proj1 (Forall_lookup _ _) A2 k y Hy) as Ly. simpl in Ly.
    apply list_eq. intros j.
    destruct (decide (Z.of_nat j < m_responseLength g)) as [Hj | Hj].
    + assert (Hc : column j r1 !! k = column j r2 !! k) by (rewrite Hcols by lia; reflexivity).
      unfold column in Hc. rewrite !list_lookup_fmap, Hx, Hy in Hc. simpl in Hc.
      congruence.
    + rewrite (lookup_ge_None_2 x j), (lookup_ge_None_2 y j) by lia. reflexivity.
  - apply lookup_ge_None in Hx. rewrite (lookup_ge_None_2 r2 k) by lia. reflexivity.
Qed.

Lemma same_static_with g1 g2 :
  same_static g1 g2 →
  g2 = with_response (with_cells g1 (m_grid g2)) (m_pulseResponse g2).
Proof.
  destruct g1, g2. unfold same_static. simpl.
  intros (_ & -> & -> & -> & -> & -> & -> & -> & -> & -> & ->). reflexivity.
Qed.

(** Two runs on grids with the same static parts end the same way, and when
    they end normally they leave the same cells and the same cube. *)
Lemma simulate_rel g1 g2 listener :
  same_static g1 g2 →
  Z.of_nat (length (m_grid g1)) = loopSize g1 →
  cube_ok g1 (m_pulseResponse g1) → cube_ok g2 (m_pulseResponse g2) →
  match simulate g1 listener, simulate g2 listener with
  | Ok st1, Ok st2 => st1 = st2
  | Fault u1, Fault u2 => u1 = u2
  | _, _ => False
  end.
Proof.
  intros Hst Hlen Hok1 Hok2.
  pose proof Hst as (Hflags & _).
  rewrite (same_static_with g1 g2 Hst) in Hok2 |- *.
  set (c2 := m_grid g2) in *. set (r2 := m_pulseResponse g2) in *.
  change (simulate (with_response (with_cells g1 c2) r2) listener)
    with (let* cells0 := reset_phase g1 c2 in
          for_range 0 (m_responseLength g1) (time_step g1 listener) (cells0, r2)).
  change (cube_ok g1 r2) in Hok2.
  unfold simulate.
  assert (Hlen2 : Z.of_nat (length c2) = loopSize g1).
  { rewrite <- Hlen, <- (length_fmap flags c2), <- Hflags, length_fmap. reflexivity. }
  rewrite (reset_phase_exact g1 _ Hlen), (reset_phase_exact g1 c2 Hlen2).
  rewrite (zeroed_same_flags _ _ Hflags). simpl.
  set (cells0 := (λ c, MkCell r0 r0 r0 (b c) (by_ c)) <$> c2).
  assert (Hinit : runs_agree g1 0 (cells0, m_pulseResponse g1) (cells0, r2)).
  { split; [reflexivity | split; [exact Hok1 | split; [exact Hok2 |]]].
    intros j Hj. lia. }
  pose proof (for_loop_rel (runs_agree g1) (time_step g1 listener) (time_step g1 listener)
                (Z.to_nat (m_responseLength g1 - 0)) 0
                (cells0, m_pulseResponse g1) (cells0, r2)
                (λ t st1 st2 Ht Hag, time_step_rel g1 listener t st1 st2 (proj1 Ht) Hag)
                Hinit)
    as Hrel.
  unfold for_range.
  destruct (for_loop _ 0 (time_step g1 listener) (cells0, m_pulseResponse g1))
    as [[c1' r1']|u1],
    (for_loop _ 0 (time_step g1 listener) (cells0, r2)) as [[c2' r2']|u2];
    try contradiction; [| exact Hrel].
  destruct Hrel as (Hc & Ha & Hb & Hcols).
  simpl in *. subst c2'. f_equal.
  apply (cubes_agree_eq g1 (0 + Z.of_nat (Z.to_nat (m_responseLength g1 - 0))));
    [assumption | assumption | lia | exact Hcols].
Qed.

Lemma generation_rel g1 g2 listener :
  same_static g1 g2 →
  Z.of_nat (length (m_grid g1)) = loopSize g1 →
  cube_ok g1 (m_pulseResponse g1) → cube_ok g2 (m_pulseResponse g2) →
  match GenerateResponse g1 listener, GenerateResponse g2 listener with
  | Returns a, Returns a' =>
      m_pulseResponse a = m_pulseResponse a' ∧ m_grid a = m_grid a'
  | Throws e _, Throws e' _ => e = e'
  | Undefined u, Undefined u' => u = u'
  | _, _ => False
  end.
Proof.
  intros Hst Hlen Hok1 Hok2.
  pose proof (simulate_rel g1 g2 listener Hst Hlen Hok1 Hok2) as Hrel.
  pose proof Hst as (_ & _ & _ & _ & _ & _ & _ & _ & _ & _ & Hmode).
  unfold GenerateResponse. rewrite <- Hmode.
  destruct (is_CPU (m_executionType g1)); [| reflexivity].
  unfold GenerateResponseCPU.
  destruct (simulate g1 listener) as [[c1 r1]|u1],
           (simulate g2 listener) as [[c2 r2]|u2]; try contradiction; [| exact Hrel].
  injection Hrel as -> ->. split; reflexivity.
Qed.

(** A call that returns leaves a grid with the same static parts and a cube
    of the same shape. *)
Lemma GenerateResponse_static g listener a :
  GenerateResponse g listener = Returns a →
  cube_ok g (m_pulseResponse g) →
  same_static g a ∧ cube_ok a (m_pulseResponse a).
Proof.
  unfold GenerateResponse, GenerateResponseGPU, GenerateResponseCPU.
  destruct (is_CPU (m_executionType g)); [| discriminate].
  destruct (simulate g listener) as [[cells cube]|u] eqn:Hsim; [| discriminate].
  intros [= <-] Hok. unfold simulate in Hsim.
  apply bind_Ok in Hsim as (cells0 & Hreset & Hloop). unfold for_range in Hloop.
  pose proof (time_loop_keeps g listener _ _ _ _ Hloop) as Hf. simpl in Hf.
  pose proof (reset_phase_keeps_flags g _ _ Hreset) as Hf0.
  assert (Hsh : length <$> cube = length <$> m_pulseResponse g).
  { apply (for_loop_keeps (λ u, length <$> snd u = length <$> m_pulseResponse g)
             (time_step g listener) _ _ _ _) in Hloop; [exact Hloop | | reflexivity].
    intros i u u' Hu Hstep. rewrite <- Hu.
    exact (proj2 (time_step_keeps g listener i u u' Hstep)). }
  split.
  - unfold same_static. simpl. rewrite Hf, Hf0. repeat split; reflexivity.
  - exact (cube_ok_shape g _ _ Hsh Hok).
Qed.

(** C9.  Two calls of [GenerateResponse] for the same listener position, on
    grids that have the same configuration, boundary flags, boundary
    descriptors and excitation (whatever their pressure and velocity fields
    and the contents of their response cubes, the arrays being allocated for
    exactly the nodes and the response length), end the same way; when they
    return, the response cubes, and the cell stores, are equal.  In
    particular a call repeated on the grid a first call has left returns
    with the same response cube. *)
Theorem generation_deterministic g1 g2 listener :
  same_static g1 g2 →
  Z.of_nat (length (m_grid g1)) = loopSize g1 →
  cube_ok g1 (m_pulseResponse g1) → cube_ok g2 (m_pulseResponse g2) →
  match GenerateResponse g1 listener, GenerateResponse g2 listener with
  | Returns a, Returns a' =>
      m_pulseResponse a = m_pulseResponse a' ∧ m_grid a = m_grid a'
  | Throws e _, Throws e' _ => e = e'
  | Undefined u, Undefined u' => u = u'
  | _, _ => False
  end
  ∧ (∀ a, GenerateResponse g1 listener = Returns a →
       ∃ a', GenerateResponse a listener = Returns a'
             ∧ m_pulseResponse a' = m_pulseResponse a).
Proof.
  intros Hst Hlen Hok1 Hok2.
  split; [exact (generation_rel g1 g2 listener Hst Hlen Hok1 Hok2) |].
  intros a Hcall.
  destruct (GenerateResponse_static g1 listener a Hcall Hok1) as [Hsa Hoka].
  pose proof (generation_rel g1 a listener Hsa Hlen Hok1 Hoka) as Hrel.
  rewrite Hcall in Hrel.
  destruct (GenerateResponse a listener) as [a'| |]; try contradiction.
  exists a'. split; [reflexivity | symmetry; exact (proj1 Hrel)].
Qed.

End Facts.

(** ** The client interface *)

Section Client.

Context {Real : Type} `{RealArith Real} `{ClientFloat Real}.

(** C6.  [GetOutput] returns a record whose occlusion is the reserved
    invalid gain in each of the three failure cases: there is no context,
    the emission manager does not know the emitter, the analyzer has no
    result for the position of the emitter.  In every other case the record
    holds the values of the analyzer's result for that position (the four
    scalars cast to [float]). *)
Theorem GetOutput_sentinel (context : option Context) (emitter : EmissionID) :
  (context = None →
     occlusion (GetOutput context emitter) = PV_INVALID_DRY_GAIN)
  ∧ (∀ ctx, context = Some ctx →
       GetEmitter (GetEmissionManager ctx) emitter = None →
       occlusion (GetOutput context emitter) = PV_INVALID_DRY_GAIN)
  ∧ (∀ ctx emitterPos, context = Some ctx →
       GetEmitter (GetEmissionManager ctx) emitter = Some emitterPos →
       GetResponseResult (GetAnalyzer ctx) emitterPos = None →
       occlusion (GetOutput context emitter) = PV_INVALID_DRY_GAIN)
  ∧ (∀ ctx emitterPos result, context = Some ctx →
       GetEmitter (GetEmissionManager ctx) emitter = Some emitterPos →
       GetResponseResult (GetAnalyzer ctx) emitterPos = Some result →
       GetOutput context emitter =
         MkOutput (to_float (a_occlusion result)) (to_float (a_wetGain result))
           (to_float (a_lowpassIntensity result)) (to_float (a_rt60 result))
           (a_direction result) (a_sourceDirectivity result)).
Proof.
  repeat split.
  - intros ->. reflexivity.
  - intros ctx -> He. simpl. rewrite He. reflexivity.
  - intros ctx emitterPos -> He Hr. simpl. rewrite He, Hr. reflexivity.
  - intros ctx emitterPos result -> He Hr. simpl. rewrite He, Hr. reflexivity.
Qed.

End Client.

(** ** The theorems on the example grids *)




Lemma Qc_mul_zero_l (v : Qc) : rmul r0 v = r0.
Proof. exact (Qcmult_0_l v). Qed.

Lemma Qc_div_zero (d : Qc) : rdiv r0 d = r0.
Proof. exact (Qcmult_0_l (/ d)%Qc). Qed.


(** The GPU variant of the example grid is rejected. *)
Lemma gpu_mode_is_rejected_witness :
  m_executionType demo_grid_gpu = pv_GPU
  ∧ GenerateResponse demo_grid_gpu demo_listener = Throws pv_InvalidConfig demo_grid_gpu.
Proof.
  split; [reflexivity |].
  exact (proj1 (gpu_mode_is_rejected demo_grid_gpu demo_listener eq_refl)).
Defined.

(** The call on the example grid returns, and keeps flags and descriptors. *)
Lemma reset_then_frame_witness :
  ∃ g', GenerateResponseCPU demo_grid demo_listener = Returns g'
        ∧ flags <$> m_grid g' = flags <$> m_grid demo_grid
        ∧ m_boundaries g' = m_boundaries demo_grid.
Proof.
  destruct (proj2 (reset_then_frame demo_grid demo_listener)) as [g' Hg'];
    [vm_compute; reflexivity | vm_compute; reflexivity | vm_compute; reflexivity |].
  exists g'. split; [exact Hg' |].
  destruct (proj1 (reset_then_frame demo_grid demo_listener) g' Hg')
    as (cells0 & _ & _ & _ & Hflags & Hbd).
  split; assumption.
Defined.

(** Emitter 8 is known, at a position the analyzer has no result for. *)
Lemma GetOutput_sentinel_witness :
  occlusion (GetOutput (Some (demo_context demo_grid)) 8) = PV_INVALID_DRY_GAIN
  ∧ occlusion (GetOutput (Some (demo_context demo_grid)) 7) = to_float (qc 1 2).
Proof.
  pose proof (GetOutput_sentinel (Some (demo_context demo_grid)) 8)
    as (_ & _ & Hpos & _).
  pose proof (GetOutput_sentinel (Some (demo_context demo_grid)) 7)
    as (_ & _ & _ & Hgood).
  split.
  - apply (Hpos (demo_context demo_grid) (Vec3 (qc 9 1) 0%Qc (qc 9 1)) eq_refl).
    + reflexivity.
    + vm_compute. reflexivity.
  - rewrite (Hgood (demo_context demo_grid) (Vec3 1%Qc 0%Qc 1%Qc) demo_result eq_refl).
    + reflexivity.
    + reflexivity.
    + vm_compute. reflexivity.
Defined.

(** *** The laws of zero and one in the two arithmetics *)

Lemma Qc_is_zero (q : Qc) : is_zero q = true ↔ q = 0%Qc.
Proof.
  unfold is_zero. simpl. rewrite Qeq_bool_iff. split.
  - intros Hq. apply Qc_is_canon. exact Hq.
  - intros ->. reflexivity.
Qed.

Lemma Qc_laws : arith_laws (Real := Qc).
Proof.
  split.
  - reflexivity.
  - intros v _. reflexivity.
  - intros u v ->%Qc_is_zero ->%Qc_is_zero. reflexivity.
  - intros u v ->%Qc_is_zero ->%Qc_is_zero. reflexivity.
  - intros u ->%Qc_is_zero. reflexivity.
  - intros u v ->%Qc_is_zero _. apply Qc_is_zero. exact (Qcmult_0_l v).
  - intros u v ->%Qc_is_zero _. apply Qc_is_zero. exact (Qcmult_0_r v).
  - intros u v ->%Qc_is_zero _ _. apply Qc_is_zero. exact (Qc_div_zero v).
  - intros u v ->%Qc_is_zero _. exact (Qcplus_0_l v).
  - intros v. exact (Qcmult_1_l v).
  - intros u v. exact (Qcmult_comm u v).
  - apply Qc_is_canon. reflexivity.
  - apply Qc_is_canon. reflexivity.
  - apply Qc_is_canon. reflexivity.
  - apply Qc_is_canon. reflexivity.
  - reflexivity.
  - reflexivity.
  - reflexivity.
Qed.

(** In binary64 the comparison with zero holds of the two zeros only. *)
Lemma b64_is_zero (f : PrimFloat.float) :
  is_zero f = match FloatOps.Prim2SF f with SpecFloat.S754_zero _ => true | _ => false end.
Proof.
  unfold is_zero. simpl. rewrite FloatAxioms.eqb_spec.
  replace (FloatOps.Prim2SF (b64_of_int 0)) with (SpecFloat.S754_zero false)
    by (vm_compute; reflexivity).
  destruct (FloatOps.Prim2SF f) as [[]|[]| |[] m e]; reflexivity.
Qed.

(** Rounding a value that is representable leaves it as it is: the mantissa
    of a product with one is the mantissa of the other factor, shifted by
    the 52 binary places of the mantissa of one. *)
Lemma shr_fexp_canonical m e :
  SpecFloat.canonical_mantissa FloatOps.prec FloatOps.emax m e = true →
  SpecFloat.shr_fexp FloatOps.prec FloatOps.emax (Zpos m) e SpecFloat.loc_Exact
  = ({| SpecFloat.shr_m := Zpos m; SpecFloat.shr_r := false; SpecFloat.shr_s := false |}, e).
Proof.
  unfold SpecFloat.canonical_mantissa. intros Hc%Z.eqb_eq.
  unfold SpecFloat.shr_fexp, SpecFloat.Zdigits2. rewrite Hc, Z.sub_diag. reflexivity.
Qed.

Lemma shr_fexp_scaled m e :
  SpecFloat.canonical_mantissa FloatOps.prec FloatOps.emax m e = true →
  SpecFloat.shr_fexp FloatOps.prec FloatOps.emax
    (Zpos (4503599627370496 * m)) (-52 + e) SpecFloat.loc_Exact
  = ({| SpecFloat.shr_m := Zpos m; SpecFloat.shr_r := false; SpecFloat.shr_s := false |}, e).
Proof.
  unfold SpecFloat.canonical_mantissa. intros Hc%Z.eqb_eq.
  unfold SpecFloat.shr_fexp, SpecFloat.Zdigits2.
  let t := eval vm_compute in (4503599627370496 * m)%positive in
    change (4503599627370496 * m)%positive with t.
  cbn [SpecFloat.digits2_pos]. rewrite !Pos2Z.inj_succ.
  replace (SpecFloat.fexp FloatOps.prec FloatOps.emax _ - (-52 + e)) with 52.
  - cbn [SpecFloat.shr SpecFloat.shr_record_of_loc SpecFloat.iter_pos SpecFloat.shr_1 orb].
    f_equal. lia.
  - match goal with |- _ = SpecFloat.fexp _ _ ?k - _ =>
      replace k with (Z.pos (SpecFloat.digits2_pos m) + e) by lia end.
    rewrite Hc. lia.
Qed.

Lemma b64_one_mul (v : PrimFloat.float) : rmul r1 v = v.
Proof.
  apply FloatAxioms.Prim2SF_inj. simpl. rewrite FloatAxioms.mul_spec.
  replace (FloatOps.Prim2SF (b64_of_int 1))
    with (SpecFloat.S754_finite false 4503599627370496 (-52)) by (vm_compute; reflexivity).
  pose proof (FloatAxioms.Prim2SF_valid v) as Hv.
  destruct (FloatOps.Prim2SF v) as [s|s| |s m e]; try reflexivity.
  simpl in Hv. unfold SpecFloat.bounded in Hv. apply andb_prop in Hv as [Hc He].
  unfold FloatAxioms.SF64mul, SpecFloat.SFmul, SpecFloat.binary_round_aux.
  rewrite (shr_fexp_scaled m e Hc).
  cbn [SpecFloat.shr_m SpecFloat.loc_of_shr_record SpecFloat.round_nearest_even].
  rewrite (shr_fexp_canonical m e Hc). cbn [SpecFloat.shr_m xorb]. rewrite He. reflexivity.
Qed.

Lemma b64_mul_comm (u v : PrimFloat.float) : rmul u v = rmul v u.
Proof.
  apply FloatAxioms.Prim2SF_inj. simpl. rewrite !FloatAxioms.mul_spec.
  destruct (FloatOps.Prim2SF u) as [su|su| |su mu eu],
           (FloatOps.Prim2SF v) as [sv|sv| |sv mv ev]; simpl;
    try reflexivity; try (rewrite (xorb_comm su sv); reflexivity).
  unfold FloatAxioms.SF64mul, SpecFloat.SFmul.
  rewrite (xorb_comm su sv), (Pos.mul_comm mu mv), (Z.add_comm eu ev). reflexivity.
Qed.

Ltac b64_cases u v :=
  rewrite ?b64_is_zero; unfold is_finite; simpl;
  rewrite ?FloatAxioms.add_spec, ?FloatAxioms.sub_spec, ?FloatAxioms.mul_spec,
    ?FloatAxioms.div_spec, ?FloatAxioms.opp_spec;
  destruct (FloatOps.Prim2SF u) as [[]|[]| |[] ? ?];
  destruct (FloatOps.Prim2SF v) as [[]|[]| |[] ? ?];
  try discriminate; try reflexivity.

Lemma b64_laws : arith_laws (Real := PrimFloat.float).
Proof.
  split.
  - vm_compute. reflexivity.
  - intros v. b64_cases v v.
  - intros u v. b64_cases u v.
  - intros u v. b64_cases u v.
  - intros u. b64_cases u u.
  - intros u v. b64_cases u v.
  - intros u v. b64_cases u v.
  - intros u v. b64_cases u v.
  - intros u v Hu Hv. apply FloatAxioms.Prim2SF_inj. revert Hu Hv. b64_cases u v.
  - exact b64_one_mul.
  - exact b64_mul_comm.
  - reflexivity.
  - vm_compute. reflexivity.
  - vm_compute. reflexivity.
  - vm_compute. reflexivity.
  - vm_compute. reflexivity.
  - vm_compute. reflexivity.
  - vm_compute. reflexivity.
Qed.



(** The example grid and the same grid after another run give the same
    response cube. *)
Lemma generation_deterministic_witness :
  same_static demo_grid demo_grid_used
  ∧ m_grid demo_grid ≠ m_grid demo_grid_used
  ∧ m_pulseResponse demo_grid ≠ m_pulseResponse demo_grid_used
  ∧ match GenerateResponse demo_grid demo_listener,
          GenerateResponse demo_grid_used demo_listener with
    | Returns a, Returns a' =>
        m_pulseResponse a = m_pulseResponse a' ∧ m_grid a = m_grid a'
    | Throws e _, Throws e' _ => e = e'
    | Undefined u, Undefined u' => u = u'
    | _, _ => False
    end.
Proof.
  assert (Hst : same_static demo_grid demo_grid_used).
  { unfold same_static. repeat split; reflexivity. }
  split; [exact Hst | split; [| split]].
  - intros Heq.
    apply (f_equal (λ l, match l with c :: _ => this (pr c) | [] => 0%Q end)) in Heq.
    vm_compute in Heq. discriminate.
  - intros Heq.
    apply (f_equal (λ l, match l with (c :: _) :: _ => this (pr c) | _ => 0%Q end)) in Heq.
    vm_compute in Heq. discriminate.
  - apply (generation_deterministic demo_grid demo_grid_used demo_listener Hst).
    + vm_compute. reflexivity.
    + apply wf_response_facts. vm_compute. reflexivity.
    + apply wf_response_facts. vm_compute. reflexivity.
Defined.

(** Node 1 of the two-by-two grid: a medium node in the last column, whose
    forward reads are the nodes 3 and 2. *)
Lemma flagged_reads_witness :
  ∃ nx ny,
    at_ (m_grid open_grid) (1 + gridy open_grid + 1) = Ok nx
    ∧ at_ (m_grid open_grid) (1 + 1) = Ok ny
    ∧ pressure_cell open_grid 1 (m_grid open_grid)
      = Ok (set_pr (node (qc 2 1) 1 1)
              (pressure_value open_grid (node (qc 2 1) 1 1) nx ny)).
Proof.
  destruct (flagged_reads open_grid (m_grid open_grid) 1 (node (qc 2 1) 1 1) wall)
    as (_ & _ & _ & _ & Hfwd).
  - vm_compute. discriminate.
  - reflexivity.
  - reflexivity.
  - apply Hfwd; [reflexivity | vm_compute; reflexivity].
Defined.

(** C10, as stated, fails on the two-by-two grid of medium nodes: the
    forward read of node 2, a node of the last row, leaves the cell array (so
    the reads do not stay inside the array for every node), and both forward
    reads of node 1, a node of the last column, are inside it (so they do not
    index past the last cell). *)
Lemma forward_reads_counterexample :
  ¬ (∀ i c, at_ (m_grid open_grid) i = Ok c →
       ∃ c', pressure_cell open_grid i (m_grid open_grid) = Ok c')
  ∧ ¬ (∀ i c, at_ (m_grid open_grid) i = Ok c → b c = 1 →
         gridx open_grid * (gridy open_grid + 1) ≤ i
         ∨ i mod (gridy open_grid + 1) = gridy open_grid →
         Z.of_nat (length (m_grid open_grid)) ≤ i + gridy open_grid + 1
         ∧ Z.of_nat (length (m_grid open_grid)) ≤ i + 1).
Proof.
  split.
  - intros Hall. destruct (Hall 2 (node (qc 3 1) 1 1) eq_refl) as [c' Hc'].
    vm_compute in Hc'. discriminate.
  - intros Hall.
    destruct (Hall 1 (node (qc 2 1) 1 1) eq_refl eq_refl (or_intror eq_refl)) as [_ Hy].
    vm_compute in Hy. apply Hy. reflexivity.
Qed.

(** On that grid the solver as a whole leaves defined behaviour, in its
    first pressure phase. *)
Lemma open_grid_leaves_array :
  wf_grid open_grid = false
  ∧ GenerateResponseCPU open_grid demo_listener = Undefined OutOfBounds.
Proof. split; vm_compute; reflexivity. Qed.

(** C8 on the example grid: the velocity-y phase assigns the y velocity of
    node 3, the node of row 1 with y-index 0, from the pressure of node 2,
    the last node of row 0. *)
Theorem velocity_y_first_column :
  3 mod (gridy demo_grid + 1) = 0
  ∧ ∃ s' c',
      velocity_y_phase demo_grid demo_cells = Ok s'
      ∧ s' !! 3%nat = Some c'
      ∧ vy c' = rsub (vy (node (qc 4 1) 1 1))
                  (rmul (Cv demo_grid)
                     (rsub (pr (node (qc 4 1) 1 1)) (pr (node (qc 3 1) 1 1))))
      ∧ vy c' ≠ vy (node (qc 4 1) 1 1).
Proof.
  split; [vm_compute; reflexivity |].
  eexists. eexists. split; [vm_compute; reflexivity | split; [reflexivity | split]].
  - apply Qc_is_canon. vm_compute. reflexivity.
  - intros Heq. apply (f_equal this) in Heq. vm_compute in Heq. discriminate.
Qed.

(** C5 on the two-by-two grid, whose offset is (1, 1): the listener path
    maps the position (0, 0, 0) to node 3, the query path to node 0, whose
    series it returns. *)
Theorem query_path_ignores_offset :
  listenerPos open_grid demo_listener = 3
  ∧ GetImpulseResponse (Some (demo_context open_grid)) demo_listener
    = Ok ([node (qc 10 1) 1 1], 1)
  ∧ at_ (m_pulseResponse open_grid) 0 = Ok [node (qc 10 1) 1 1]
  ∧ at_ (m_pulseResponse open_grid) 3 = Ok [node (qc 13 1) 1 1].
Proof.
  repeat split; vm_compute; reflexivity.
Qed.

(** C2 on the example grids: without a context the query dereferences a
    null pointer; for a position beyond the grid it reads outside the
    response cube; on a grid no response was generated for it returns
    whatever the cube holds. *)
Theorem query_response_unguarded :
  GetImpulseResponse None demo_listener = Fault NullDeref
  ∧ GetImpulseResponse (Some (demo_context open_grid)) (Vec3 (qc 5 1) 0%Qc 0%Qc)
    = Fault OutOfBounds
  ∧ GetImpulseResponse (Some (demo_context demo_grid)) demo_listener
    = Ok ([node (qc 7 2) 1 1; node (qc 7 2) 1 1], 2).
Proof.
  repeat split; vm_compute; reflexivity.
Qed.


(** * Further properties of the solver *)

Section Coverage.

Context {Real : Type} `{RealArith Real} `{PvDefinitions Real}.
Implicit Types (g : @Grid Real) (cells s : list (@Cell Real)) (c : @Cell Real).

Lemma absorb_tb_body_edge g i s :
  absorb_tb_body g i s
  = edge_body set_vx (m_z_inv g) (λ i, i) (λ i, gridx g * (gridy g + 1) + i)
      (λ i, gridx g * (gridy g + 1) + i - gridy g - 1) i s.
Proof. reflexivity. Qed.

Lemma absorb_lr_body_edge g i s :
  absorb_lr_body g i s
  = edge_body set_vy (m_z_inv g) (λ i, i * (gridy g + 1))
      (λ i, i * (gridy g + 1) + gridy g)
      (λ i, i * (gridy g + 1) + gridy g - 1) i s.
Proof. reflexivity. Qed.

(** ** The edge loops *)

Section EdgeLoop.

Variable set : @Cell Real → Real → @Cell Real.
Variable z : Real.
Variables idx1 idx2 src : Z → Z.
Variables (lo : Z) (n : nat).
Hypothesis set_keeps_pr : ∀ c v, pr (set c v) = pr c.
Hypothesis idx_disjoint : ∀ i j,
  lo ≤ i < lo + Z.of_nat n → lo ≤ j < lo + Z.of_nat n → idx1 i ≠ idx2 j.
Hypothesis idx1_inj : ∀ i j,
  lo ≤ i < lo + Z.of_nat n → lo ≤ j < lo + Z.of_nat n → idx1 i = idx1 j → i = j.
Hypothesis idx2_inj : ∀ i j,
  lo ≤ i < lo + Z.of_nat n → lo ≤ j < lo + Z.of_nat n → idx2 i = idx2 j → i = j.

Local Abbreviation edge_done := (edge_done set z idx1 idx2 src lo).

Lemma edge_step s0 i s s' :
  lo ≤ i < lo + Z.of_nat n →
  edge_done s0 i s → edge_body set z idx1 idx2 src i s = Ok s' →
  edge_done s0 (i + 1) s'.
Proof.
  intros Hi (Hlen & Hpr & Hone & Htwo & Hrest) Hb.
  unfold edge_body in Hb. bind_inv Hb.
  rename a into c1, a0 into s1, a1 into p2, a2 into c2.
  apply at_Ok in Ha as [N1 Hc1]. apply store_Ok in Ha0 as [R1 ->].
  apply at_Ok in Ha1 as [Ns Hp2]. apply at_Ok in Ha2 as [N2 Hc2].
  apply store_Ok in Hb as [R2 ->]. rewrite length_insert in R2.
  assert (D12 : idx1 i ≠ idx2 i) by (apply idx_disjoint; lia).
  rewrite list_lookup_insert_ne in Hc2 by lia.
  assert (Hc1' : s0 !! Z.to_nat (idx1 i) = Some c1).
  { rewrite <- Hrest; [exact Hc1 |]. intros j Hj. rewrite Z2Nat.id by lia. split.
    - intros E. apply idx1_inj in E; lia.
    - apply idx_disjoint; lia. }
  assert (Hc2' : s0 !! Z.to_nat (idx2 i) = Some c2).
  { rewrite <- Hrest; [exact Hc2 |]. intros j Hj. rewrite Z2Nat.id by lia. split.
    - intros E. symmetry in E. revert E. apply idx_disjoint; lia.
    - intros E. apply idx2_inj in E; lia. }
  assert (Hpr1 : pr <$> <[Z.to_nat (idx1 i) := set c1 (rmul (rneg (pr c1)) z)]> s
                 = pr <$> s0).
  { rewrite list_fmap_insert, set_keeps_pr, <- Hpr. apply list_insert_id.
    rewrite list_lookup_fmap, Hc1. reflexivity. }
  assert (Hp0 : ∃ p0, s0 !! Z.to_nat (src i) = Some p0 ∧ pr p0 = pr p2).
  { assert (E : (pr <$> s0) !! Z.to_nat (src i) = Some (pr p2)).
    { rewrite <- Hpr1, list_lookup_fmap, Hp2. reflexivity. }
    rewrite list_lookup_fmap in E.
    destruct (s0 !! Z.to_nat (src i)) as [p0|]; [| discriminate].
    injection E as E. eauto. }
  destruct Hp0 as (p0 & Hp0 & Epr).
  split; [| split; [| split; [| split]]].
  - rewrite !length_insert. exact Hlen.
  - rewrite list_fmap_insert, set_keeps_pr, Hpr1. apply list_insert_id.
    rewrite list_lookup_fmap, Hc2'. reflexivity.
  - intros j Hj. destruct (decide (j = i)) as [-> | Hne].
    + exists c1. split; [exact N1 | split; [exact Hc1' |]].
      rewrite list_lookup_insert_ne by lia.
      apply list_lookup_insert_eq. lia.
    + destruct (Hone j ltac:(lia)) as (c0 & Nj & Hj0 & Hs).
      exists c0. split; [exact Nj | split; [exact Hj0 |]].
      assert (idx1 j ≠ idx2 i) by (apply idx_disjoint; lia).
      assert (idx1 j ≠ idx1 i) by (intros E; apply idx1_inj in E; lia).
      rewrite !list_lookup_insert_ne by lia. exact Hs.
  - intros j Hj. destruct (decide (j = i)) as [-> | Hne].
    + exists c2, p0. repeat split; try assumption.
      rewrite Epr. apply list_lookup_insert_eq. rewrite length_insert. lia.
    + destruct (Htwo j ltac:(lia)) as (c0 & p & Nj & Nsj & Hj0 & Hp & Hs).
      exists c0, p. repeat split; try assumption.
      assert (idx1 i ≠ idx2 j) by (apply idx_disjoint; lia).
      assert (idx2 j ≠ idx2 i) by (intros E; apply idx2_inj in E; lia).
      rewrite !list_lookup_insert_ne by lia. exact Hs.
  - intros k Hk. destruct (Hk i ltac:(lia)) as [K1 K2].
    rewrite !list_lookup_insert_ne by lia.
    apply Hrest. intros j Hj. apply Hk. lia.
Qed.

Lemma edge_loop_result s0 s' :
  for_loop n lo (edge_body set z idx1 idx2 src) s0 = Ok s' →
  edge_done s0 (lo + Z.of_nat n) s'.
Proof.
  intros Hrun.
  apply (for_loop_inv (edge_done s0) (edge_body set z idx1 idx2 src) n lo s0 s');
    [| | exact Hrun].
  - intros i t t' Hi Ht Hb. exact (edge_step s0 i t t' Hi Ht Hb).
  - split; [reflexivity | split; [reflexivity | split; [| split]]].
    + intros j Hj. lia.
    + intros j Hj. lia.
    + reflexivity.
Qed.

End EdgeLoop.

Lemma absorb_tb_result g s0 s' :
  1 ≤ gridx g →
  absorb_tb_phase g s0 = Ok s' →
  pr <$> s' = pr <$> s0
  ∧ (∀ i, 0 ≤ i < gridy g →
       ∃ c0, s0 !! Z.to_nat i = Some c0
             ∧ s' !! Z.to_nat i
               = Some (set_vx c0 (rmul (rneg (pr c0)) (m_z_inv g))))
  ∧ (∀ i, 0 ≤ i < gridy g →
       ∃ c0 p,
         s0 !! Z.to_nat (gridx g * (gridy g + 1) + i) = Some c0
         ∧ s0 !! Z.to_nat ((gridx g - 1) * (gridy g + 1) + i) = Some p
         ∧ s' !! Z.to_nat (gridx g * (gridy g + 1) + i)
           = Some (set_vx c0 (rmul (pr p) (m_z_inv g))))
  ∧ (∀ k : nat,
       gridy g ≤ Z.of_nat k < gridx g * (gridy g + 1)
       ∨ gridx g * (gridy g + 1) + gridy g ≤ Z.of_nat k →
       s' !! k = s0 !! k).
Proof.
  intros Hgx Hrun. unfold absorb_tb_phase, for_range in Hrun.
  rewrite (for_loop_ext _ _ (absorb_tb_body_edge g)) in Hrun.
  apply edge_loop_result in Hrun; [| reflexivity | intros i j Hi Hj; nia
                                   | intros i j Hi Hj E; exact E
                                   | intros i j Hi Hj E; lia].
  destruct Hrun as (_ & Hpr & Hone & Htwo & Hrest).
  split; [exact Hpr | split; [| split]].
  - intros i Hi. destruct (Hone i ltac:(lia)) as (c0 & _ & Hc0 & Hs). eauto.
  - intros i Hi. destruct (Htwo i ltac:(lia)) as (c0 & p & _ & _ & Hc0 & Hp & Hs).
    exists c0, p. split; [exact Hc0 | split; [| exact Hs]].
    replace ((gridx g - 1) * (gridy g + 1) + i)
      with (gridx g * (gridy g + 1) + i - gridy g - 1) by lia.
    exact Hp.
  - intros k Hk. apply Hrest. intros j Hj. nia.
Qed.

(** X3.  When the loop over the top and bottom edges ends normally on a grid
    of at least two rows, then for every [i] below [gridy] node [i] of the
    first row holds, as its x velocity, minus its own pressure times the
    inverse impedance, and node [i] of the last row holds the pressure of
    the node above it (node [i] of the row before) times the inverse
    impedance, the pressures being those the loop started on.  Every other
    node keeps its cell, among them the two nodes of y-index [gridy] that end
    the first and the last row; no pressure changes. *)
Theorem absorb_tb_phase_edges g s0 s' :
  1 ≤ gridx g →
  absorb_tb_phase g s0 = Ok s' →
  pr <$> s' = pr <$> s0
  ∧ (∀ i, 0 ≤ i < gridy g →
       ∃ c0, s0 !! Z.to_nat i = Some c0
             ∧ s' !! Z.to_nat i
               = Some (set_vx c0 (rmul (rneg (pr c0)) (m_z_inv g))))
  ∧ (∀ i, 0 ≤ i < gridy g →
       ∃ c0 p,
         s0 !! Z.to_nat (gridx g * (gridy g + 1) + i) = Some c0
         ∧ s0 !! Z.to_nat ((gridx g - 1) * (gridy g + 1) + i) = Some p
         ∧ s' !! Z.to_nat (gridx g * (gridy g + 1) + i)
           = Some (set_vx c0 (rmul (pr p) (m_z_inv g))))
  ∧ (∀ k : nat,
       gridy g ≤ Z.of_nat k < gridx g * (gridy g + 1)
       ∨ gridx g * (gridy g + 1) + gridy g ≤ Z.of_nat k →
       s' !! k = s0 !! k).
Proof. exact (absorb_tb_result g s0 s'). Qed.

Lemma absorb_lr_result g s0 s' :
  1 ≤ gridy g →
  absorb_lr_phase g s0 = Ok s' →
  pr <$> s' = pr <$> s0
  ∧ (∀ i, 0 ≤ i < gridx g →
       ∃ c0, s0 !! Z.to_nat (i * (gridy g + 1)) = Some c0
             ∧ s' !! Z.to_nat (i * (gridy g + 1))
               = Some (set_vy c0 (rmul (rneg (pr c0)) (m_z_inv g))))
  ∧ (∀ i, 0 ≤ i < gridx g →
       ∃ c0 p,
         s0 !! Z.to_nat (i * (gridy g + 1) + gridy g) = Some c0
         ∧ s0 !! Z.to_nat (i * (gridy g + 1) + gridy g - 1) = Some p
         ∧ s' !! Z.to_nat (i * (gridy g + 1) + gridy g)
           = Some (set_vy c0 (rmul (pr p) (m_z_inv g))))
  ∧ (∀ k : nat,
       gridx g * (gridy g + 1) ≤ Z.of_nat k
       ∨ (0 < Z.of_nat k mod (gridy g + 1) < gridy g) →
       s' !! k = s0 !! k).
Proof.
  intros Hgy Hrun. unfold absorb_lr_phase, for_range in Hrun.
  rewrite (for_loop_ext _ _ (absorb_lr_body_edge g)) in Hrun.
  assert (Hrows : ∀ i j d, 0 ≤ d < gridy g + 1 →
            i * (gridy g + 1) = j * (gridy g + 1) + d → i = j ∧ d = 0).
  { intros i j d Hd E. assert (E' : (i - j) * (gridy g + 1) = d) by lia.
    destruct (Z.lt_trichotomy (i - j) 0) as [Hlt | [Heq | Hgt]]; nia. }
  apply edge_loop_result in Hrun; [| reflexivity | | |]; cbv beta.
  2: { intros i j Hi Hj E. apply Hrows in E; lia. }
  2: { intros i j Hi Hj E. apply (Hrows i j 0); lia. }
  2: { intros i j Hi Hj E. apply (Hrows i j 0); lia. }
  destruct Hrun as (_ & Hpr & Hone & Htwo & Hrest).
  split; [exact Hpr | split; [| split]].
  - intros i Hi. destruct (Hone i ltac:(lia)) as (c0 & _ & Hc0 & Hs). eauto.
  - intros i Hi. destruct (Htwo i ltac:(lia)) as (c0 & p & _ & _ & Hc0 & Hp & Hs).
    eauto.
  - intros k Hk. apply Hrest. intros j Hj. destruct Hk as [Hk | Hk]; [nia |].
    split; intros E; rewrite E in Hk.
    + rewrite Z.mod_mul in Hk by lia. lia.
    + rewrite Z.add_comm, Z.mod_add, Z.mod_small in Hk by lia. lia.
Qed.

(** X4.  When the loop over the left and right edges ends normally on a grid
    of at least two columns, then for every row [i] below [gridx] the first
    node of the row holds, as its y velocity, minus its own pressure times
    the inverse impedance, and the last node of the row holds the pressure
    of the node before it times the inverse impedance, the pressures being
    those the loop started on.  Every other node keeps its cell, among them
    all nodes of the last row (x-index [gridx]); no pressure changes. *)
Theorem absorb_lr_phase_edges g s0 s' :
  1 ≤ gridy g →
  absorb_lr_phase g s0 = Ok s' →
  pr <$> s' = pr <$> s0
  ∧ (∀ i, 0 ≤ i < gridx g →
       ∃ c0, s0 !! Z.to_nat (i * (gridy g + 1)) = Some c0
             ∧ s' !! Z.to_nat (i * (gridy g + 1))
               = Some (set_vy c0 (rmul (rneg (pr c0)) (m_z_inv g))))
  ∧ (∀ i, 0 ≤ i < gridx g →
       ∃ c0 p,
         s0 !! Z.to_nat (i * (gridy g + 1) + gridy g) = Some c0
         ∧ s0 !! Z.to_nat (i * (gridy g + 1) + gridy g - 1) = Some p
         ∧ s' !! Z.to_nat (i * (gridy g + 1) + gridy g)
           = Some (set_vy c0 (rmul (pr p) (m_z_inv g))))
  ∧ (∀ k : nat,
       gridx g * (gridy g + 1) ≤ Z.of_nat k
       ∨ (0 < Z.of_nat k mod (gridy g + 1) < gridy g) →
       s' !! k = s0 !! k).
Proof. exact (absorb_lr_result g s0 s'). Qed.

(** ** The node-wise phases *)

(** X1.  When the pressure loop ends normally, every node [k] of the grid
    holds the pressure
    [(pr - Cprv * ((nextX.vx - vx) + (nextY.vy - vy))) / (1 + (1 - beta) * dt)]
    computed from the cells the loop started on, with [nextX] and [nextY] the
    cells read at [(k + gridy + 1) * B] and [(k + 1) * B]: although the loop
    stores in place, no node sees the pressure the loop has already written
    to another node.  Velocities and flags are those of the node before the
    loop, and cells beyond [loopSize] are untouched. *)
Theorem pressure_phase_nodewise g s0 s' :
  pressure_phase g s0 = Ok s' →
  length s' = length s0
  ∧ (∀ k : nat, Z.of_nat k < loopSize g →
       ∃ c bd nextX nextY,
         s0 !! k = Some c ∧ m_boundaries g !! k = Some bd
         ∧ at_ s0 ((Z.of_nat k + gridy g + 1) * b c) = Ok nextX
         ∧ at_ s0 ((Z.of_nat k + 1) * b c) = Ok nextY
         ∧ s' !! k =
             Some (MkCell
                     (rdiv (rsub (pr c)
                              (rmul (Cprv g)
                                 (radd (rsub (vx nextX) (vx c))
                                       (rsub (vy nextY) (vy c)))))
                           (radd r1 (rmul (rsub r1 (of_int (b c))) (m_dt g))))
                     (vx c) (vy c) (b c) (by_ c)))
  ∧ (∀ k : nat, loopSize g ≤ Z.of_nat k → s' !! k = s0 !! k).
Proof.
  intros (Hlen & Hin & Hout)%pressure_phase_result.
  split; [exact Hlen | split].
  - intros k Hk. destruct (Hin k ltac:(lia)) as (c' & Hcell & Hs').
    apply pressure_cell_inv in Hcell as (c & bd & nx & ny & Hc & Hbd & Hnx & Hny & ->).
    apply at_Ok in Hc as [_ Hc]. apply at_Ok in Hbd as [_ Hbd].
    rewrite Nat2Z.id in Hc, Hbd.
    exists c, bd, nx, ny. repeat split; assumption.
  - intros k Hk. apply Hout. lia.
Qed.

Lemma excite_result g listener t s s' :
  excite g listener t s = Ok s' →
  ∃ c p, at_ s (listenerPos g listener) = Ok c ∧ at_ (m_pulse g) t = Ok p
         ∧ s' = <[Z.to_nat (listenerPos g listener) := set_pr c (radd (pr c) p)]> s.
Proof.
  intros He. unfold excite in He. bind_inv He. apply store_Ok in He as [_ ->]. eauto.
Qed.

(** X2.  Each phase of a step assigns one field only.  The pressure loop
    keeps the velocities and flags of every node; the velocity-x loop keeps
    pressure, y velocity and flags of every node and the whole cell of the
    nodes of the first row; the velocity-y loop keeps pressure, x velocity and
    flags of every node and the whole cell of node 0; the edge loops keep
    pressures and flags, the top/bottom one also the y velocities and the
    left/right one the x velocities; the excitation keeps velocities and
    flags and the whole cell of every node but the listener's. *)
Theorem phases_assign_one_field g listener t s s' :
  (pressure_phase g s = Ok s' →
     vx <$> s' = vx <$> s ∧ vy <$> s' = vy <$> s ∧ flags <$> s' = flags <$> s)
  ∧ (velocity_x_phase g s = Ok s' →
       pr <$> s' = pr <$> s ∧ vy <$> s' = vy <$> s ∧ flags <$> s' = flags <$> s
       ∧ (0 ≤ gridy g → ∀ k : nat, Z.of_nat k < gridy g + 1 → s' !! k = s !! k))
  ∧ (velocity_y_phase g s = Ok s' →
       pr <$> s' = pr <$> s ∧ vx <$> s' = vx <$> s ∧ flags <$> s' = flags <$> s
       ∧ s' !! 0%nat = s !! 0%nat)
  ∧ (absorb_tb_phase g s = Ok s' →
       pr <$> s' = pr <$> s ∧ vy <$> s' = vy <$> s ∧ flags <$> s' = flags <$> s)
  ∧ (absorb_lr_phase g s = Ok s' →
       pr <$> s' = pr <$> s ∧ vx <$> s' = vx <$> s ∧ flags <$> s' = flags <$> s)
  ∧ (excite g listener t s = Ok s' →
       vx <$> s' = vx <$> s ∧ vy <$> s' = vy <$> s ∧ flags <$> s' = flags <$> s
       ∧ ∀ k : nat, Z.of_nat k ≠ listenerPos g listener → s' !! k = s !! k).
Proof.
  split; [| split; [| split; [| split; [| split]]]].
  - intros Hp. split; [| split].
    + exact (pressure_phase_keeps vx g s s' (λ _ _, eq_refl) Hp).
    + exact (pressure_phase_keeps vy g s s' (λ _ _, eq_refl) Hp).
    + exact (pressure_phase_keeps flags g s s' (λ _ _, eq_refl) Hp).
  - intros Hp. split; [| split; [| split]].
    + exact (velocity_x_phase_keeps pr g s s' (λ _ _, eq_refl) Hp).
    + exact (velocity_x_phase_keeps vy g s s' (λ _ _, eq_refl) Hp).
    + exact (velocity_x_phase_keeps flags g s s' (λ _ _, eq_refl) Hp).
    + intros Hgy k Hk.
      destruct (velocity_x_phase_result g s s' Hgy Hp) as (_ & _ & Hout).
      apply Hout. lia.
  - intros Hp. split; [| split; [| split]].
    + exact (velocity_y_phase_keeps pr g s s' (λ _ _, eq_refl) Hp).
    + exact (velocity_y_phase_keeps vx g s s' (λ _ _, eq_refl) Hp).
    + exact (velocity_y_phase_keeps flags g s s' (λ _ _, eq_refl) Hp).
    + destruct (velocity_y_phase_result g s s' Hp) as (_ & _ & Hout).
      apply Hout. lia.
  - intros Hp. split; [| split].
    + exact (absorb_tb_phase_keeps pr g s s' (λ _ _, eq_refl) Hp).
    + exact (absorb_tb_phase_keeps vy g s s' (λ _ _, eq_refl) Hp).
    + exact (absorb_tb_phase_keeps flags g s s' (λ _ _, eq_refl) Hp).
  - intros Hp. split; [| split].
    + exact (absorb_lr_phase_keeps pr g s s' (λ _ _, eq_refl) Hp).
    + exact (absorb_lr_phase_keeps vx g s s' (λ _ _, eq_refl) Hp).
    + exact (absorb_lr_phase_keeps flags g s s' (λ _ _, eq_refl) Hp).
  - intros (c & p & Hc & _ & ->)%excite_result.
    apply at_Ok in Hc as [Hpos Hc].
    assert (Hkeep : ∀ (X : Type) (f : @Cell Real → X),
              f (set_pr c (radd (pr c) p)) = f c →
              f <$> <[Z.to_nat (listenerPos g listener) := set_pr c (radd (pr c) p)]> s
              = f <$> s).
    { intros X f Hf. rewrite list_fmap_insert, Hf. apply list_insert_id.
      rewrite list_lookup_fmap, Hc. reflexivity. }
    split; [| split; [| split]]; try (apply Hkeep; reflexivity).
    intros k Hk. apply list_lookup_insert_ne. lia.
Qed.

(** ** When a call returns and when it cannot *)

Lemma at_fault {A : Type} (l : list A) (k : Z) (u : undefined) :
  at_ l k = Fault u → u = OutOfBounds.
Proof.
  unfold at_. destruct (k <? 0); [congruence |].
  destruct (l !! Z.to_nat k); congruence.
Qed.

Lemma store_fault {A : Type} (l : list A) (k : Z) (v : A) (u : undefined) :
  store l k v = Fault u → u = OutOfBounds.
Proof.
  unfold store. destruct ((0 <=? k) && (k <? Z.of_nat (length l))); congruence.
Qed.

Lemma bind_Fault {A B : Type} (m : access A) (k : A → access B) (u : undefined) :
  bind m k = Fault u → m = Fault u ∨ ∃ a, m = Ok a ∧ k a = Fault u.
Proof.
  destruct m as [a|u']; simpl; intros Hm; [right; eauto | left; congruence].
Qed.

Lemma for_loop_fault {St : Type} (body : Z → St → access St) :
  (∀ i t u, body i t = Fault u → u = OutOfBounds) →
  ∀ (n : nat) (lo : Z) (t : St) (u : undefined),
    for_loop n lo body t = Fault u → u = OutOfBounds.
Proof.
  intros Hbody. induction n as [|n IH]; intros lo t u Hrun; simpl in Hrun; [discriminate |].
  apply bind_Fault in Hrun as [Hb | (t' & _ & Hrest)]; eauto.
Qed.

(** Every iteration of a loop that ends normally has ended normally, on a
    state that has the property the iterations keep. *)
Lemma for_loop_each {St : Type} (P : St → Prop) (body : Z → St → access St) :
  (∀ i t t', P t → body i t = Ok t' → P t') →
  ∀ (n : nat) (lo : Z) (t0 t1 : St),
    P t0 → for_loop n lo body t0 = Ok t1 →
    ∀ i, lo ≤ i < lo + Z.of_nat n → ∃ t t', P t ∧ body i t = Ok t'.
Proof.
  intros Hkeep. induction n as [|n IH]; intros lo t0 t1 Ht0 Hrun i Hi; [lia |].
  simpl in Hrun. apply bind_Ok in Hrun as (t & Hb & Hrest).
  destruct (decide (i = lo)) as [-> | Hne]; [eauto |].
  apply (IH (lo + 1) t t1 (Hkeep lo t0 t Ht0 Hb) Hrest). lia.
Qed.

Lemma reset_phase_fault g s u : reset_phase g s = Fault u → u = OutOfBounds.
Proof.
  apply for_loop_fault. intros i t u' Hb. unfold reset_body in Hb.
  apply bind_Fault in Hb as [Hb | (a & _ & Hb)];
    [exact (at_fault _ _ _ Hb) | exact (store_fault _ _ _ _ Hb)].
Qed.

Lemma pressure_phase_fault g s u : pressure_phase g s = Fault u → u = OutOfBounds.
Proof.
  apply for_loop_fault. intros i t u' Hb. unfold pressure_body in Hb.
  repeat (apply bind_Fault in Hb as [Hb | (? & _ & Hb)]; [exact (at_fault _ _ _ Hb) |]).
  exact (store_fault _ _ _ _ Hb).
Qed.

(** X5.  A medium node (x flag 1) whose forward neighbour along x lies
    beyond the cell array, as every medium node of the last grid row does
    when the array holds exactly the nodes of the grid, makes every call with
    at least one time step undefined: the call reads outside the cell array,
    whatever the listener position, the excitation and the other nodes. *)
Theorem medium_last_row_is_undefined g listener (k : nat) c :
  1 ≤ m_responseLength g →
  m_grid g !! k = Some c → Z.of_nat k < loopSize g → b c = 1 →
  Z.of_nat (length (m_grid g)) ≤ Z.of_nat k + gridy g + 1 →
  GenerateResponseCPU g listener = Undefined OutOfBounds.
Proof.
  intros Hlen Hc Hk Hb Hrow. unfold GenerateResponseCPU, simulate.
  destruct (reset_phase g (m_grid g)) as [s0|u] eqn:Hreset; simpl.
  2: { rewrite (reset_phase_fault g _ u Hreset). reflexivity. }
  unfold for_range.
  destruct (Z.to_nat (m_responseLength g - 0)) as [|n] eqn:Hn; [lia |].
  simpl. unfold time_step at 1. simpl. unfold update_phases.
  destruct (pressure_phase g s0) as [s1|u] eqn:Hp; simpl.
  2: { rewrite (pressure_phase_fault g _ u Hp). reflexivity. }
  exfalso.
  pose proof (reset_phase_keeps_flags g _ _ Hreset) as Hf.
  destruct (pressure_phase_result g s0 s1 Hp) as (_ & Hin & _).
  destruct (Hin k ltac:(lia)) as (c' & Hcell & _).
  apply pressure_cell_inv in Hcell as (c0 & bd & nx & ny & Hc0 & _ & Hnx & _ & _).
  apply at_Ok in Hc0 as [_ Hc0]. rewrite Nat2Z.id in Hc0.
  assert (Hfl : (flags <$> s0) !! k = (flags <$> m_grid g) !! k) by (rewrite Hf; reflexivity).
  rewrite !list_lookup_fmap, Hc0, Hc in Hfl. simpl in Hfl. injection Hfl as Hb0 _.
  rewrite Hb0, Hb, Z.mul_1_r in Hnx. apply at_Ok_range in Hnx.
  assert (Hl : length s0 = length (m_grid g)).
  { rewrite <- (length_fmap flags s0), Hf, length_fmap. reflexivity. }
  lia.
Qed.

Lemma returns_inv g listener g' :
  GenerateResponseCPU g listener = Returns g' →
  ∃ s0 cells cube,
    reset_phase g (m_grid g) = Ok s0
    ∧ for_loop (Z.to_nat (m_responseLength g - 0)) 0 (time_step g listener)
        (s0, m_pulseResponse g) = Ok (cells, cube)
    ∧ g' = with_response (with_cells g cells) cube.
Proof.
  unfold GenerateResponseCPU.
  destruct (simulate g listener) as [[cells cube]|u] eqn:Hsim; [| discriminate].
  intros [= <-]. unfold simulate in Hsim.
  apply bind_Ok in Hsim as (s0 & Hreset & Hloop). eauto 10.
Qed.

(** The steps of a returning call, one by one. *)
Lemma returns_steps g listener g' t :
  GenerateResponseCPU g listener = Returns g' →
  0 ≤ t < m_responseLength g →
  ∃ (cs : list (@Cell Real)) (rs : list (list (@Cell Real))) cs' rs' cs'',
    flags <$> cs = flags <$> m_grid g
    ∧ length <$> rs = length <$> m_pulseResponse g
    ∧ update_phases g cs = Ok cs'
    ∧ record_phase g cs' t rs = Ok rs'
    ∧ excite g listener t cs' = Ok cs''.
Proof.
  intros (s0 & cells & cube & Hreset & Hloop & _)%returns_inv Ht.
  destruct (for_loop_each
              (λ st, flags <$> fst st = flags <$> m_grid g
                     ∧ length <$> snd st = length <$> m_pulseResponse g)
              (time_step g listener)) with
    (n := Z.to_nat (m_responseLength g - 0)) (lo := 0)
    (t0 := (s0, m_pulseResponse g)) (t1 := (cells, cube)) (i := t)
    as ([c r] & [c'' r'] & [Hf Hsh] & Hstep); try assumption; try lia.
  - intros i st st' [Hf Hsh] Hstep.
    destruct (time_step_keeps g listener i st st' Hstep) as [Hf' Hsh'].
    split; congruence.
  - split; [exact (reset_phase_keeps_flags g _ _ Hreset) | reflexivity].
  - simpl in Hf, Hsh. apply time_step_inv in Hstep as (c' & Hu & Hrec & Hex).
    exists c, r, c', r', c''. repeat split; assumption.
Qed.

Lemma returns_room g listener g' :
  GenerateResponseCPU g listener = Returns g' →
  loopSize g ≤ Z.of_nat (length (m_grid g))
  ∧ (1 ≤ m_responseLength g →
       0 ≤ listenerPos g listener < Z.of_nat (length (m_grid g))
       ∧ m_responseLength g ≤ Z.of_nat (length (m_pulse g))
       ∧ loopSize g ≤ Z.of_nat (length (m_boundaries g))
       ∧ loopSize g ≤ Z.of_nat (length (m_pulseResponse g))
       ∧ ∀ (k : nat) series,
           Z.of_nat k < loopSize g → m_pulseResponse g !! k = Some series →
           m_responseLength g ≤ Z.of_nat (length series)).
Proof.
  intros Hcall. split.
  - destruct (returns_inv g listener g' Hcall) as (s0 & _ & _ & Hreset & _).
    destruct (decide (loopSize g ≤ 0)) as [Hn | Hn]; [lia |].
    destruct (reset_phase_result g _ _ Hreset) as (_ & Hin & _).
    destruct (Hin (Z.to_nat (loopSize g - 1)) ltac:(lia))
      as (c' & (c & Hc%at_Ok_range & _)%reset_cell_inv & _).
    lia.
  - intros Hlen.
    destruct (returns_steps g listener g' (m_responseLength g - 1) Hcall ltac:(lia))
      as (c & r & c' & r' & c'' & Hf & Hsh & Hu & Hrec & Hex).
    pose proof (update_phases_keeps_flags g _ _ Hu) as Hf'.
    assert (Hl : length c' = length (m_grid g)).
    { rewrite <- (length_fmap flags c'), Hf', Hf, length_fmap. reflexivity. }
    apply excite_result in Hex as (cl & p & Hcl%at_Ok_range & Hp%at_Ok_range & _).
    destruct (record_phase_result g c' _ r r' Hrec) as (_ & Hin & _).
    assert (Hrow : ∀ (k : nat) series, Z.of_nat k < loopSize g →
              m_pulseResponse g !! k = Some series →
              m_responseLength g ≤ Z.of_nat (length series)).
    { intros k series Hk Hs.
      destruct (Hin k ltac:(lia)) as (series' & Hrs & _).
      apply record_series_inv in Hrs as (ck & sr & _ & [_ Hsr]%at_Ok & Ht & _).
      rewrite Nat2Z.id in Hsr.
      assert (E : (length <$> r) !! k = (length <$> m_pulseResponse g) !! k)
        by (rewrite Hsh; reflexivity).
      rewrite !list_lookup_fmap, Hsr, Hs in E. simpl in E. injection E as E. lia. }
    split; [lia | split; [lia | split; [| split; [| exact Hrow]]]].
    + destruct (decide (loopSize g ≤ 0)) as [Hn | Hn]; [lia |].
      unfold update_phases in Hu. apply bind_Ok in Hu as (s1 & Hp1 & _).
      destruct (pressure_phase_result g c s1 Hp1) as (_ & Hin1 & _).
      destruct (Hin1 (Z.to_nat (loopSize g - 1)) ltac:(lia))
        as (x & (? & ? & ? & ? & _ & Hbd%at_Ok_range & _)%pressure_cell_inv & _).
      lia.
    + destruct (decide (loopSize g ≤ 0)) as [Hn | Hn]; [lia |].
      destruct (Hin (Z.to_nat (loopSize g - 1)) ltac:(lia)) as (series' & Hrs & _).
      apply record_series_inv in Hrs as (ck & sr & _ & Hsr%at_Ok_range & _).
      assert (E : length r = length (m_pulseResponse g)).
      { rewrite <- (length_fmap length r), Hsh, length_fmap. reflexivity. }
      lia.
Qed.

(** X6.  A call that returns had room for all it reads and writes: the cell
    array holds at least [loopSize] cells and, when there is at least one time
    step, the listener position maps into the cell array, the excitation has
    a sample for every step, there is a boundary descriptor for every node,
    and the response cube has a series for every node, each with room for
    [m_responseLength] samples.  With an out-of-range listener, a short
    excitation or a short series the call does not return. *)
Theorem returning_call_had_room g listener g' :
  GenerateResponseCPU g listener = Returns g' →
  loopSize g ≤ Z.of_nat (length (m_grid g))
  ∧ (1 ≤ m_responseLength g →
       0 ≤ listenerPos g listener < Z.of_nat (length (m_grid g))
       ∧ m_responseLength g ≤ Z.of_nat (length (m_pulse g))
       ∧ loopSize g ≤ Z.of_nat (length (m_boundaries g))
       ∧ loopSize g ≤ Z.of_nat (length (m_pulseResponse g))
       ∧ ∀ (k : nat) series,
           Z.of_nat k < loopSize g → m_pulseResponse g !! k = Some series →
           m_responseLength g ≤ Z.of_nat (length series)).
Proof. exact (returns_room g listener g'). Qed.

(** ** A field at rest *)

Section Rest.

Context `{RealTests Real}.

Lemma forallb_Forall {A : Type} (f : A → bool) (l : list A) :
  forallb f l = true → Forall (λ a, f a = true) l.
Proof.
  induction l as [|a l IH]; simpl; [constructor |].
  intros [Ha Hl]%andb_prop. constructor; auto.
Qed.

Lemma finite_setup_facts g :
  finite_setup g = true →
  is_finite (Cv g) = true ∧ is_finite (Cprv g) = true ∧ is_finite (m_z_inv g) = true
  ∧ Forall (λ c, finite_cell g c = true) (m_grid g)
  ∧ Forall (λ bd, finite_boundary g bd = true) (m_boundaries g).
Proof.
  unfold finite_setup.
  intros [[[[Hv Hp]%andb_prop Hz]%andb_prop Hc]%andb_prop Hb]%andb_prop.
  split; [exact Hv | split; [exact Hp | split; [exact Hz |]]].
  split; apply forallb_Forall; assumption.
Qed.

Lemma at_calm g s k c : Forall (calm g) s → at_ s k = Ok c → calm g c.
Proof.
  intros Hq [_ Hc]%at_Ok. exact (proj1 (Forall_lookup _ _) Hq _ _ Hc).
Qed.

Lemma store_calm g s s' k c :
  Forall (calm g) s → calm g c → store s k c = Ok s' → Forall (calm g) s'.
Proof.
  intros Hq Hc [_ ->]%store_Ok. apply Forall_insert; assumption.
Qed.

(** The pressure of a node at rest whose neighbours are at rest is a zero. *)
Lemma pressure_value_quiet g c nx ny :
  arith_laws (Real := Real) → is_finite (Cprv g) = true →
  calm g c → quiet nx → quiet ny →
  is_zero (pressure_value g c nx ny) = true.
Proof.
  intros L Hp [(Pc & Xc & Yc) Hfin] (_ & Xn & _) (_ & _ & Yn).
  unfold finite_cell in Hfin.
  apply andb_prop in Hfin as [[_ Hd]%andb_prop Hnz%negb_true_iff].
  unfold pressure_value. apply (law_div L); [| exact Hd | exact Hnz].
  apply (law_sub L); [exact Pc |]. apply (law_mul_r L); [| exact Hp].
  apply (law_add L); apply (law_sub L); assumption.
Qed.

(** The blend of a velocity at rest between nodes at rest is a zero. *)
Lemma velocity_value_quiet g B R v this_pr prev_pr neighbor_pr :
  arith_laws (Real := Real) → is_finite (Cv g) = true →
  finite_flag B = true → is_finite (rmul (admittance R) (m_z_inv g)) = true →
  is_zero v = true → is_zero this_pr = true → is_zero prev_pr = true →
  is_zero neighbor_pr = true →
  is_zero (velocity_value g B R v this_pr prev_pr neighbor_pr) = true.
Proof.
  intros L Hv [Hb Hb1]%andb_prop Hy Zv Zt Zp Zn.
  unfold velocity_value, airCellUpdate, wallCellUpdate. apply (law_add L).
  - apply (law_mul_r L); [| exact Hb]. apply (law_sub L); [exact Zv |].
    apply (law_mul_r L); [| exact Hv]. apply (law_sub L); assumption.
  - apply (law_mul_r L); [| exact Hb1]. apply (law_mul_r L); assumption.
Qed.

Lemma pressure_body_quiet g i s s' :
  arith_laws (Real := Real) → finite_setup g = true → Forall (calm g) s →
  pressure_body g i s = Ok s' → Forall (calm g) s'.
Proof.
  intros L (_ & Hp & _)%finite_setup_facts Hq Hb.
  unfold pressure_body in Hb. bind_inv Hb.
  pose proof (at_calm _ _ _ _ Hq Ha) as Qa.
  apply (store_calm _ _ _ _ _ Hq) in Hb; [exact Hb |].
  split; [| exact (proj2 Qa)].
  split; [| split]; simpl; [| apply Qa | apply Qa].
  apply pressure_value_quiet; auto.
  - exact (proj1 (at_calm _ _ _ _ Hq Ha1)).
  - exact (proj1 (at_calm _ _ _ _ Hq Ha2)).
Qed.

Lemma velocity_x_body_quiet g i s s' :
  arith_laws (Real := Real) → finite_setup g = true → Forall (calm g) s →
  velocity_x_body g i s = Ok s' → Forall (calm g) s'.
Proof.
  intros L (Hv & _ & _ & _ & Hbds)%finite_setup_facts Hq Hb.
  unfold velocity_x_body in Hb. bind_inv Hb.
  apply at_Ok in Ha as [_ Ha].
  pose proof (proj1 (Forall_lookup _ _) Hbds _ _ Ha) as Hy.
  destruct (at_calm _ _ _ _ Hq Ha0) as [(Pn & _ & _) _].
  destruct (at_calm _ _ _ _ Hq Ha1) as [(Pc & Xc & Yc) Hfin].
  destruct (at_calm _ _ _ _ Hq Ha2) as [(Pp & _ & _) _].
  apply (store_calm _ _ _ _ _ Hq) in Hb; [exact Hb |].
  split; [| exact Hfin]. split; [| split]; simpl; [exact Pc | | exact Yc].
  apply velocity_value_quiet; auto.
  unfold finite_cell in Hfin.
  apply andb_prop in Hfin as [[[Hfx _]%andb_prop _]%andb_prop _]. exact Hfx.
Qed.

Lemma velocity_y_body_quiet g i s s' :
  arith_laws (Real := Real) → finite_setup g = true → Forall (calm g) s →
  velocity_y_body g i s = Ok s' → Forall (calm g) s'.
Proof.
  intros L (Hv & _ & _ & _ & Hbds)%finite_setup_facts Hq Hb.
  unfold velocity_y_body in Hb. bind_inv Hb.
  apply at_Ok in Ha as [_ Ha].
  pose proof (proj1 (Forall_lookup _ _) Hbds _ _ Ha) as Hy.
  destruct (at_calm _ _ _ _ Hq Ha0) as [(Pn & _ & _) _].
  destruct (at_calm _ _ _ _ Hq Ha1) as [(Pc & Xc & Yc) Hfin].
  destruct (at_calm _ _ _ _ Hq Ha2) as [(Pp & _ & _) _].
  apply (store_calm _ _ _ _ _ Hq) in Hb; [exact Hb |].
  split; [| exact Hfin]. split; [| split]; simpl; [exact Pc | exact Xc |].
  apply velocity_value_quiet; auto.
  unfold finite_cell in Hfin.
  apply andb_prop in Hfin as [[[_ Hfy]%andb_prop _]%andb_prop _]. exact Hfy.
Qed.

Lemma edge_body_quiet g (set : @Cell Real → Real → @Cell Real) idx1 idx2 src i s s' :
  arith_laws (Real := Real) → is_finite (m_z_inv g) = true →
  (∀ c v, is_zero v = true → calm g c → calm g (set c v)) →
  Forall (calm g) s →
  edge_body set (m_z_inv g) idx1 idx2 src i s = Ok s' → Forall (calm g) s'.
Proof.
  intros L Hz Hset Hq Hb. unfold edge_body in Hb. bind_inv Hb.
  pose proof (at_calm _ _ _ _ Hq Ha) as Q1.
  assert (Hq1 : Forall (calm g) a0).
  { apply (store_calm _ _ _ _ _ Hq) in Ha0; [exact Ha0 |].
    apply Hset; [| exact Q1].
    apply (law_mul_l L); [| exact Hz]. apply (law_neg L). apply Q1. }
  destruct (at_calm _ _ _ _ Hq1 Ha1) as [(Pp & _) _].
  apply (store_calm _ _ _ _ _ Hq1) in Hb; [exact Hb |].
  apply Hset; [| exact (at_calm _ _ _ _ Hq1 Ha2)].
  apply (law_mul_l L); assumption.
Qed.

(** The update phases keep a field at rest at rest. *)
Lemma update_phases_quiet g s s' :
  arith_laws (Real := Real) → finite_setup g = true → Forall (calm g) s →
  update_phases g s = Ok s' → Forall (calm g) s'.
Proof.
  intros L Hfin Hq Hu. unfold update_phases in Hu. bind_inv Hu.
  pose proof (finite_setup_facts g Hfin) as (_ & _ & Hz & _).
  assert (Q1 : Forall (calm g) a).
  { apply (for_loop_keeps (Forall (calm g)) (pressure_body g) _ _ _ _) in Ha; auto.
    intros i t t'. apply pressure_body_quiet; assumption. }
  assert (Q2 : Forall (calm g) a0).
  { apply (for_loop_keeps (Forall (calm g)) (velocity_x_body g) _ _ _ _) in Ha0; auto.
    intros i t t'. apply velocity_x_body_quiet; assumption. }
  assert (Q3 : Forall (calm g) a1).
  { apply (for_loop_keeps (Forall (calm g)) (velocity_y_body g) _ _ _ _) in Ha1; auto.
    intros i t t'. apply velocity_y_body_quiet; assumption. }
  assert (Q4 : Forall (calm g) a2).
  { apply (for_loop_keeps (Forall (calm g)) (absorb_tb_body g) _ _ _ _) in Ha2; auto.
    intros i t t' Ht Hb. rewrite absorb_tb_body_edge in Hb.
    apply (edge_body_quiet g _ _ _ _ _ _ _ L Hz) in Hb; auto.
    intros c v Zv [(Pc & Xc & Yc) Hc]. repeat split; assumption. }
  apply (for_loop_keeps (Forall (calm g)) (absorb_lr_body g) _ _ _ _) in Hu; auto.
  intros i t t' Ht Hb. rewrite absorb_lr_body_edge in Hb.
  apply (edge_body_quiet g _ _ _ _ _ _ _ L Hz) in Hb; auto.
  intros c v Zv [(Pc & Xc & Yc) Hc]. repeat split; assumption.
Qed.

Lemma reset_phase_quiet g s0 :
  arith_laws (Real := Real) → finite_setup g = true →
  Z.of_nat (length (m_grid g)) = loopSize g →
  reset_phase g (m_grid g) = Ok s0 → Forall (calm g) s0.
Proof.
  intros L (_ & _ & _ & Hcells & _)%finite_setup_facts Hlen Hr.
  rewrite (reset_phase_exact g _ Hlen) in Hr. injection Hr as <-.
  apply Forall_fmap. eapply Forall_impl; [exact Hcells |].
  intros c Hc. split; [| exact Hc].
  repeat split; exact (law_zero L).
Qed.

Lemma calm_quiet g s : Forall (calm g) s → Forall quiet s.
Proof. intros Hq. eapply Forall_impl; [exact Hq |]. intros c Hc. exact (proj1 Hc). Qed.

(** X7.  Whatever the excitation, a call that returns after at least one
    time step has recorded, as the sample of time index 0 of every node, a
    cell at rest: its pressure and its velocities compare equal to zero, the
    first excitation sample being added only after the first recording.  The
    arithmetic obeys the laws of zero and one that a field and IEEE
    arithmetic share, the constants, weights and divisors of the step are
    finite, and the cell array holds exactly the nodes of the grid. *)
Theorem first_samples_are_at_rest g listener g' :
  arith_laws (Real := Real) → finite_setup g = true →
  Z.of_nat (length (m_grid g)) = loopSize g →
  1 ≤ m_responseLength g →
  GenerateResponseCPU g listener = Returns g' →
  ∀ k : nat, Z.of_nat k < loopSize g →
    ∃ series c, m_pulseResponse g' !! k = Some series
                ∧ series !! 0%nat = Some c ∧ quiet c.
Proof.
  intros L Hfin Hlen Hrl (s0 & cells & cube & Hreset & Hloop & ->)%returns_inv k Hk.
  destruct (Z.to_nat (m_responseLength g - 0)) as [|n] eqn:Hn; [lia |].
  simpl in Hloop. apply bind_Ok in Hloop as ([c1 cube1] & Hstep & Hrest).
  apply time_step_inv in Hstep as (c' & Hu & Hrec & _).
  pose proof (update_phases_quiet g s0 c' L Hfin
                (reset_phase_quiet g _ L Hfin Hlen Hreset) Hu) as Hq.
  destruct (lookup_lt_is_Some_2 c' k) as [ck Hck].
  { pose proof (update_phases_keeps_flags g _ _ Hu) as Hf1.
    pose proof (reset_phase_keeps_flags g _ _ Hreset) as Hf0.
    rewrite <- (length_fmap flags c'), Hf1, Hf0, length_fmap. lia. }
  destruct (record_phase_sample g c' 0 _ cube1 k ck Hrec Hk Hck) as (series1 & Hs1 & Hs10).
  pose proof (later_steps_keep_first g listener n (0 + 1) _ _ ltac:(lia) Hrest) as Hcol.
  simpl in Hcol.
  assert (Hrow : column 0 cube !! k = column 0 cube1 !! k) by (rewrite Hcol; reflexivity).
  unfold column in Hrow. rewrite !list_lookup_fmap, Hs1 in Hrow. simpl in Hrow.
  destruct (cube !! k) as [series|] eqn:Hser; [| discriminate].
  simpl in Hrow. injection Hrow as Hrow.
  exists series, ck. split; [exact Hser | split; [rewrite Hrow; exact Hs10 |]].
  exact (proj1 (proj1 (Forall_lookup _ _) Hq k ck Hck)).
Qed.

(** X8.  A silent excitation gives a silent response: when every sample of
    the excitation compares equal to zero, a call that returns has recorded a
    cell at rest for every node at every time index, and leaves all cells at
    rest.  The arithmetic obeys the laws of zero and one that a field and
    IEEE arithmetic share, the constants, weights and divisors of the step
    are finite, and the cell array holds exactly the nodes of the grid. *)
Theorem silent_excitation_silent_response g listener g' :
  arith_laws (Real := Real) → finite_setup g = true →
  Z.of_nat (length (m_grid g)) = loopSize g →
  Forall (λ p, is_zero p = true) (m_pulse g) →
  GenerateResponseCPU g listener = Returns g' →
  Forall quiet (m_grid g')
  ∧ ∀ (k : nat) series (t : nat) c,
      Z.of_nat k < loopSize g → m_pulseResponse g' !! k = Some series →
      Z.of_nat t < m_responseLength g → series !! t = Some c →
      quiet c.
Proof.
  intros L Hfin Hlen Hsilent (s0 & cells & cube & Hreset & Hloop & ->)%returns_inv.
  simpl.
  pose proof (for_loop_inv
    (λ t st, Forall (calm g) (fst st)
             ∧ ∀ (k : nat) series (j : nat) cj,
                 Z.of_nat k < loopSize g → snd st !! k = Some series →
                 Z.of_nat j < t → series !! j = Some cj → quiet cj)
    (time_step g listener) (Z.to_nat (m_responseLength g - 0)) 0
    (s0, m_pulseResponse g) (cells, cube)) as Hinv.
  destruct Hinv as [Hq Hall]; [| | exact Hloop |].
  - intros t [c cube0] [c'' cube'] Ht [Hq Hall] Hstep. simpl in *.
    apply time_step_inv in Hstep as (c' & Hu & Hrec & Hex).
    pose proof (update_phases_quiet g c c' L Hfin Hq Hu) as Hq'. split.
    + apply excite_result in Hex as (cl & p & Hcl & Hp & ->).
      apply Forall_insert; [exact Hq' |].
      destruct (at_calm _ _ _ _ Hq' Hcl) as [(Pc & Xc & Yc) Hc].
      apply at_Ok in Hp as [_ Hp].
      pose proof (proj1 (Forall_lookup _ _) Hsilent _ _ Hp) as Zp.
      split; [| exact Hc].
      split; [| split]; simpl; [apply (law_add L); assumption | exact Xc | exact Yc].
    + intros k series j cj Hk Hs Hj Hcj.
      destruct (record_phase_result g c' t cube0 cube' Hrec) as (_ & Hin & _).
      destruct (Hin k ltac:(lia)) as (series' & Hrs & Hl).
      apply record_series_inv in Hrs as (ck & sr & Hck & [_ Hsr]%at_Ok & Htr & ->).
      rewrite Nat2Z.id in Hsr.
      assert (series = <[Z.to_nat t := ck]> sr) as -> by congruence.
      destruct (decide (j = Z.to_nat t)) as [-> | Hne].
      * rewrite list_lookup_insert_eq in Hcj by lia. injection Hcj as <-.
        exact (proj1 (at_calm _ _ _ _ Hq' Hck)).
      * rewrite list_lookup_insert_ne in Hcj by congruence.
        apply (Hall k sr j cj Hk Hsr); [lia | exact Hcj].
  - split; [exact (reset_phase_quiet g _ L Hfin Hlen Hreset) |].
    intros k series j cj _ _ Hj. lia.
  - simpl in *. split; [exact (calm_quiet g _ Hq) |].
    intros k series t c Hk Hs Ht Hc. apply (Hall k series t c Hk Hs); [lia | exact Hc].
Qed.

End Rest.

(** ** Shapes, and the cube as the history of the cells *)

Lemma returns_shape g listener g' :
  GenerateResponseCPU g listener = Returns g' →
  flags <$> m_grid g' = flags <$> m_grid g
  ∧ length <$> m_pulseResponse g' = length <$> m_pulseResponse g.
Proof.
  intros (s0 & cells & cube & Hreset & Hloop & ->)%returns_inv. simpl.
  pose proof (for_loop_keeps
    (λ st, flags <$> fst st = flags <$> m_grid g
           ∧ length <$> snd st = length <$> m_pulseResponse g)
    (time_step g listener) (Z.to_nat (m_responseLength g - 0)) 0
    (s0, m_pulseResponse g) (cells, cube)) as Hk.
  apply Hk; [| | exact Hloop].
  - intros i st st' [Hf Hsh] Hstep.
    destruct (time_step_keeps g listener i st st' Hstep) as [Hf' Hsh'].
    split; congruence.
  - split; [exact (reset_phase_keeps_flags g _ _ Hreset) | reflexivity].
Qed.

(** X9.  With no time step to run ([m_responseLength] at most 0) and a cell
    array of exactly the nodes of the grid, the call returns for every
    listener position, also one outside the grid: it has reset the cells
    and has not touched the response cube. *)
Theorem no_time_steps g listener :
  m_responseLength g ≤ 0 →
  Z.of_nat (length (m_grid g)) = loopSize g →
  ∃ g', GenerateResponseCPU g listener = Returns g'
        ∧ m_pulseResponse g' = m_pulseResponse g
        ∧ m_grid g' = (λ c, MkCell r0 r0 r0 (b c) (by_ c)) <$> m_grid g.
Proof.
  intros Hrl Hlen. unfold GenerateResponseCPU, simulate, for_range.
  rewrite (reset_phase_exact g _ Hlen). simpl.
  replace (Z.to_nat (m_responseLength g - 0)) with 0%nat by lia. simpl.
  eexists. split; [reflexivity | split; reflexivity].
Qed.

(** X11.  A call of [GenerateResponse] that returns has resized nothing: the
    cell array has as many cells, the response cube as many series and every
    series as many samples as before; and every field of the grid other than
    the pressures and velocities of the cells and the samples of the cube is
    what it was. *)
Theorem call_keeps_shapes g listener g' :
  GenerateResponse g listener = Returns g' →
  length (m_grid g') = length (m_grid g)
  ∧ length <$> m_pulseResponse g' = length <$> m_pulseResponse g
  ∧ same_static g g'.
Proof.
  unfold GenerateResponse, GenerateResponseGPU.
  destruct (is_CPU (m_executionType g)); [| discriminate].
  intros Hcall. destruct (returns_shape g listener g' Hcall) as [Hf Hsh].
  split; [| split; [exact Hsh |]].
  - rewrite <- (length_fmap flags (m_grid g')), Hf, length_fmap. reflexivity.
  - apply returns_inv in Hcall as (s0 & cells & cube & _ & _ & ->).
    simpl in Hf. unfold same_static. simpl. rewrite Hf. repeat split; reflexivity.
Qed.

(** X10.  Generating and then querying at the listener's own position: when
    the grid offset is neutral for the listener's coordinates, the call has
    returned after at least one step, and the arrays had exactly the shape of
    the grid, [GetImpulseResponse] on the resulting grid returns, for the
    listener position, the series recorded for the listener node, of
    [m_responseLength] samples, together with that length. *)
Theorem query_at_listener g listener g' (ctx : @Context Real) :
  GenerateResponseCPU g listener = Returns g' → GetGrid ctx = g' →
  1 ≤ m_responseLength g →
  Z.of_nat (length (m_grid g)) = loopSize g →
  cube_ok g (m_pulseResponse g) →
  radd (x3 listener) (x2 (m_gridOffset g)) = x3 listener →
  radd (z3 listener) (y2 (m_gridOffset g)) = z3 listener →
  to_int (radd (y2 (m_gridSize g)) (of_int 1)) = gridy g + 1 →
  ∃ series,
    GetImpulseResponse (Some ctx) listener = Ok (series, m_responseLength g)
    ∧ m_pulseResponse g' !! Z.to_nat (listenerPos g listener) = Some series
    ∧ Z.of_nat (length series) = m_responseLength g.
Proof.
  intros Hcall Hctx Hrl Hlen Hok Hx Hz Hstride.
  destruct (returns_room g listener g' Hcall) as (_ & Hroom).
  destruct (Hroom Hrl) as (Hpos & _).
  destruct (returns_shape g listener g' Hcall) as [_ Hsh].
  pose proof (cube_ok_shape g _ _ Hsh Hok) as [Hn Hall].
  destruct (lookup_lt_is_Some_2 (m_pulseResponse g') (Z.to_nat (listenerPos g listener)))
    as [series Hs]; [lia |].
  exists series. split; [| split; [exact Hs |]].
  - apply returns_inv in Hcall as (s0 & cells & cube & _ & _ & E).
    unfold GetImpulseResponse. rewrite Hctx.
    assert (Hidx : GetResponse g'
              (Vec2 (rdiv (x3 listener) (GetDX g')) (rdiv (z3 listener) (GetDX g')))
              = at_ (m_pulseResponse g') (listenerPos g listener)).
    { subst g'. unfold GetResponse, INDEX, GetDX, listenerPos, listenerPosX, listenerPosY.
      simpl. rewrite Hx, Hz, Hstride. reflexivity. }
    rewrite Hidx. assert (Hat : at_ (m_pulseResponse g') (listenerPos g listener) = Ok series).
    { apply at_Ok. split; [lia | exact Hs]. }
    rewrite Hat. simpl. subst g'. reflexivity.
  - exact (proj1 (Forall_lookup _ _) Hall _ _ Hs).
Qed.

(** X12.  The response cube is the history of the cell store.  The cells
    evolve from the reset cells by the update phases and the excitation
    alone, independently of the cube; a call that returns leaves the cells
    of [evolve] after [m_responseLength] steps, and for every time index [t]
    below [m_responseLength] and every node [k] of the grid the sample
    [m_pulseResponse[k][t]] is the cell of node [k] at the moment step [t]
    records, that is after the update phases of step [t] and before its
    excitation; no later step overwrites it. *)
Theorem cube_is_history g listener g' :
  GenerateResponseCPU g listener = Returns g' →
  ∃ cells0,
    reset_phase g (m_grid g) = Ok cells0
    ∧ evolve g listener (Z.to_nat (m_responseLength g)) cells0 = Ok (m_grid g')
    ∧ ∀ (t k : nat),
        Z.of_nat t < m_responseLength g → Z.of_nat k < loopSize g →
        ∃ ct c series,
          observed g listener t cells0 = Ok ct ∧ ct !! k = Some c
          ∧ m_pulseResponse g' !! k = Some series ∧ series !! t = Some c.
Proof.
  intros (s0 & cells & cube & Hreset & Hloop & ->)%returns_inv. simpl.
  exists s0. split; [exact Hreset |].
  pose proof (for_loop_inv
    (λ t st, evolve g listener (Z.to_nat t) s0 = Ok (fst st)
             ∧ ∀ (j k : nat), Z.of_nat j < t → Z.of_nat k < loopSize g →
                 ∃ cj c series,
                   observed g listener j s0 = Ok cj ∧ cj !! k = Some c
                   ∧ snd st !! k = Some series ∧ series !! j = Some c)
    (time_step g listener) (Z.to_nat (m_responseLength g - 0)) 0
    (s0, m_pulseResponse g) (cells, cube)) as Hinv.
  destruct Hinv as [Hev Hall]; [| | exact Hloop |].
  - intros t [cs rs] [cs'' rs'] Ht [Hev Hall] Hstep. simpl in *.
    apply time_step_inv in Hstep as (cs' & Hu & Hrec & Hex).
    assert (Hobs : observed g listener (Z.to_nat t) s0 = Ok cs').
    { unfold observed. rewrite Hev. exact Hu. }
    split.
    + replace (Z.to_nat (t + 1)) with (S (Z.to_nat t)) by lia. simpl.
      rewrite Hev. simpl. rewrite Hu. simpl. rewrite Z2Nat.id by lia. exact Hex.
    + intros j k Hj Hk.
      destruct (record_phase_result g cs' t rs rs' Hrec) as (_ & Hin & _).
      destruct (Hin k ltac:(lia)) as (series' & Hrs & Hl).
      apply record_series_inv in Hrs as (ck & sr & [_ Hck]%at_Ok & [_ Hsr]%at_Ok & Htr & ->).
      rewrite Nat2Z.id in Hck, Hsr.
      destruct (decide (j = Z.to_nat t)) as [-> | Hne].
      * exists cs', ck, (<[Z.to_nat t := ck]> sr).
        repeat split; try assumption. apply list_lookup_insert_eq. lia.
      * destruct (Hall j k ltac:(lia) Hk) as (cj & c & series & Ho & Hc & Hs & Hsj).
        assert (series = sr) as -> by congruence.
        exists cj, c, (<[Z.to_nat t := ck]> sr).
        repeat split; try assumption.
        rewrite list_lookup_insert_ne by congruence. exact Hsj.
  - split; [reflexivity |]. intros j k Hj. lia.
  - simpl in *. split.
    + destruct (decide (0 ≤ m_responseLength g)) as [Hpos | Hneg].
      * replace (m_responseLength g) with (0 + Z.of_nat (Z.to_nat (m_responseLength g - 0)))
          at 1 by lia.
        exact Hev.
      * replace (Z.to_nat (m_responseLength g)) with (Z.to_nat (0 + Z.of_nat (Z.to_nat (m_responseLength g - 0)))) by lia.
        exact Hev.
    + intros t k Ht Hk. apply Hall; lia.
Qed.

(** X13.  Every step leaves the outer edges impedance-matched.  When the
    four update phases end normally on a grid of at least two rows and two
    columns, the cells they leave, which are the cells the step records,
    satisfy: for [i] below [gridy], node [i] of the first row has
    [vx = -pr * z_inv] and node [i] of the last row has [vx] equal to the
    pressure of the node above it times [z_inv]; for every row [i] below
    [gridx], the first node of the row has [vy = -pr * z_inv] and its last
    node has [vy] equal to the pressure of the node before it times [z_inv];
    all pressures being those of the same, final cells.  The later
    left/right loop does not undo what the top/bottom loop has assigned. *)
Theorem step_leaves_edges_matched g s s' :
  1 ≤ gridx g → 1 ≤ gridy g →
  update_phases g s = Ok s' →
  (∀ i, 0 ≤ i < gridy g →
     ∃ c, s' !! Z.to_nat i = Some c ∧ vx c = rmul (rneg (pr c)) (m_z_inv g))
  ∧ (∀ i, 0 ≤ i < gridy g →
       ∃ c p, s' !! Z.to_nat (gridx g * (gridy g + 1) + i) = Some c
              ∧ s' !! Z.to_nat ((gridx g - 1) * (gridy g + 1) + i) = Some p
              ∧ vx c = rmul (pr p) (m_z_inv g))
  ∧ (∀ i, 0 ≤ i < gridx g →
       ∃ c, s' !! Z.to_nat (i * (gridy g + 1)) = Some c
            ∧ vy c = rmul (rneg (pr c)) (m_z_inv g))
  ∧ (∀ i, 0 ≤ i < gridx g →
       ∃ c p, s' !! Z.to_nat (i * (gridy g + 1) + gridy g) = Some c
              ∧ s' !! Z.to_nat (i * (gridy g + 1) + gridy g - 1) = Some p
              ∧ vy c = rmul (pr p) (m_z_inv g)).
Proof.
  intros Hgx Hgy Hu. unfold update_phases in Hu. bind_inv Hu.
  rename a2 into s4.
  destruct (absorb_tb_result g _ _ Hgx Ha2) as (_ & Htop & Hbot & _).
  destruct (absorb_lr_result g _ _ Hgy Hu) as (Hpr & Hleft & Hright & _).
  pose proof (absorb_lr_phase_keeps vx g _ _ (λ _ _, eq_refl) Hu) as Hvx.
  assert (Hsame : ∀ (k : nat) c4, s4 !! k = Some c4 →
            ∃ c, s' !! k = Some c ∧ pr c = pr c4 ∧ vx c = vx c4).
  { intros k c4 Hk.
    assert (E1 : (pr <$> s') !! k = (pr <$> s4) !! k) by (rewrite Hpr; reflexivity).
    assert (E2 : (vx <$> s') !! k = (vx <$> s4) !! k) by (rewrite Hvx; reflexivity).
    rewrite !list_lookup_fmap, Hk in E1, E2.
    destruct (s' !! k) as [c|]; [| discriminate].
    simpl in E1, E2. injection E1 as E1. injection E2 as E2. eauto. }
  split; [| split; [| split]].
  - intros i Hi. destruct (Htop i Hi) as (c0 & _ & Hs4).
    destruct (Hsame _ _ Hs4) as (c & Hc & Ep & Ev).
    exists c. split; [exact Hc |]. rewrite Ev, Ep. reflexivity.
  - intros i Hi. destruct (Hbot i Hi) as (c0 & p0 & _ & Hp0 & Hs4).
    destruct (Hsame _ _ Hs4) as (c & Hc & Ep & Ev).
    assert (Hp4 : ∃ p4, s4 !! Z.to_nat ((gridx g - 1) * (gridy g + 1) + i) = Some p4
                        ∧ pr p4 = pr p0).
    { pose proof (absorb_tb_phase_keeps pr g _ _ (λ _ _, eq_refl) Ha2) as Hpr4.
      assert (E : (pr <$> s4) !! Z.to_nat ((gridx g - 1) * (gridy g + 1) + i)
                  = (pr <$> a1) !! Z.to_nat ((gridx g - 1) * (gridy g + 1) + i))
        by (rewrite Hpr4; reflexivity).
      rewrite !list_lookup_fmap, Hp0 in E.
      destruct (s4 !! Z.to_nat ((gridx g - 1) * (gridy g + 1) + i)) as [p4|];
        [| discriminate].
      simpl in E. injection E as E. eauto. }
    destruct Hp4 as (p4 & Hp4 & Ep4).
    destruct (Hsame _ _ Hp4) as (p & Hp & Epp & _).
    exists c, p. split; [exact Hc | split; [exact Hp |]].
    rewrite Ev, Epp, Ep4. reflexivity.
  - intros i Hi. destruct (Hleft i Hi) as (c0 & _ & Hs'). eauto.
  - intros i Hi. destruct (Hright i Hi) as (c0 & p0 & _ & Hp0 & Hs').
    destruct (Hsame _ _ Hp0) as (p & Hp & Epp & _).
    exists (set_vy c0 (rmul (pr p0) (m_z_inv g))), p.
    split; [exact Hs' | split; [exact Hp |]]. simpl. rewrite Epp. reflexivity.
Qed.

Lemma well_formed_call_returns g listener :
  wf_grid g = true → wf_response g = true → wf_listener g listener = true →
  ∃ g', GenerateResponseCPU g listener = Returns g'.
Proof.
  intros Hwf Hresp Hl.
  destruct (simulate_total g listener Hwf Hresp Hl) as ([cells cube] & Hsim & _).
  unfold GenerateResponseCPU. rewrite Hsim. eauto.
Qed.

End Coverage.

(** ** The further properties on the example grids *)

Lemma demo_wf : wf_grid demo_grid = true.
Proof. vm_compute. reflexivity. Qed.

(** The pressure loop on the example grid, at its centre node. *)
Lemma pressure_phase_nodewise_witness :
  ∃ s', pressure_phase demo_grid demo_cells = Ok s'
        ∧ length s' = length demo_cells
        ∧ ∃ c bd nextX nextY,
            demo_cells !! 4%nat = Some c ∧ m_boundaries demo_grid !! 4%nat = Some bd
            ∧ at_ demo_cells ((4 + gridy demo_grid + 1) * b c) = Ok nextX
            ∧ at_ demo_cells ((4 + 1) * b c) = Ok nextY
            ∧ s' !! 4%nat =
                Some (MkCell
                        (rdiv (rsub (pr c)
                                 (rmul (Cprv demo_grid)
                                    (radd (rsub (vx nextX) (vx c))
                                          (rsub (vy nextY) (vy c)))))
                              (radd r1 (rmul (rsub r1 (of_int (b c))) (m_dt demo_grid))))
                        (vx c) (vy c) (b c) (by_ c)).
Proof.
  destruct (pressure_phase_total demo_grid demo_cells demo_wf eq_refl) as [s' Hs'].
  destruct (pressure_phase_nodewise demo_grid demo_cells s' Hs') as (Hlen & Hin & _).
  exists s'. split; [exact Hs' | split; [exact Hlen |]].
  apply (Hin 4%nat). vm_compute. reflexivity.
Defined.

(** The velocity-x loop on the example grid keeps pressures, y velocities,
    flags and the first row. *)
Lemma phases_assign_one_field_witness :
  ∃ s', velocity_x_phase demo_grid demo_cells = Ok s'
        ∧ pr <$> s' = pr <$> demo_cells ∧ vy <$> s' = vy <$> demo_cells
        ∧ flags <$> s' = flags <$> demo_cells
        ∧ ∀ k : nat, Z.of_nat k < gridy demo_grid + 1 → s' !! k = demo_cells !! k.
Proof.
  destruct (velocity_x_phase_total demo_grid demo_cells demo_wf eq_refl) as [s' Hs'].
  destruct (phases_assign_one_field demo_grid demo_listener 0 demo_cells s')
    as (_ & Hx & _).
  destruct (Hx Hs') as (Hpr & Hvy & Hfl & Hrow).
  exists s'. repeat split; try assumption.
  apply Hrow. vm_compute. discriminate.
Defined.

(** The top/bottom loop on the example grid. *)
Lemma absorb_tb_phase_edges_witness :
  ∃ s', absorb_tb_phase demo_grid demo_cells = Ok s'
        ∧ pr <$> s' = pr <$> demo_cells
        ∧ (∀ i, 0 ≤ i < gridy demo_grid →
             ∃ c0, demo_cells !! Z.to_nat i = Some c0
                   ∧ s' !! Z.to_nat i
                     = Some (set_vx c0 (rmul (rneg (pr c0)) (m_z_inv demo_grid))))
        ∧ (∀ k : nat,
             gridy demo_grid ≤ Z.of_nat k < gridx demo_grid * (gridy demo_grid + 1)
             ∨ gridx demo_grid * (gridy demo_grid + 1) + gridy demo_grid ≤ Z.of_nat k →
             s' !! k = demo_cells !! k).
Proof.
  destruct (absorb_tb_phase_total demo_grid demo_cells demo_wf eq_refl) as [s' Hs'].
  destruct (absorb_tb_phase_edges demo_grid demo_cells s') as (Hpr & Htop & _ & Hrest);
    [vm_compute; discriminate | exact Hs' |].
  exists s'. repeat split; assumption.
Defined.

(** The left/right loop on the example grid. *)
Lemma absorb_lr_phase_edges_witness :
  ∃ s', absorb_lr_phase demo_grid demo_cells = Ok s'
        ∧ pr <$> s' = pr <$> demo_cells
        ∧ (∀ i, 0 ≤ i < gridx demo_grid →
             ∃ c0 p,
               demo_cells !! Z.to_nat (i * (gridy demo_grid + 1) + gridy demo_grid)
               = Some c0
               ∧ demo_cells !! Z.to_nat (i * (gridy demo_grid + 1) + gridy demo_grid - 1)
                 = Some p
               ∧ s' !! Z.to_nat (i * (gridy demo_grid + 1) + gridy demo_grid)
                 = Some (set_vy c0 (rmul (pr p) (m_z_inv demo_grid))))
        ∧ (∀ k : nat,
             gridx demo_grid * (gridy demo_grid + 1) ≤ Z.of_nat k
             ∨ (0 < Z.of_nat k mod (gridy demo_grid + 1) < gridy demo_grid) →
             s' !! k = demo_cells !! k).
Proof.
  destruct (absorb_lr_phase_total demo_grid demo_cells demo_wf eq_refl) as [s' Hs'].
  destruct (absorb_lr_phase_edges demo_grid demo_cells s') as (Hpr & _ & Hright & Hrest);
    [vm_compute; discriminate | exact Hs' |].
  exists s'. repeat split; assumption.
Defined.

(** Node 2 of the two-by-two grid of medium nodes is in the last row. *)
Lemma medium_last_row_is_undefined_witness :
  m_grid open_grid !! 2%nat = Some (node (qc 3 1) 1 1)
  ∧ GenerateResponseCPU open_grid demo_listener = Undefined OutOfBounds.
Proof.
  split; [reflexivity |].
  apply (medium_last_row_is_undefined open_grid demo_listener 2 (node (qc 3 1) 1 1)).
  - vm_compute. discriminate.
  - reflexivity.
  - vm_compute. reflexivity.
  - reflexivity.
  - vm_compute. discriminate.
Defined.

(** The call on the example grid returns, so it had room. *)
Lemma returning_call_had_room_witness :
  ∃ g', GenerateResponseCPU demo_grid demo_listener = Returns g'
        ∧ 0 ≤ listenerPos demo_grid demo_listener < Z.of_nat (length (m_grid demo_grid))
        ∧ m_responseLength demo_grid ≤ Z.of_nat (length (m_pulse demo_grid))
        ∧ loopSize demo_grid ≤ Z.of_nat (length (m_boundaries demo_grid))
        ∧ loopSize demo_grid ≤ Z.of_nat (length (m_pulseResponse demo_grid)).
Proof.
  destruct (well_formed_call_returns demo_grid demo_listener) as [g' Hg'];
    [vm_compute; reflexivity | vm_compute; reflexivity | vm_compute; reflexivity |].
  destruct (returning_call_had_room demo_grid demo_listener g' Hg') as (_ & Hroom).
  destruct Hroom as (Hpos & Hpulse & Hbd & Hcube & _); [vm_compute; discriminate |].
  exists g'. repeat split; try assumption; apply Hpos.
Defined.

(** The first samples of the example grid, whose excitation starts with 1,
    in exact arithmetic and in binary64. *)
Lemma first_samples_are_at_rest_witness :
  (∃ g', GenerateResponseCPU demo_grid demo_listener = Returns g'
         ∧ ∀ k : nat, Z.of_nat k < loopSize demo_grid →
             ∃ series c, m_pulseResponse g' !! k = Some series
                         ∧ series !! 0%nat = Some c ∧ quiet c)
  ∧ (∃ g', GenerateResponseCPU b64_grid b64_listener = Returns g'
           ∧ ∀ k : nat, Z.of_nat k < loopSize b64_grid →
               ∃ series c, m_pulseResponse g' !! k = Some series
                           ∧ series !! 0%nat = Some c ∧ quiet c).
Proof.
  split.
  - destruct (well_formed_call_returns demo_grid demo_listener) as [g' Hg'];
      [vm_compute; reflexivity | vm_compute; reflexivity | vm_compute; reflexivity |].
    exists g'. split; [exact Hg' |].
    apply (first_samples_are_at_rest demo_grid demo_listener g' Qc_laws).
    + vm_compute. reflexivity.
    + vm_compute. reflexivity.
    + vm_compute. discriminate.
    + exact Hg'.
  - destruct (well_formed_call_returns b64_grid b64_listener) as [g' Hg'];
      [vm_compute; reflexivity | vm_compute; reflexivity | vm_compute; reflexivity |].
    exists g'. split; [exact Hg' |].
    apply (first_samples_are_at_rest b64_grid b64_listener g' b64_laws).
    + vm_compute. reflexivity.
    + vm_compute. reflexivity.
    + vm_compute. discriminate.
    + exact Hg'.
Defined.

(** The example grids with a silent excitation, in exact arithmetic and in
    binary64. *)
Lemma silent_excitation_silent_response_witness :
  (∃ g', GenerateResponseCPU silent_grid demo_listener = Returns g'
         ∧ Forall quiet (m_grid g')
         ∧ ∀ (k : nat) series (t : nat) c,
             Z.of_nat k < loopSize silent_grid → m_pulseResponse g' !! k = Some series →
             Z.of_nat t < m_responseLength silent_grid → series !! t = Some c →
             quiet c)
  ∧ (∃ g', GenerateResponseCPU b64_silent_grid b64_listener = Returns g'
           ∧ Forall quiet (m_grid g')
           ∧ ∀ (k : nat) series (t : nat) c,
               Z.of_nat k < loopSize b64_silent_grid →
               m_pulseResponse g' !! k = Some series →
               Z.of_nat t < m_responseLength b64_silent_grid → series !! t = Some c →
               quiet c).
Proof.
  split.
  - destruct (well_formed_call_returns silent_grid demo_listener) as [g' Hg'];
      [vm_compute; reflexivity | vm_compute; reflexivity | vm_compute; reflexivity |].
    exists g'. split; [exact Hg' |].
    apply (silent_excitation_silent_response silent_grid demo_listener g' Qc_laws).
    + vm_compute. reflexivity.
    + vm_compute. reflexivity.
    + repeat constructor.
    + exact Hg'.
  - destruct (well_formed_call_returns b64_silent_grid b64_listener) as [g' Hg'];
      [vm_compute; reflexivity | vm_compute; reflexivity | vm_compute; reflexivity |].
    exists g'. split; [exact Hg' |].
    apply (silent_excitation_silent_response b64_silent_grid b64_listener g' b64_laws).
    + vm_compute. reflexivity.
    + vm_compute. reflexivity.
    + repeat constructor.
    + exact Hg'.
Defined.

(** No time step, and a listener far outside the grid. *)
Lemma no_time_steps_witness :
  wf_listener idle_grid far_listener = false
  ∧ ∃ g', GenerateResponseCPU idle_grid far_listener = Returns g'
          ∧ m_pulseResponse g' = m_pulseResponse idle_grid
          ∧ m_grid g' = (λ c, MkCell r0 r0 r0 (b c) (by_ c)) <$> m_grid idle_grid.
Proof.
  split; [vm_compute; reflexivity |].
  apply (no_time_steps idle_grid far_listener).
  - vm_compute. discriminate.
  - vm_compute. reflexivity.
Defined.

(** Generating on the grid with zero offset and querying at the listener. *)
Lemma query_at_listener_witness :
  ∃ g' series,
    GenerateResponseCPU centred_grid centre_listener = Returns g'
    ∧ GetImpulseResponse (Some (demo_context g')) centre_listener
      = Ok (series, m_responseLength centred_grid)
    ∧ m_pulseResponse g' !! Z.to_nat (listenerPos centred_grid centre_listener)
      = Some series
    ∧ Z.of_nat (length series) = m_responseLength centred_grid.
Proof.
  destruct (well_formed_call_returns centred_grid centre_listener) as [g' Hg'];
    [vm_compute; reflexivity | vm_compute; reflexivity | vm_compute; reflexivity |].
  destruct (query_at_listener centred_grid centre_listener g' (demo_context g') Hg' eq_refl)
    as (series & Hq & Hs & Hl).
  - vm_compute. discriminate.
  - vm_compute. reflexivity.
  - apply wf_response_facts. vm_compute. reflexivity.
  - apply Qc_is_canon. vm_compute. reflexivity.
  - apply Qc_is_canon. vm_compute. reflexivity.
  - vm_compute. reflexivity.
  - exists g', series. repeat split; assumption.
Defined.

(** The call on the example grid resizes nothing. *)
Lemma call_keeps_shapes_witness :
  ∃ g', GenerateResponse demo_grid demo_listener = Returns g'
        ∧ length (m_grid g') = length (m_grid demo_grid)
        ∧ length <$> m_pulseResponse g' = length <$> m_pulseResponse demo_grid
        ∧ same_static demo_grid g'.
Proof.
  destruct (well_formed_call_returns demo_grid demo_listener) as [g' Hg'];
    [vm_compute; reflexivity | vm_compute; reflexivity | vm_compute; reflexivity |].
  exists g'. split; [exact Hg' |].
  exact (call_keeps_shapes demo_grid demo_listener g' Hg').
Defined.

(** The cube of the example grid is the history of its cells. *)
Lemma cube_is_history_witness :
  ∃ g' cells0,
    GenerateResponseCPU demo_grid demo_listener = Returns g'
    ∧ reset_phase demo_grid (m_grid demo_grid) = Ok cells0
    ∧ evolve demo_grid demo_listener (Z.to_nat (m_responseLength demo_grid)) cells0
      = Ok (m_grid g')
    ∧ ∀ (t k : nat),
        Z.of_nat t < m_responseLength demo_grid → Z.of_nat k < loopSize demo_grid →
        ∃ ct c series,
          observed demo_grid demo_listener t cells0 = Ok ct ∧ ct !! k = Some c
          ∧ m_pulseResponse g' !! k = Some series ∧ series !! t = Some c.
Proof.
  destruct (well_formed_call_returns demo_grid demo_listener) as [g' Hg'];
    [vm_compute; reflexivity | vm_compute; reflexivity | vm_compute; reflexivity |].
  destruct (cube_is_history demo_grid demo_listener g' Hg') as (cells0 & Hr & He & Hall).
  exists g', cells0. repeat split; assumption.
Defined.

(** The edges of the example grid after the update phases. *)
Lemma step_leaves_edges_matched_witness :
  ∃ s', update_phases demo_grid demo_cells = Ok s'
        ∧ (∀ i, 0 ≤ i < gridy demo_grid →
             ∃ c, s' !! Z.to_nat i = Some c
                  ∧ vx c = rmul (rneg (pr c)) (m_z_inv demo_grid))
        ∧ (∀ i, 0 ≤ i < gridx demo_grid →
             ∃ c, s' !! Z.to_nat (i * (gridy demo_grid + 1)) = Some c
                  ∧ vy c = rmul (rneg (pr c)) (m_z_inv demo_grid)).
Proof.
  destruct (update_phases_total demo_grid demo_cells demo_wf eq_refl) as (s' & Hs' & _).
  destruct (step_leaves_edges_matched demo_grid demo_cells s') as (Htop & _ & Hleft & _);
    [vm_compute; discriminate | vm_compute; discriminate | exact Hs' |].
  exists s'. repeat split; assumption.
Defined.
